(** * Reconciliation of AppSync resolvers and data sources

    A shallow embedding of [src/deployAppSyncResolvers.js] and the
    properties of its reconciliation run.

    The module is asynchronous JavaScript.  Every function that awaits a
    remote call is embedded as a [task]: a finite tree whose nodes are the
    remote calls it issues and whose branches are the responses it can
    receive.  The entry point [deployAppSyncResolvers] awaits several
    promises at once ([Promise.all]); it is embedded as a state machine
    ([step]) driven by the environment, which chooses which call in
    flight settles next and with what response.  The order of the calls
    issued and settled is recorded in a trace of [event]s.  A promise
    whose [Promise.all] has already rejected is not cancelled: its
    function goes on issuing calls, which the trace records too.

    The file has the embedding first, then the predicates the statements
    use, then the proofs: lemmas on tasks, the invariant of the reachable
    states, the theorems, and the theorems at concrete inputs. *)

From Stdlib Require Import String Ascii List ZArith Bool Arith Lia DecimalString.
Import ListNotations.
Open Scope string_scope.
Open Scope list_scope.

Set Implicit Arguments.
Set Warnings "-register-all".

(** ** JavaScript values *)

(** The values a caller can put into [params]: JSON-like data.  An object
    keeps its own enumerable properties in enumeration order (the order of
    [for ... in]); keys are unique.  Numbers are only tested for truthiness
    and copied, so they are integers here (no NaN).  Arrays and functions
    are not modelled. *)
Inductive value : Type :=
| VUndef
| VNull
| VBool (b : bool)
| VNum (n : Z)
| VStr (s : string)
| VObj (props : list (string * value)).

Definition obj : Type := list (string * value).

(** [typeof v] *)
Definition typeof (v : value) : string :=
  match v with
  | VUndef => "undefined"
  | VNull => "object"
  | VBool _ => "boolean"
  | VNum _ => "number"
  | VStr _ => "string"
  | VObj _ => "object"
  end.

(** ToBoolean: what [if (v)], [!v] and [v || w] test. *)
Definition truthy (v : value) : bool :=
  match v with
  | VUndef | VNull => false
  | VBool b => b
  | VNum n => negb (n =? 0)%Z
  | VStr s => negb (s =? "")
  | VObj _ => true
  end.

(** [a || b] *)
Definition jor (a b : value) : value := if truthy a then a else b.

(** Own property lookup: [o.k] when [k] is not a name of [Object.prototype]. *)
Fixpoint find_prop (k : string) (o : obj) : option value :=
  match o with
  | [] => None
  | (k', v) :: rest => if k' =? k then Some v else find_prop k rest
  end.

Definition lookup (k : string) (o : obj) : value :=
  match find_prop k o with
  | Some v => v
  | None => VUndef
  end.

(** [o[k] = v] on a plain object: an existing key keeps its place. *)
Fixpoint obj_set (k : string) (v : value) (o : obj) : obj :=
  match o with
  | [] => [(k, v)]
  | (k', v') :: rest =>
      if k' =? k then (k, v) :: rest else (k', v') :: obj_set k v rest
  end.

(** The properties [for (const k in v)] and [{...v}] enumerate: none for
    [null] and [undefined]; the own properties of an object.  (Strings
    never reach these places: the loops run after a [typeof] check.) *)
Definition props_of (v : value) : obj :=
  match v with
  | VObj ps => ps
  | _ => []
  end.

(** [v.k] for the keys this module reads from a spec (none of them is a
    name of [Object.prototype]); primitives have no such property. *)
Definition get (v : value) (k : string) : value := lookup k (props_of v).

(** The non-enumerable names every plain object inherits from
    [Object.prototype]: [o[k]] is a truthy function (or the prototype
    itself) for these when [o] has no own property [k]. *)
Definition object_prototype_keys : list string :=
  [ "constructor"; "hasOwnProperty"; "isPrototypeOf"; "propertyIsEnumerable";
    "toLocaleString"; "toString"; "valueOf"; "__proto__";
    "__defineGetter__"; "__defineSetter__"; "__lookupGetter__";
    "__lookupSetter__" ].

Definition mem (s : string) (l : list string) : bool :=
  existsb (String.eqb s) l.

(** Truthiness of [o[k]] for an arbitrary key [k] of a plain object. *)
Definition has_truthy (k : string) (o : obj) : bool :=
  match find_prop k o with
  | Some v => truthy v
  | None => mem k object_prototype_keys
  end.

(** [s.includes(needle)] *)
Definition includes (needle s : string) : bool :=
  match index 0 needle s with
  | Some _ => true
  | None => false
  end.

Definition dq : string := String (ascii_of_nat 34) EmptyString.

(** String conversion inside a template literal. *)
Definition to_string (v : value) : string :=
  match v with
  | VUndef => "undefined"
  | VNull => "null"
  | VBool true => "true"
  | VBool false => "false"
  | VNum n => NilEmpty.string_of_int (Z.to_int n)
  | VStr s => s
  | VObj _ => "[object Object]"
  end.

(** ** Errors *)

(** What can be thrown: [new Error(message)] by this module, a [TypeError]
    by the runtime, or the rejection of a remote call, which carries the
    service's [code]. *)
Inductive error : Type :=
| JsError (message : string)
| JsTypeError (message : string)
| ServiceError (code message : string).

(** [e.code === c] *)
Definition code_is (e : error) (c : string) : bool :=
  match e with
  | ServiceError c' _ => c' =? c
  | _ => false
  end.

Definition message (e : error) : string :=
  match e with
  | JsError m | JsTypeError m | ServiceError _ m => m
  end.

Inductive result (A : Type) : Type :=
| Ok (a : A)
| Error (e : error).
Arguments Error {A} e.

(** ** Remote calls *)

Record deltaSyncConfig : Type := {
  baseTableTTL : option value;
  deltaSyncTableName : option value;
  deltaSyncTableTTL : option value
}.

(** The kind-specific member of [dataSourceParams]: exactly one of
    [lambdaConfig], [dynamodbConfig], [httpConfig], [elasticsearchConfig],
    [relationalDatabaseConfig] is set. *)
Inductive dsConfig : Type :=
| lambdaConfig (lambdaFunctionArn : string)
| dynamodbConfig (awsRegion tableName : value) (deltaSync : option deltaSyncConfig)
| httpConfig (endpoint authorizationType signingRegion signingServiceName : value)
| elasticsearchConfig (awsRegion endpoint : value)
| relationalDatabaseConfig
    (relationalDatabaseSourceType awsRegion awsSecretStoreArn
       databaseName dbClusterIdentifier schema : value).

Record dataSourceParams : Type := {
  ds_apiId : value;
  ds_serviceRoleArn : string;
  ds_name : value;
  ds_type : string;
  ds_config : dsConfig
}.

Record resolverParams : Type := {
  r_apiId : value;
  r_kind : string;
  r_typeName : value;
  r_fieldName : value;
  r_dataSourceName : string;
  r_requestMappingTemplate : value;
  r_responseMappingTemplate : value
}.

(** The calls that leave the module: the AppSync client's operations, the
    two resolvers of identifiers [getRoleArn] and [getLambdaArn], and the
    timer [sleep]. The last three live in other files of the repository and
    are opaque here: one call, one response. *)
Inductive op : Type :=
| ListResolvers (apiId : value) (typeName : string)
| ListDataSources (apiId : value)
| GetRoleArn (roleName : value)
| GetLambdaArn (lambdaName : value)
| UpdateDataSource (p : dataSourceParams)
| CreateDataSource (p : dataSourceParams)
| UpdateResolver (p : resolverParams)
| CreateResolver (p : resolverParams)
| DeleteResolver (apiId : value) (fieldName typeName : string)
| DeleteDataSource (apiId : value) (name : string)
| Sleep (ms : Z).

(** What a call settles with.  [Failed] is a rejection; the others are the
    part of the fulfilled value the module reads: the field names of
    [res.resolvers], the names of [res.dataSources], the
    [dataSourceArn] and [name] of [res.dataSource], an ARN, or a value
    that is not inspected. *)
Inductive response : Type :=
| Failed (code message : string)
| Resolvers (fieldNames : list string)
| DataSources (names : list string)
| DataSource (dataSourceArn name : string)
| Arn (arn : string)
| Done.

(** The shape the client library gives to the response of each call. *)
Definition well_typed (o : op) (r : response) : bool :=
  match r, o with
  | Failed _ _, _ => true
  | Resolvers _, ListResolvers _ _ => true
  | DataSources _, ListDataSources _ => true
  | DataSource _ _, (UpdateDataSource _ | CreateDataSource _) => true
  | Arn _, (GetRoleArn _ | GetLambdaArn _) => true
  | Done, (UpdateResolver _ | CreateResolver _ | DeleteResolver _ _ _
          | DeleteDataSource _ _ | Sleep _) => true
  | _, _ => false
  end.

(** Calls that change the remote object graph. *)
Definition mutating (o : op) : bool :=
  match o with
  | UpdateDataSource _ | CreateDataSource _ | UpdateResolver _
  | CreateResolver _ | DeleteResolver _ _ _ | DeleteDataSource _ _ => true
  | _ => false
  end.

(** ** Tasks: asynchronous functions *)

(** An [async] function up to its next [await] of a remote call: it has
    returned, it has thrown, or it has issued a call and continues with
    the response. *)
Inductive task (A : Type) : Type :=
| Ret (a : A)
| Throw (e : error)
| Call (o : op) (k : response -> task A).
Arguments Throw {A} e.
Arguments Call {A} o k.

Fixpoint bind {A B : Type} (t : task A) (f : A -> task B) : task B :=
  match t with
  | Ret a => f a
  | Throw e => Throw e
  | Call o k => Call o (fun r => bind (k r) f)
  end.

(** [try { t } catch (e) { h e }] *)
Fixpoint try_catch {A : Type} (t : task A) (h : error -> task A) : task A :=
  match t with
  | Ret a => Ret a
  | Throw e => h e
  | Call o k => Call o (fun r => try_catch (k r) h)
  end.

Notation "x <- t ;; f" := (bind t (fun x => f))
  (at level 61, t at next level, right associativity).

(** [await client.o(...).promise()]: a rejection is thrown at the [await]. *)
Definition await (o : op) : task response :=
  Call o (fun r =>
    match r with
    | Failed c m => Throw (ServiceError c m)
    | _ => Ret r
    end).

Definition lift {A : Type} (r : result A) : task A :=
  match r with
  | Ok a => Ret a
  | Error e => Throw e
  end.

Definition shape_error : error :=
  JsTypeError "Cannot read properties of undefined".

(** ** The functions of the module *)

(** [resolvers[resolver.fieldName] = resolver] on the accumulator of
    [reduce] (only the keys are used afterwards). *)
Definition add_key (acc : list string) (k : string) : list string :=
  if mem k acc then acc else acc ++ [k].

(** [listResolvers], lines 8-26. The result is the list of keys of the
    object built by [reduce]. *)
Definition listResolvers (apiId : value) (typeName : string) : task (list string) :=
  try_catch
    (res <- await (ListResolvers apiId typeName) ;;
     match res with
     | Resolvers rs => Ret (fold_left add_key rs [])
     | _ => Throw shape_error
     end)
    (fun e =>
       if code_is e "NotFoundException" then Ret [] else Throw e).

(** [getExistingDataSourcesNames], lines 236-242. *)
Definition getExistingDataSourcesNames (apiId : value) : task (list string) :=
  res <- await (ListDataSources apiId) ;;
  match res with
  | DataSources names => Ret names
  | _ => Throw shape_error
  end.

(** [updateAppSyncResolver], lines 43-61: both branches of the handler
    rethrow. *)
Definition updateAppSyncResolver (p : resolverParams) : task response :=
  try_catch (await (UpdateResolver p))
    (fun e =>
       if code_is e "NotFoundException" && includes "Type" (message e)
          && includes "not found" (message e)
       then Throw e else Throw e).

(** [createAppSyncResolver], lines 63-81. *)
Definition createAppSyncResolver (p : resolverParams) : task response :=
  try_catch (await (CreateResolver p))
    (fun e =>
       if code_is e "NotFoundException" && includes "Type" (message e)
          && includes "not found" (message e)
       then Throw e else Throw e).

Definition is_alnum (c : ascii) : bool :=
  let n := nat_of_ascii c in
  (((48 <=? n) && (n <=? 57)) || ((65 <=? n) && (n <=? 90))
   || ((97 <=? n) && (n <=? 122)))%nat.

(** [s.replace(/[^a-z0-9]/gi, '')] *)
Fixpoint strip (s : string) : string :=
  match s with
  | EmptyString => EmptyString
  | String c rest => if is_alnum c then String c (strip rest) else strip rest
  end.

(** [getDataSourceName], lines 83-86: [name.replace] exists on strings
    only. *)
Definition getDataSourceName (name : value) : result string :=
  match name with
  | VStr s => Ok (strip s)
  | VUndef | VNull => Error (JsTypeError "Cannot read properties of undefined (reading 'replace')")
  | _ => Error (JsTypeError "name.replace is not a function")
  end.

(** The client configuration; only [config.region] is read. *)
Record config : Type := { region : value }.

Definition empty_deltaSync : deltaSyncConfig :=
  {| baseTableTTL := None; deltaSyncTableName := None; deltaSyncTableTTL := None |}.

(** [dynamodbConfig.deltaSyncConfig || {}] *)
Definition or_empty (d : option deltaSyncConfig) : deltaSyncConfig :=
  match d with
  | Some c => c
  | None => empty_deltaSync
  end.

(** Lines 112-128: the three optional members of [deltaSyncConfig]. *)
Definition deltaSync_of (params : obj) : option deltaSyncConfig :=
  let d0 : option deltaSyncConfig := None in
  let d1 :=
    if truthy (lookup "ttl" params)
    then Some {| baseTableTTL := Some (lookup "ttl" params);
                 deltaSyncTableName := deltaSyncTableName (or_empty d0);
                 deltaSyncTableTTL := deltaSyncTableTTL (or_empty d0) |}
    else d0 in
  let d2 :=
    if truthy (lookup "syncTable" params)
    then Some {| baseTableTTL := baseTableTTL (or_empty d1);
                 deltaSyncTableName := Some (lookup "syncTable" params);
                 deltaSyncTableTTL := deltaSyncTableTTL (or_empty d1) |}
    else d1 in
  if truthy (lookup "syncTableTtl" params)
  then Some {| baseTableTTL := baseTableTTL (or_empty d2);
               deltaSyncTableName := deltaSyncTableName (or_empty d2);
               deltaSyncTableTTL := Some (lookup "syncTableTtl" params) |}
  else d2.

(** [const { dataSource: { dataSourceArn, name } } = await ...] *)
Definition read_dataSource (r : response) : task (string * string) :=
  match r with
  | DataSource dataSourceArn name => Ret (dataSourceArn, name)
  | _ => Throw shape_error
  end.

Definition read_arn (r : response) : task string :=
  match r with
  | Arn a => Ret a
  | _ => Throw shape_error
  end.

(** Lines 168-197 of [deployAppSyncDataSource]: update, else create, else
    update again.  The result is [(dataSourceArn, dataSourceName)]. *)
Definition upsertDataSource (p : dataSourceParams) : task (string * string) :=
  try_catch
    (r <- await (UpdateDataSource p) ;; read_dataSource r)
    (fun e =>
       if code_is e "NotFoundException" then
         try_catch
           (r <- await (CreateDataSource p) ;; read_dataSource r)
           (fun createError =>
              if code_is createError "BadRequestException"
                 && includes "Data source with name" (message createError)
              then r <- await (UpdateDataSource p) ;; read_dataSource r
              else Throw createError)
       else Throw e).

Definition msg_no_data_source (params : obj) : string :=
  "Please specify a data source for resolver " ++ dq
  ++ to_string (lookup "type" params) ++ "." ++ to_string (lookup "field" params)
  ++ dq.

(** Lines 91-166 of [deployAppSyncDataSource]: the role, then the
    kind-specific payload chosen by the chain of [if]s. *)
Definition buildDataSourceParams (cfg : config) (params : obj) : task dataSourceParams :=
  role <- await (GetRoleArn (lookup "roleName" params)) ;;
  serviceRoleArn <- read_arn role ;;
  let mk (name : value) (type : string) (c : dsConfig) : dataSourceParams :=
    {| ds_apiId := lookup "apiId" params;
       ds_serviceRoleArn := serviceRoleArn;
       ds_name := name;
       ds_type := type;
       ds_config := c |} in
  if truthy (lookup "lambda" params) then
    name <- lift (getDataSourceName (lookup "lambda" params)) ;;
    r <- await (GetLambdaArn (lookup "lambda" params)) ;;
    lambdaFunctionArn <- read_arn r ;;
    Ret (mk (VStr name) "AWS_LAMBDA" (lambdaConfig lambdaFunctionArn))
  else if truthy (lookup "table" params) then
    name <- lift (getDataSourceName (lookup "table" params)) ;;
    Ret (mk (VStr name) "AMAZON_DYNAMODB"
           (dynamodbConfig (jor (lookup "tableRegion" params) (region cfg))
              (lookup "table" params) (deltaSync_of params)))
  else if truthy (lookup "authorizationConfig" params) then
    Ret (mk (lookup "name" params) "HTTP"
           (httpConfig (lookup "endpoint" params) (lookup "authorization" params)
              (lookup "signingRegion" params) (lookup "signingServiceName" params)))
  else if truthy (lookup "endpoint" params) then
    Ret (mk (lookup "name" params) "AMAZON_ELASTICSEARCH"
           (elasticsearchConfig (jor (lookup "endpointRegion" params) (region cfg))
              (lookup "endpoint" params)))
  else if truthy (lookup "relationalDatabaseSourceType" params) then
    name <- (if truthy (lookup "name" params) then Ret (lookup "name" params)
             else n <- lift (getDataSourceName (lookup "database" params)) ;;
                  Ret (VStr n)) ;;
    Ret (mk name "RELATIONAL_DATABASE"
           (relationalDatabaseConfig
              (jor (lookup "relationalDatabaseSourceType" params) (VStr "RDS_HTTP_ENDPOINT"))
              (jor (lookup "endpointRegion" params) (region cfg))
              (lookup "awsSecretStoreArn" params) (lookup "database" params)
              (lookup "dbClusterIdentifier" params) (lookup "schema" params)))
  else Throw (JsError (msg_no_data_source params)).

(** [deployAppSyncDataSource], lines 88-198. *)
Definition deployAppSyncDataSource (cfg : config) (params : obj) : task (string * string) :=
  dataSourceParams <- buildDataSourceParams cfg params ;;
  upsertDataSource dataSourceParams.

(** [omit(keys, params)] *)
Definition omit (keys : list string) (params : obj) : obj :=
  filter (fun kv => negb (mem (fst kv) keys)) params.

(** Lines 200-209: the content whose hash is the key of the memoized
    [deployAppSyncDataSourceCached].  No function of the module calls
    the memoized version. *)
Definition cacheKey (params : obj) : obj :=
  omit ["type"; "field"; "request"; "response"] params.

Definition default_request : string :=
  "{ " ++ dq ++ "version" ++ dq ++ ": " ++ dq ++ "2017-02-28" ++ dq ++ ", "
  ++ dq ++ "operation" ++ dq ++ ": " ++ dq ++ "Invoke" ++ dq ++ ", "
  ++ dq ++ "payload" ++ dq ++ ": $util.toJson($context)  }".

Definition default_response : string := "$util.toJson($context.result)".

(** The [resolverParams] of lines 213-223. *)
Definition resolverParams_of (params : obj) (dataSourceName : string) : resolverParams :=
  {| r_apiId := lookup "apiId" params;
     r_kind := "UNIT";
     r_typeName := lookup "type" params;
     r_fieldName := lookup "field" params;
     r_dataSourceName := dataSourceName;
     r_requestMappingTemplate := jor (lookup "request" params) (VStr default_request);
     r_responseMappingTemplate := jor (lookup "response" params) (VStr default_response) |}.

(** [deployAppSyncResolver], lines 211-234.  Line 212 calls
    [deployAppSyncDataSource]. *)
Definition deployAppSyncResolver (cfg : config) (params : obj) : task response :=
  ds <- deployAppSyncDataSource cfg params ;;
  let resolverParams := resolverParams_of params (snd ds) in
  try_catch (updateAppSyncResolver resolverParams)
    (fun e =>
       if code_is e "NotFoundException" && includes "No resolver found" (message e)
       then createAppSyncResolver resolverParams
       else Throw e).

(** The inner loop of [getDataSourcesNames], lines 248-252. *)
Fixpoint dataSourcesNames_fields (fields : obj) (acc : list string) : result (list string) :=
  match fields with
  | [] => Ok acc
  | (_, spec) :: rest =>
      match spec with
      | VUndef | VNull =>
          Error (JsTypeError "Cannot destructure property 'name' of null")
      | _ =>
          match getDataSourceName
                  (jor (jor (jor (get spec "name") (get spec "lambda"))
                          (get spec "table")) (get spec "database")) with
          | Ok n => dataSourcesNames_fields rest (acc ++ [n])
          | Error e => Error e
          end
      end
  end.

Fixpoint dataSourcesNames_types (types : obj) (acc : list string) : result (list string) :=
  match types with
  | [] => Ok acc
  | (_, fields) :: rest =>
      match dataSourcesNames_fields (props_of fields) acc with
      | Ok acc' => dataSourcesNames_types rest acc'
      | Error e => Error e
      end
  end.

(** [getDataSourcesNames], lines 244-256. *)
Definition getDataSourcesNames (resolvers : value) : result (list string) :=
  dataSourcesNames_types (props_of resolvers) [].

(** ** The reconciliation run: [deployAppSyncResolvers], lines 258-346 *)

(** The four places where the run awaits: the snapshot of line 274, the
    promises of line 318 (upserts and resolver deletes), the data-source
    deletes of line 334, and the pause of line 340. *)
Inductive phase : Type := PSnapshot | PUpsert | PDelete | PSleep.

Definition phase_eqb (a b : phase) : bool :=
  match a, b with
  | PSnapshot, PSnapshot | PUpsert, PUpsert | PDelete, PDelete | PSleep, PSleep => true
  | _, _ => false
  end.

(** What the awaited promises fulfil with: the three results of the
    snapshot, or a value the run does not read. *)
Inductive tval : Type :=
| TQuery (fields : list string)
| TMutation (fields : list string)
| TNames (names : list string)
| TVoid.

(** A call in flight: its identifier, the attempt and the awaited group it
    belongs to, and the rest of the asynchronous function that issued it. *)
Record call : Type := {
  c_id : nat;
  c_attempt : nat;
  c_phase : phase;
  c_op : op;
  c_k : response -> task tval
}.

Inductive event : Type :=
| Issue (id attempt : nat) (o : op)
| Settle (id : nat) (r : response)
| Raise (e : error)
| Return.

(** Where the body of [deployAppSyncResolvers] is suspended. *)
Inductive mainst : Type :=
| MSnapshot (q m d : option (list string))
| MUpsert (existingDataSourcesNames : list string)
| MDelete
| MSleep
| MDone (r : option error).

(** [trace] is newest first; [attempt] counts the recursive calls of
    line 341. *)
Record state : Type := {
  attempt : nat;
  next_id : nat;
  trace : list event;
  inflight : list call;
  main : mainst
}.

Definition history (s : state) : list event := rev (trace s).

Definition set_main (m : mainst) (s : state) : state :=
  {| attempt := attempt s; next_id := next_id s; trace := trace s;
     inflight := inflight s; main := m |}.

Definition emit (e : event) (s : state) : state :=
  {| attempt := attempt s; next_id := next_id s; trace := e :: trace s;
     inflight := inflight s; main := main s |}.

(** Issue a call on behalf of attempt [a]. *)
Definition issue (a : nat) (ph : phase) (o : op) (k : response -> task tval)
    (s : state) : state :=
  {| attempt := attempt s;
     next_id := S (next_id s);
     trace := Issue (next_id s) a o :: trace s;
     inflight := inflight s ++
       [{| c_id := next_id s; c_attempt := a; c_phase := ph; c_op := o; c_k := k |}];
     main := main s |}.

(** Start an asynchronous function: it runs to its first remote call.
    Every function started by the run begins with one. *)
Definition spawn (ph : phase) (t : task tval) (s : state) : state :=
  match t with
  | Call o k => issue (attempt s) ph o k s
  | _ => s
  end.

(** Is a promise of group [ph] of the current attempt still pending? *)
Definition pending (ph : phase) (s : state) : bool :=
  existsb (fun c => (c_attempt c =? attempt s)%nat && phase_eqb (c_phase c) ph)
    (inflight s).

Fixpoint take (id : nat) (l : list call) : option (call * list call) :=
  match l with
  | [] => None
  | c :: rest =>
      if (c_id c =? id)%nat then Some (c, rest)
      else match take id rest with
           | Some (c', rest') => Some (c', c :: rest')
           | None => None
           end
  end.

Definition msg_apiId : string := "Missing " ++ dq ++ "apiId" ++ dq ++ " param.".
Definition msg_roleName : string := "Missing " ++ dq ++ "roleName" ++ dq ++ " param.".
Definition msg_resolvers : string :=
  dq ++ "resolvers" ++ dq ++ " param is missing or is not an object.".
Definition msg_type (type : string) : string :=
  dq ++ "resolvers." ++ type ++ dq ++ " must be an object.".
Definition msg_field (type field : string) : string :=
  dq ++ "resolvers." ++ type ++ "." ++ field ++ dq ++ " must be an object.".

(** The condition of the handler, lines 336-339. *)
Definition retryable (e : error) : bool :=
  code_is e "ConcurrentModificationException"
  && includes "Schema is currently being altered" (message e).

Definition then_ {A B : Type} (t : task A) (f : A -> B) : task B :=
  x <- t ;; Ret (f x).

(** [sleep(ms)] of [./utils]. *)
Definition sleep (ms : Z) : task tval := then_ (await (Sleep ms)) (fun _ => TVoid).

Definition deleteResolver (apiId : value) (fieldName typeName : string) : task tval :=
  then_ (await (DeleteResolver apiId fieldName typeName)) (fun _ => TVoid).

Definition deleteDataSource (apiId : value) (name : string) : task tval :=
  then_ (await (DeleteDataSource apiId name)) (fun _ => TVoid).

(** Call [id] has settled with [r]; [rest] are the calls still in flight. *)
Definition settle_state (s : state) (id : nat) (r : response) (rest : list call) : state :=
  {| attempt := attempt s; next_id := next_id s; trace := Settle id r :: trace s;
     inflight := rest; main := main s |}.

(** Before the call: nothing issued, nothing in flight. *)
Definition idle : state :=
  {| attempt := 0; next_id := 0; trace := []; inflight := []; main := MDone None |}.

Section Run.

Variable cfg : config.
Variable params : value.

(** [const { apiId, roleName, resolvers } = params] *)
Definition apiId : value := get params "apiId".
Definition roleName : value := get params "roleName".
Definition resolvers : value := get params "resolvers".

(** The promise returned to the caller settles. *)
Definition raise (e : error) (s : state) : state :=
  set_main (MDone (Some e)) (emit (Raise e) s).

Definition finish (s : state) : state :=
  set_main (MDone None) (emit Return s).

(** The handler of lines 335-345, up to its [await sleep(1000)]. *)
Definition catch (e : error) (s : state) : state :=
  if retryable e then set_main MSleep (spawn PSleep (sleep 1000) s)
  else raise e s.

(** The [resolverParams] of lines 293-299. *)
Definition spec_params (spec : value) (type field : string) : obj :=
  obj_set "field" (VStr field)
    (obj_set "type" (VStr type)
       (obj_set "roleName" roleName
          (obj_set "apiId" apiId (props_of spec)))).

(** The loop of lines 288-301 over the fields of one type; the error, if
    any, is thrown after the earlier resolvers were started. *)
Fixpoint upsert_fields (type : string) (fields : obj) (s : state)
    : state * option error :=
  match fields with
  | [] => (s, None)
  | (field, spec) :: rest =>
      if negb (typeof spec =? "object")
      then (s, Some (JsError (msg_field type field)))
      else upsert_fields type rest
             (spawn PUpsert
                (then_ (deployAppSyncResolver cfg (spec_params spec type field))
                   (fun _ => TVoid)) s)
  end.

(** The loop of lines 283-302. *)
Fixpoint upsert_types (types : obj) (s : state) : state * option error :=
  match types with
  | [] => (s, None)
  | (type, fields) :: rest =>
      if negb (typeof fields =? "object")
      then (s, Some (JsError (msg_type type)))
      else match upsert_fields type (props_of fields) s with
           | (s', None) => upsert_types rest s'
           | (s', Some e) => (s', Some e)
           end
  end.

(** [!resolvers[type] || !resolvers[type][field]], line 306. *)
Definition absent (type field : string) : result bool :=
  match resolvers with
  | VUndef | VNull =>
      Error (JsTypeError "Cannot read properties of null")
  | _ =>
      let t := get resolvers type in
      if negb (truthy t) then Ok true
      else Ok (negb (has_truthy field (props_of t)))
  end.

(** The loop of lines 305-315 over the existing fields of one type. *)
Fixpoint delete_fields (type : string) (fields : list string) (s : state)
    : state * option error :=
  match fields with
  | [] => (s, None)
  | field :: rest =>
      match absent type field with
      | Error e => (s, Some e)
      | Ok true => delete_fields type rest (spawn PUpsert (deleteResolver apiId field type) s)
      | Ok false => delete_fields type rest s
      end
  end.

(** Lines 322-332. *)
Definition removeOutdatedDataSources (existing dataSourcesNames : list string)
    (s : state) : state :=
  fold_left
    (fun s existingDataSourceName =>
       if negb (mem existingDataSourceName dataSourcesNames)
       then spawn PDelete (deleteDataSource apiId existingDataSourceName) s
       else s)
    existing s.

(** [await Promise.all(removeOutdatedDataSources)], line 334, and the end
    of the [try] block. *)
Definition await_deletes (s : state) : state :=
  if pending PDelete s then set_main MDelete s else finish s.

(** Lines 320-334. *)
Definition delete_phase (existing : list string) (s : state) : state :=
  match getDataSourcesNames resolvers with
  | Error e => catch e s
  | Ok dataSourcesNames =>
      await_deletes (removeOutdatedDataSources existing dataSourcesNames s)
  end.

(** [await Promise.all(promises)], line 318. *)
Definition await_upserts (existing : list string) (s : state) : state :=
  if pending PUpsert s then set_main (MUpsert existing) s
  else delete_phase existing s.

(** Lines 278-318: the body between the two [await]s, entered with the
    snapshot [{Query: q, Mutation: m}] and [existing]. *)
Definition upsert_phase (q m existing : list string) (s : state) : state :=
  match upsert_types (props_of resolvers) s with
  | (s1, Some e) => catch e s1
  | (s1, None) =>
      match delete_fields "Query" q s1 with
      | (s2, Some e) => catch e s2
      | (s2, None) =>
          match delete_fields "Mutation" m s2 with
          | (s3, Some e) => catch e s3
          | (s3, None) => await_upserts existing s3
          end
      end
  end.

(** Lines 259-277: the body up to its first [await]. *)
Definition begin (s : state) : state :=
  match params with
  | VUndef | VNull =>
      catch (JsTypeError "Cannot destructure property 'apiId' of undefined") s
  | _ =>
      if negb (truthy apiId) then catch (JsError msg_apiId) s
      else if negb (truthy roleName) then catch (JsError msg_roleName) s
      else if negb (typeof resolvers =? "object") then catch (JsError msg_resolvers) s
      else
        set_main (MSnapshot None None None)
          (spawn PSnapshot (then_ (getExistingDataSourcesNames apiId) TNames)
             (spawn PSnapshot (then_ (listResolvers apiId "Mutation") TMutation)
                (spawn PSnapshot (then_ (listResolvers apiId "Query") TQuery) s)))
  end.

(** The run of [deployAppSyncResolvers(config, params)] up to its first
    suspension. *)
Definition start : state := begin idle.

(** The recursive call of line 341. *)
Definition retry (s : state) : state :=
  begin {| attempt := S (attempt s); next_id := next_id s; trace := trace s;
           inflight := inflight s; main := main s |}.

(** Does the body currently await the promise that [c] belongs to? *)
Definition awaited (c : call) (s : state) : bool :=
  (c_attempt c =? attempt s)%nat &&
  match main s, c_phase c with
  | MSnapshot _ _ _, PSnapshot | MUpsert _, PUpsert | MDelete, PDelete
  | MSleep, PSleep => true
  | _, _ => false
  end.

(** One awaited promise fulfils with [v]: [Promise.all] fulfils when it was
    the last one, and the body goes on. *)
Definition fulfilled (v : tval) (s : state) : state :=
  match main s with
  | MSnapshot q m d =>
      let q' := match v with TQuery fs => Some fs | _ => q end in
      let m' := match v with TMutation fs => Some fs | _ => m end in
      let d' := match v with TNames ns => Some ns | _ => d end in
      match q', m', d' with
      | Some fs, Some gs, Some ns => upsert_phase fs gs ns s
      | _, _, _ => set_main (MSnapshot q' m' d') s
      end
  | MUpsert existing =>
      if pending PUpsert s then s else delete_phase existing s
  | MDelete =>
      if pending PDelete s then s else finish s
  | MSleep => retry s
  | MDone _ => s
  end.

(** One awaited promise rejects with [e]: the [await] throws.  Inside the
    [try] block the handler runs; the [await sleep(1000)] of the handler
    itself is not protected. *)
Definition rejected (e : error) (s : state) : state :=
  match main s with
  | MSleep => raise e s
  | _ => catch e s
  end.

(** The call [id] settles with [r]: the function that awaited it runs to
    its next remote call or to its end.  A promise that nothing awaits any
    more (its [Promise.all] has already rejected) settles unobserved. *)
Definition step (s : state) (c : nat * response) : state :=
  let (id, r) := c in
  match take id (inflight s) with
  | None => s
  | Some (cl, rest) =>
      if negb (well_typed (c_op cl) r) then s
      else
        let s1 := settle_state s id r rest in
        match c_k cl r with
        | Call o k => issue (c_attempt cl) (c_phase cl) o k s1
        | Ret v => if awaited cl s1 then fulfilled v s1 else s1
        | Throw e => if awaited cl s1 then rejected e s1 else s1
        end
  end.

(** The run under the environment's choices [cs]. *)
Definition exec (cs : list (nat * response)) : state := fold_left step cs start.

(** *** The plan of one attempt, as data *)

(** The error of lines 259-272, if any. *)
Definition top_error : option error :=
  match params with
  | VUndef | VNull =>
      Some (JsTypeError "Cannot destructure property 'apiId' of undefined")
  | _ =>
      if negb (truthy apiId) then Some (JsError msg_apiId)
      else if negb (truthy roleName) then Some (JsError msg_roleName)
      else if negb (typeof resolvers =? "object") then Some (JsError msg_resolvers)
      else None
  end.

(** The resolvers started by the loop over the fields of one type, and the
    error that stops it. *)
Fixpoint upsert_plan_fields (type : string) (fields : obj)
    : list (task tval) * option error :=
  match fields with
  | [] => ([], None)
  | (field, spec) :: rest =>
      if negb (typeof spec =? "object")
      then ([], Some (JsError (msg_field type field)))
      else
        let (ts, e) := upsert_plan_fields type rest in
        (then_ (deployAppSyncResolver cfg (spec_params spec type field))
           (fun _ => TVoid) :: ts, e)
  end.

Fixpoint upsert_plan (types : obj) : list (task tval) * option error :=
  match types with
  | [] => ([], None)
  | (type, fields) :: rest =>
      if negb (typeof fields =? "object")
      then ([], Some (JsError (msg_type type)))
      else
        match upsert_plan_fields type (props_of fields) with
        | (ts, Some e) => (ts, Some e)
        | (ts, None) => let (ts', e) := upsert_plan rest in (ts ++ ts', e)
        end
  end.

(** The resolver deletes started by the loop over the existing fields of
    one type. *)
Fixpoint delete_plan (type : string) (fields : list string)
    : list (task tval) * option error :=
  match fields with
  | [] => ([], None)
  | field :: rest =>
      match absent type field with
      | Error e => ([], Some e)
      | Ok b =>
          let (ts, e) := delete_plan type rest in
          ((if b then [deleteResolver apiId field type] else []) ++ ts, e)
      end
  end.

(** The data sources to remove. *)
Definition outdated (existing dataSourcesNames : list string) : list string :=
  filter (fun n => negb (mem n dataSourcesNames)) existing.

Definition spawn_all (ph : phase) (ts : list (task tval)) (s : state) : state :=
  fold_left (fun s t => spawn ph t s) ts s.

End Run.

(** ** One asynchronous function against a sequence of responses *)

(** [run t rs] answers the calls of [t] with [rs], in order: the calls
    issued, and the result if [t] has settled ([None]: the last call is
    still in flight). *)
Fixpoint run {A : Type} (t : task A) (rs : list response)
    : list op * option (result A) :=
  match t with
  | Ret a => ([], Some (Ok a))
  | Throw e => ([], Some (Error e))
  | Call o k =>
      match rs with
      | [] => ([o], None)
      | r :: rest => let (ops, out) := run (k r) rest in (o :: ops, out)
      end
  end.

(** All the calls a task can issue satisfy [P], and all the errors it can
    throw satisfy [Q]. *)
Inductive task_all {A : Type} (P : op -> Prop) (Q : error -> Prop) : task A -> Prop :=
| ta_ret : forall a, task_all P Q (Ret a)
| ta_throw : forall e, Q e -> task_all P Q (Throw e)
| ta_call : forall o k, P o -> (forall r, task_all P Q (k r)) -> task_all P Q (Call o k).


(** ** Properties of traces *)

(** The awaited group a call belongs to, by its operation. *)
Definition op_phase (o : op) : phase :=
  match o with
  | ListResolvers _ _ | ListDataSources _ => PSnapshot
  | DeleteDataSource _ _ => PDelete
  | Sleep _ => PSleep
  | _ => PUpsert
  end.

(** The create and update calls of an upsert. *)
Definition is_upsert (o : op) : bool :=
  match o with
  | UpdateDataSource _ | CreateDataSource _ | UpdateResolver _ | CreateResolver _ => true
  | _ => false
  end.

Definition is_delete (o : op) : bool :=
  match o with
  | DeleteResolver _ _ _ | DeleteDataSource _ _ => true
  | _ => false
  end.

(** The errors of the validation of lines 262-291. *)
Inductive validation_error : error -> Prop :=
| ve_apiId : validation_error (JsError msg_apiId)
| ve_roleName : validation_error (JsError msg_roleName)
| ve_resolvers : validation_error (JsError msg_resolvers)
| ve_type : forall type, validation_error (JsError (msg_type type))
| ve_field : forall type field, validation_error (JsError (msg_field type field)).

(** What the run relies on in a function it has started in group [ph]:
    its later calls stay in the group, a data-source delete is a single
    call, and it throws no validation error. *)
Definition task_ok (ph : phase) (t : task tval) : Prop :=
  task_all (fun o => op_phase o = ph /\ ph <> PDelete)
    (fun e => ~ validation_error e) t.

Definition spawnable (ph : phase) (t : task tval) : Prop :=
  exists o k, t = Call o k /\ op_phase o = ph /\ forall r, task_ok ph (k r).

(** The following predicates read a trace newest first, as [trace] keeps
    it. *)
Definition settled (tr : list event) (id : nat) : Prop :=
  exists r, In (Settle id r) tr.

(** Every call of group [PUpsert] issued by attempt [a] has settled. *)
Definition upserts_settled (a : nat) (tr : list event) : Prop :=
  forall id o, In (Issue id a o) tr -> op_phase o = PUpsert -> settled tr id.

(** Attempt [a] has issued no data-source delete. *)
Definition no_delete_yet (a : nat) (tr : list event) : Prop :=
  forall id o, In (Issue id a o) tr -> op_phase o <> PDelete.

(** An attempt issues a data-source delete only when all its calls of
    group [PUpsert] have settled, and none of these afterwards. *)
Fixpoint ordered (tr : list event) : Prop :=
  match tr with
  | [] => True
  | e :: older =>
      ordered older /\
      match e with
      | Issue _ a o =>
          (op_phase o = PDelete -> upserts_settled a older)
          /\ (op_phase o = PUpsert -> no_delete_yet a older)
      | _ => True
      end
  end.

(** The identifiers of the calls issued are below [n]. *)
Definition bounded (n : nat) (tr : list event) : Prop :=
  forall id a o, In (Issue id a o) tr -> id < n.

Fixpoint ids_increase (tr : list event) : Prop :=
  match tr with
  | [] => True
  | Issue id _ _ :: older => bounded id older /\ ids_increase older
  | _ :: older => ids_increase older
  end.

Definition no_mutation (tr : list event) : Prop :=
  forall id a o, In (Issue id a o) tr -> mutating o = false.

(** Every validation error was raised before any mutating call. *)
Fixpoint raises_clean (tr : list event) : Prop :=
  match tr with
  | [] => True
  | e :: older =>
      raises_clean older /\
      match e with
      | Raise err => validation_error err -> no_mutation older
      | _ => True
      end
  end.

Definition is_done (m : mainst) : bool :=
  match m with
  | MDone _ => true
  | _ => false
  end.

Definition is_snapshot (m : mainst) : bool :=
  match m with
  | MSnapshot _ _ _ => true
  | _ => false
  end.

(** The invariant of the reachable states. *)
Record core (s : state) : Prop := {
  core_ordered : ordered (trace s);
  core_ids : ids_increase (trace s);
  core_bounded : bounded (next_id s) (trace s);
  core_attempts : forall id a o, In (Issue id a o) (trace s) -> a <= attempt s;
  core_calls : forall c, In c (inflight s) ->
    c_attempt c <= attempt s
    /\ op_phase (c_op c) = c_phase c
    /\ (forall r, task_ok (c_phase c) (c_k c r))
    /\ (c_phase c = PUpsert -> no_delete_yet (c_attempt c) (trace s));
  core_tracked : forall id a o,
    In (Issue id a o) (trace s) -> op_phase o = PUpsert ->
    settled (trace s) id
    \/ exists c, In c (inflight s) /\ c_id c = id /\ c_attempt c = a
                 /\ c_phase c = PUpsert;
  core_raises : raises_clean (trace s)
}.

(** Nothing of the upsert or delete groups has happened. *)
Definition reading (s : state) : Prop :=
  no_mutation (trace s)
  /\ forall c, In c (inflight s) -> c_phase c = PSnapshot \/ c_phase c = PSleep.

(** The error of the shape validation inside the loops (lines 284 and
    289), if any. *)
Definition plan_error (cfg : config) (params : value) : option error :=
  snd (upsert_plan cfg params (props_of (resolvers params))).

(** The invariant with what depends on where the body is suspended. *)
Definition inv (cfg : config) (params : value) (s : state) : Prop :=
  core s
  /\ (is_snapshot (main s) = true -> no_delete_yet (attempt s) (trace s))
  /\ (plan_error cfg params <> None -> is_done (main s) = false -> reading s).

Definition starts_reading (t : task tval) : Prop :=
  exists o k, t = Call o k /\ mutating o = false.

(** ** The statements of the specification, on the history of a run *)

(** Every upsert call has settled before any delete call (of a resolver or
    of a data source) is issued. *)
Definition upserts_settle_before_deletes (h : list event) : Prop :=
  forall h1 h2 id a o,
    h = h1 ++ Issue id a o :: h2 -> is_delete o = true ->
    forall id' o',
      is_upsert o' = true -> In (Issue id' a o') h ->
      In (Issue id' a o') h1 /\ exists r, In (Settle id' r) h1.

(** Validation is over before any remote call is issued. *)
Definition validation_before_any_call (h : list event) : Prop :=
  forall pre post e,
    h = pre ++ Raise e :: post -> validation_error e ->
    forall id a o, ~ In (Issue id a o) pre.

(** The input passes the validation of lines 262-272. *)
Definition well_formed (params : value) : Prop :=
  truthy (apiId params) = true /\ truthy (roleName params) = true
  /\ typeof (resolvers params) = "object".

(** What the settling of call [id] with [r] makes of the promise that
    issued it, when the body of the run awaits that promise. *)
Definition settles (s : state) (id : nat) (r : response) : option (result tval) :=
  match take id (inflight s) with
  | Some (cl, _) =>
      if well_typed (c_op cl) r && awaited cl s then
        match c_k cl r with
        | Ret v => Some (Ok v)
        | Throw e => Some (Error e)
        | Call _ _ => None
        end
      else None
  | None => None
  end.

(** The schema-locked conflict of the remote service. *)
Definition conflict : response :=
  Failed "ConcurrentModificationException" "Schema is currently being altered".

(** The identifiers of the calls that have settled. *)
Fixpoint settled_calls (h : list event) : list nat :=
  match h with
  | [] => []
  | Settle id _ :: rest => id :: settled_calls rest
  | _ :: rest => settled_calls rest
  end.

(** The data-source provisioning calls of a history. *)
Fixpoint data_source_calls (h : list event) : list op :=
  match h with
  | [] => []
  | Issue _ _ (UpdateDataSource p) :: rest => UpdateDataSource p :: data_source_calls rest
  | Issue _ _ (CreateDataSource p) :: rest => CreateDataSource p :: data_source_calls rest
  | _ :: rest => data_source_calls rest
  end.


(** [resolvers: null] treated as an empty desired state, against the
    existing resolvers [q] and [m] and the existing data sources [names]:
    no validation error, and every existing resolver and data source is
    scheduled for deletion. *)
Definition null_deletes_everything (cfg : config) (params : value)
    (q m names : list string) : Prop :=
  let h := history (exec cfg params
                      [(0, Resolvers q); (1, Resolvers m); (2, DataSources names)]) in
  (forall e, In (Raise e) h -> ~ validation_error e)
  /\ (forall f, In f q ->
        exists id, In (Issue id 0 (DeleteResolver (apiId params) f "Query")) h)
  /\ (forall f, In f m ->
        exists id, In (Issue id 0 (DeleteResolver (apiId params) f "Mutation")) h)
  /\ (forall n, In n names ->
        exists id, In (Issue id 0 (DeleteDataSource (apiId params) n)) h).

(** A list call answered with no resolver. *)
Definition no_resolvers (r : response) : Prop :=
  r = Resolvers [] \/ exists m, r = Failed "NotFoundException" m.

(** The calls left in flight once call [id] has settled. *)
Definition rest_of (s : state) (id : nat) : list call :=
  match take id (inflight s) with
  | Some (_, rest) => rest
  | None => inflight s
  end.

Definition snapshot_call (id a : nat) (o : op) (k : response -> task tval) : call :=
  {| c_id := id; c_attempt := a; c_phase := PSnapshot; c_op := o; c_k := k |}.

Definition reads_only (o : op) : Prop := mutating o = false.

Definition in_upsert (o : op) : Prop := op_phase o = PUpsert /\ PUpsert <> PDelete.
Definition not_validation (e : error) : Prop := ~ validation_error e.

(** The body of attempt [a] is between lines 278 and 318. *)
Definition upserting (a : nat) (s : state) : Prop :=
  core s /\ attempt s = a /\ no_delete_yet a (trace s).

(** The body of attempt [a] is past line 318. *)
Definition deleting (a : nat) (s : state) : Prop :=
  core s /\ attempt s = a /\ pending PUpsert s = false.

Definition upsert_start (t : task tval) : Prop :=
  spawnable PUpsert t /\ starts_reading t.

(** ** Concrete runs *)

Module Example.

Definition cfg : config := {| region := VStr "us-east-1" |}.

Definition request (resolvers : value) : value :=
  VObj [("apiId", VStr "api"); ("roleName", VStr "role"); ("resolvers", resolvers)].

Definition api : value := VStr "api".

(** Two resolvers on the same function, with different templates. *)
Definition getUser : value := VObj [("lambda", VStr "usersFn"); ("request", VStr "A")].
Definition listUsers : value := VObj [("lambda", VStr "usersFn")].
Definition shared : value :=
  request (VObj [("Query", VObj [("getUser", getUser); ("listUsers", listUsers)])]).

Definition usersFn : dataSourceParams :=
  {| ds_apiId := api; ds_serviceRoleArn := "arn:role"; ds_name := VStr "usersFn";
     ds_type := "AWS_LAMBDA"; ds_config := lambdaConfig "arn:fn" |}.

Definition shared_run : list (nat * response) :=
  [ (0, Resolvers []); (1, Resolvers []); (2, DataSources []);
    (3, Arn "arn:role"); (4, Arn "arn:role"); (5, Arn "arn:fn"); (6, Arn "arn:fn");
    (7, DataSource "arn:ds" "usersFn"); (8, DataSource "arn:ds" "usersFn");
    (9, Done); (10, Done) ].

(** One resolver on an HTTP data source named [my_ds], which exists. *)
Definition http : value :=
  request (VObj [("Query", VObj [("getUser",
    VObj [("name", VStr "my_ds"); ("authorizationConfig", VStr "AWS_IAM");
          ("endpoint", VStr "https://example.com")])])]).

Definition my_ds : dataSourceParams :=
  {| ds_apiId := api; ds_serviceRoleArn := "arn:role"; ds_name := VStr "my_ds";
     ds_type := "HTTP";
     ds_config := httpConfig (VStr "https://example.com") VUndef VUndef VUndef |}.

Definition http_resolver : resolverParams :=
  {| r_apiId := api; r_kind := "UNIT"; r_typeName := VStr "Query";
     r_fieldName := VStr "getUser"; r_dataSourceName := "my_ds";
     r_requestMappingTemplate := VStr default_request;
     r_responseMappingTemplate := VStr default_response |}.

Definition http_run : list (nat * response) :=
  [ (0, Resolvers ["getUser"]); (1, Resolvers []); (2, DataSources ["my_ds"]);
    (3, Arn "arn:role"); (4, DataSource "arn:ds" "my_ds"); (5, Done) ].

(** One desired resolver; the API also has the resolver [Query.oldField]
    and the data source [oldDs]. *)
Definition one : value :=
  request (VObj [("Query", VObj [("getUser", VObj [("lambda", VStr "usersFn")])])]).

Definition one_run : list (nat * response) :=
  [ (0, Resolvers ["oldField"]); (1, Resolvers []); (2, DataSources ["oldDs"]);
    (3, Arn "arn:role"); (4, Done); (5, Arn "arn:fn");
    (6, DataSource "arn:ds" "usersFn"); (7, Done) ].

(** A desired state whose second entry is not an object. *)
Definition malformed : value :=
  request (VObj [("Query", VObj [("getUser", VObj [("lambda", VStr "usersFn")]);
                                 ("broken", VStr "oops")])]).

Definition malformed_run : list (nat * response) :=
  [ (0, Resolvers []); (1, Resolvers []); (2, DataSources []) ].

(** [resolvers: null] *)
Definition null : value := request VNull.

Definition null_run : list (nat * response) :=
  [ (0, Resolvers ["getUser"]); (1, Resolvers []); (2, DataSources ["usersFn"]) ].

(** [apiId] is missing. *)
Definition missing : value :=
  VObj [("roleName", VStr "role"); ("resolvers", VObj [])].

(** A spec with both a function and a table. *)
Definition both : obj :=
  [ ("lambda", VStr "usersFn"); ("table", VStr "users");
    ("apiId", VStr "api"); ("roleName", VStr "role");
    ("type", VStr "Query"); ("field", VStr "getUser") ].

(** A spec without any data-source field. *)
Definition none : obj :=
  [ ("request", VStr "A"); ("apiId", VStr "api"); ("roleName", VStr "role");
    ("type", VStr "Query"); ("field", VStr "getUser") ].

(** Specs of the other kinds; the later fields of [table] do not count. *)
Definition table : obj :=
  [ ("table", VStr "users-table"); ("endpoint", VStr "https://example.com");
    ("apiId", VStr "api"); ("roleName", VStr "role") ].

Definition http_spec : obj :=
  [ ("authorizationConfig", VStr "AWS_IAM"); ("endpoint", VStr "https://example.com");
    ("name", VStr "my_ds"); ("apiId", VStr "api"); ("roleName", VStr "role") ].

Definition search : obj :=
  [ ("endpoint", VStr "https://search.example.com"); ("name", VStr "search");
    ("apiId", VStr "api"); ("roleName", VStr "role") ].

Definition relational : obj :=
  [ ("relationalDatabaseSourceType", VStr "RDS_HTTP_ENDPOINT");
    ("database", VStr "users_db"); ("apiId", VStr "api"); ("roleName", VStr "role") ].

(** [roleName] is missing; [resolvers] is not an object. *)
Definition no_role : value :=
  VObj [("apiId", VStr "api"); ("resolvers", VObj [])].

Definition no_resolvers_object : value :=
  VObj [("apiId", VStr "api"); ("roleName", VStr "role"); ("resolvers", VStr "none")].

(** The run of [one] whose role lookup meets the schema lock; the delete
    of [Query.oldField] issued by the first attempt (call 4) is never
    answered. *)
Definition locked_run : list (nat * response) :=
  [ (0, Resolvers ["oldField"]); (1, Resolvers []); (2, DataSources ["oldDs"]);
    (3, Failed "ConcurrentModificationException" "Schema is currently being altered");
    (5, Done);
    (6, Resolvers ["oldField"]); (7, Resolvers []); (8, DataSources ["oldDs"]);
    (9, Arn "arn:role"); (10, Done); (11, Arn "arn:fn");
    (12, DataSource "arn:ds" "usersFn"); (13, Done) ].

Definition access_denied : error := ServiceError "AccessDeniedException" "denied".

End Example.


(** ** Further predicates on the functions of the module *)

(** Every character is a letter or a digit. *)
Fixpoint all_alnum (s : string) : bool :=
  match s with
  | EmptyString => true
  | String c rest => is_alnum c && all_alnum rest
  end.

(** [name || lambda || table || database], line 250. *)
Definition listed (spec : value) : value :=
  jor (jor (jor (get spec "name") (get spec "lambda")) (get spec "table"))
    (get spec "database").

(** The entries [(type, field, spec)] of a desired state, in the order of
    the two nested [for ... in] loops. *)
Definition entries (resolvers : value) : list (string * string * value) :=
  flat_map
    (fun tf => map (fun fs => (fst tf, fst fs, snd fs)) (props_of (snd tf)))
    (props_of resolvers).

(** What [listResolvers] makes of the response of the list call. *)
Definition after_listResolvers (f : list string -> tval) (r : response) : task tval :=
  match r with
  | Resolvers rs => Ret (f (fold_left add_key rs []))
  | Failed c m =>
      if c =? "NotFoundException" then Ret (f []) else Throw (ServiceError c m)
  | _ => Throw shape_error
  end.

(** What [getExistingDataSourcesNames] makes of the response. *)
Definition after_listDataSources (r : response) : task tval :=
  match r with
  | DataSources names => Ret (TNames names)
  | Failed c m => Throw (ServiceError c m)
  | _ => Throw shape_error
  end.

(** The first position the argument of [getDataSourceName] is read at, at
    line 249: destructuring [null] or [undefined] throws. *)
Definition entry_name (spec : value) : result string :=
  match spec with
  | VUndef | VNull =>
      Error (JsTypeError "Cannot destructure property 'name' of null")
  | _ => getDataSourceName (listed spec)
  end.

(** A desired state as the checks of lines 270 and 284 let it through:
    an object (or [null]) whose types are objects (or [null]). *)
Definition checked (resolvers : value) : bool :=
  (typeof resolvers =? "object")
  && forallb (fun tf => typeof (snd tf) =? "object") (props_of resolvers).

(** ** What a run can issue *)

(** [P] holds of every call a run on [params] can come to issue: the
    three calls of the snapshot, the pause, the calls of the deployment of
    each entry of the desired state, the delete of a resolver the desired
    state lacks, and the delete of a data source that
    [getDataSourcesNames] does not list. *)
Record planned (cfg : config) (params : value) (P : op -> Prop) : Prop := {
  planned_query : P (ListResolvers (apiId params) "Query");
  planned_mutation : P (ListResolvers (apiId params) "Mutation");
  planned_dataSources : P (ListDataSources (apiId params));
  planned_sleep : P (Sleep 1000);
  planned_deploy : forall type field spec,
    In (type, field, spec) (entries (resolvers params)) ->
    task_all P (fun _ => True)
      (deployAppSyncResolver cfg (spec_params params spec type field));
  planned_deleteResolver : forall type field,
    In type ["Query"; "Mutation"] -> absent params type field = Ok true ->
    P (DeleteResolver (apiId params) field type);
  planned_deleteDataSource : forall names name,
    getDataSourcesNames (resolvers params) = Ok names -> mem name names = false ->
    P (DeleteDataSource (apiId params) name)
}.

(** The calls issued so far, and those the functions in flight can still
    issue, satisfy [P]. *)
Definition issues_only (P : op -> Prop) (s : state) : Prop :=
  (forall id a o, In (Issue id a o) (trace s) -> P o)
  /\ forall c, In c (inflight s) ->
       forall r, task_all P (fun _ => True) (c_k c r).

(** All the values a task can return satisfy [R]. *)
Inductive task_returns {A : Type} (R : A -> Prop) : task A -> Prop :=
| tr_ret : forall a, R a -> task_returns R (Ret a)
| tr_throw : forall e, task_returns R (Throw e)
| tr_call : forall o k, (forall r, task_returns R (k r)) -> task_returns R (Call o k).

(** The [name] that lines 96-166 of [deployAppSyncDataSource] put into
    [dataSourceParams], when they get to the end of the chain of [if]s. *)
Definition provisioned_name (params : obj) : option value :=
  let derived (v : value) : option value :=
    match getDataSourceName v with
    | Ok n => Some (VStr n)
    | Error _ => None
    end in
  if truthy (lookup "lambda" params) then derived (lookup "lambda" params)
  else if truthy (lookup "table" params) then derived (lookup "table" params)
  else if truthy (lookup "authorizationConfig" params) then Some (lookup "name" params)
  else if truthy (lookup "endpoint" params) then Some (lookup "name" params)
  else if truthy (lookup "relationalDatabaseSourceType" params) then
    if truthy (lookup "name" params) then Some (lookup "name" params)
    else derived (lookup "database" params)
  else None.

(** The calls [deployAppSyncResolver] makes for [params]. *)
Definition deploy_call (params : obj) (o : op) : Prop :=
  match o with
  | GetRoleArn v => v = lookup "roleName" params
  | GetLambdaArn v => v = lookup "lambda" params
  | UpdateDataSource p | CreateDataSource p =>
      ds_apiId p = lookup "apiId" params
      /\ provisioned_name params = Some (ds_name p)
  | UpdateResolver p | CreateResolver p =>
      exists dataSourceName, p = resolverParams_of params dataSourceName
  | _ => False
  end.

(** Every call of a run is addressed to the API and the role of
    [params]. *)
Definition addressed (params : value) (o : op) : Prop :=
  match o with
  | ListResolvers v _ | ListDataSources v | DeleteResolver v _ _
  | DeleteDataSource v _ => v = apiId params
  | GetRoleArn v => v = roleName params
  | UpdateDataSource p | CreateDataSource p => ds_apiId p = apiId params
  | UpdateResolver p | CreateResolver p => r_apiId p = apiId params
  | GetLambdaArn _ | Sleep _ => True
  end.

(** The resolver payload written for the entry [type.field] with
    [spec]. *)
Definition writes_entry (type field : string) (spec : value) (p : resolverParams)
    : Prop :=
  r_kind p = "UNIT"
  /\ r_typeName p = VStr type /\ r_fieldName p = VStr field
  /\ r_requestMappingTemplate p = jor (get spec "request") (VStr default_request)
  /\ r_responseMappingTemplate p = jor (get spec "response") (VStr default_response).

(** For each entry, the string under which its data source is
    provisioned, if any, is the name [getDataSourcesNames] lists for the
    entry, if any. *)
Definition names_agree (params : value) : bool :=
  forallb
    (fun e =>
       match e with
       | (type, field, spec) =>
           match provisioned_name (spec_params params spec type field),
                 entry_name spec with
           | Some (VStr n), Ok n' => n =? n'
           | _, _ => true
           end
       end)
    (entries (resolvers params)).

(** ** What a run has seen *)

(** In the trace [tr], attempt [a] has received [r] for a call [o]. *)
Definition received (tr : list event) (a : nat) (o : op) (r : response) : Prop :=
  exists id, In (Issue id a o) tr /\ In (Settle id r) tr.

(** The error [e] is the rejection [r] of a call. *)
Definition failure_of (r : response) (e : error) : Prop :=
  exists c m, r = Failed c m /\ e = ServiceError c m.

Definition fulfils (r : response) : Prop := forall c m, r <> Failed c m.

(** The calls a function makes after its first one: no listing, no
    delete, no pause. *)
Definition later_op (o : op) : Prop :=
  match o with
  | GetRoleArn _ | GetLambdaArn _ | UpdateDataSource _ | CreateDataSource _
  | UpdateResolver _ | CreateResolver _ => True
  | _ => False
  end.

(** After the response [r], and after the response to each later call,
    the function throws an error the handler of the run retries on only
    when that error is the rejection it has just received. *)
Inductive relays {A : Type} : response -> task A -> Prop :=
| relays_ret : forall r a, relays r (Ret a)
| relays_throw : forall r e,
    (retryable e = true -> failure_of r e) -> relays r (Throw e)
| relays_call : forall r o k, (forall r', relays r' (k r')) -> relays r (Call o k).

(** A function that goes on with later calls only and returns nothing. *)
Definition quiet (r : response) (t : task tval) : Prop :=
  task_all later_op (fun _ => True) t
  /\ task_returns (fun v => v = TVoid) t
  /\ relays r t.

(** The response [r] of a list call gives the existing resolvers [fs]:
    it lists them, or it is the [NotFoundException] that stands for
    none. *)
Definition lists (r : response) (fs : list string) : Prop :=
  (exists fields, r = Resolvers fields /\ forall f, In f fs -> In f fields)
  \/ (exists m, r = Failed "NotFoundException" m /\ fs = []).

(** What the rest [t] of a function makes of the response [r] to its
    call [o]: a part of the snapshot comes from the matching list call
    and holds only what the response lists; the pause ends when its
    timer does, and throws only the failure of the timer; only a
    function that began with a later call goes on with calls. *)
Definition answers (params : value) (o : op) (r : response) (t : task tval) : Prop :=
  match t with
  | Ret (TQuery fs) => o = ListResolvers (apiId params) "Query" /\ lists r fs
  | Ret (TMutation fs) => o = ListResolvers (apiId params) "Mutation" /\ lists r fs
  | Ret (TNames ns) =>
      o = ListDataSources (apiId params) /\ r = DataSources ns
  | Ret TVoid => forall ms, o = Sleep ms -> fulfils r
  | Throw e =>
      (forall ms, o = Sleep ms -> failure_of r e)
      /\ (retryable e = true -> failure_of r e)
  | Call _ _ => later_op o /\ quiet r t
  end.

(** The calls other than the list calls and the pause. *)
Definition acts (o : op) : bool :=
  match o with
  | ListResolvers _ _ | ListDataSources _ | Sleep _ => false
  | _ => true
  end.

(** Attempt [a] has received its snapshot: the two lists of resolvers
    and the list of data sources. *)
Definition snapshot_done (params : value) (tr : list event) (a : nat) : Prop :=
  exists rq q rm m ns,
    received tr a (ListResolvers (apiId params) "Query") rq /\ lists rq q
    /\ received tr a (ListResolvers (apiId params) "Mutation") rm /\ lists rm m
    /\ received tr a (ListDataSources (apiId params)) (DataSources ns).

(** Attempt [a] follows the pause of the attempt before it. *)
Definition paused (older : list event) (a : nat) : Prop :=
  match a with
  | 0 => True
  | S b => exists r, received older b (Sleep 1000) r /\ fulfils r
  end.

(** The call [o] of attempt [a] against the [older] events: the list
    calls come first; every other call but the pause follows the
    snapshot of the attempt; a delete follows a list that names its
    target, received by the same attempt; a pause lasts one second and
    follows a rejection the handler retries on, received by the same
    attempt. *)
Definition op_ok (params : value) (older : list event) (a : nat) (o : op) : Prop :=
  match o with
  | ListResolvers _ _ | ListDataSources _ => True
  | DeleteResolver _ field type =>
      snapshot_done params older a
      /\ exists fields,
           received older a (ListResolvers (apiId params) type) (Resolvers fields)
           /\ In field fields
  | DeleteDataSource _ name =>
      snapshot_done params older a
      /\ exists names,
           received older a (ListDataSources (apiId params)) (DataSources names)
           /\ In name names
  | Sleep ms =>
      ms = 1000%Z
      /\ exists o' c m,
           received older a o' (Failed c m)
           /\ retryable (ServiceError c m) = true
  | _ => snapshot_done params older a
  end.

(** An error is handed to the caller when the handler does not retry on
    it, or when it is the failure of a pause. *)
Definition event_ok (params : value) (older : list event) (e : event) : Prop :=
  match e with
  | Issue _ a o => op_ok params older a o /\ paused older a
  | Raise err =>
      retryable err = false
      \/ exists a ms c m,
           received older a (Sleep ms) (Failed c m) /\ err = ServiceError c m
  | _ => True
  end.

(** [audited] reads a trace newest first. *)
Fixpoint audited (params : value) (tr : list event) : Prop :=
  match tr with
  | [] => True
  | e :: older => audited params older /\ event_ok params older e
  end.

(** The current attempt has received a response that gives [fs] (the
    fields of [type]), or the list [ns] of the data sources. *)
Definition seen_fields (params : value) (s : state) (type : string)
    (fs : list string) : Prop :=
  exists r,
    received (trace s) (attempt s) (ListResolvers (apiId params) type) r
    /\ lists r fs.

Definition seen_names (params : value) (s : state) (ns : list string) : Prop :=
  received (trace s) (attempt s) (ListDataSources (apiId params)) (DataSources ns).

Definition seen_part (params : value) (s : state) (type : string)
    (part : option (list string)) : Prop :=
  match part with
  | Some fs => seen_fields params s type fs
  | None => True
  end.

Definition seen (params : value) (s : state) : Prop :=
  match main s with
  | MSnapshot q m d =>
      seen_part params s "Query" q /\ seen_part params s "Mutation" m
      /\ match d with Some ns => seen_names params s ns | None => True end
  | MUpsert existing =>
      seen_names params s existing /\ snapshot_done params (trace s) (attempt s)
  | _ => True
  end.

(** A call in flight is in the trace, belongs to an attempt that
    followed a pause, and its function answers as [answers] says. *)
Definition in_flight_ok (params : value) (tr : list event) (c : call) : Prop :=
  In (Issue (c_id c) (c_attempt c) (c_op c)) tr
  /\ paused tr (c_attempt c)
  /\ forall r, answers params (c_op c) r (c_k c r).

(** The invariant of the reachable states. *)
Definition audit (params : value) (s : state) : Prop :=
  audited params (trace s)
  /\ paused (trace s) (attempt s)
  /\ (forall c, In c (inflight s) -> in_flight_ok params (trace s) c)
  /\ seen params s.

(** [s'] is [s] after more calls of the same attempt were issued. *)
Definition extends (params : value) (s s' : state) : Prop :=
  audit params s' /\ attempt s' = attempt s /\ main s' = main s
  /\ forall e, In e (trace s) -> In e (trace s').

(** The handler is entered in state [s] with [e]: when it retries on
    [e], the current attempt has received [e] as a rejection. *)
Definition caught (s : state) (e : error) : Prop :=
  retryable e = true ->
  exists o c m, received (trace s) (attempt s) o (Failed c m) /\ e = ServiceError c m.

(** ** What is in flight when the run returns *)

(** The function of the call [c] makes no further call. *)
Definition single_shot (c : call) : Prop :=
  forall r, match c_k c r with Call _ _ => False | _ => True end.

(** [c] is one of the three calls of the snapshot issued from
    identifier [n] on, and its part of the snapshot is still missing. *)
Definition fills (params : value) (n : nat) (q m d : option (list string))
    (c : call) : Prop :=
  single_shot c
  /\ ((c_id c = n /\ c_op c = ListResolvers (apiId params) "Query" /\ q = None)
      \/ (c_id c = S n /\ c_op c = ListResolvers (apiId params) "Mutation"
          /\ m = None)
      \/ (c_id c = S (S n) /\ c_op c = ListDataSources (apiId params)
          /\ d = None)).

(** The calls in flight have distinct identifiers, below [next_id], and
    belong to the attempts so far; a call of the trace has settled or is
    in flight. *)
Definition tidy (s : state) : Prop :=
  NoDup (map c_id (inflight s))
  /\ (forall c, In c (inflight s) -> c_id c < next_id s /\ c_attempt c <= attempt s)
  /\ (forall id a o, In (Issue id a o) (trace s) ->
        (exists r, In (Settle id r) (trace s))
        \/ exists c, In c (inflight s) /\ c_id c = id /\ c_attempt c = a).

(** The calls of the current attempt in flight are of group [ph]. *)
Definition in_phase (ph : phase) (s : state) : Prop :=
  forall c, In c (inflight s) -> c_attempt c = attempt s -> c_phase c = ph.

Definition none_current (s : state) : Prop :=
  forall c, In c (inflight s) -> c_attempt c <> attempt s.

(** What the current attempt has in flight, by the place where its body
    is suspended. *)
Definition placed (params : value) (s : state) : Prop :=
  match main s with
  | MSnapshot q m d =>
      exists n, forall c, In c (inflight s) -> c_attempt c = attempt s ->
                          fills params n q m d c
  | MUpsert _ => in_phase PUpsert s
  | MDelete => in_phase PDelete s
  | MSleep | MDone (Some _) => True
  | MDone None => none_current s
  end.

Definition discipline (params : value) (s : state) : Prop :=
  tidy s /\ placed params s /\ (In Return (trace s) -> main s = MDone None).

(** [s'] is [s] after calls of group [ph] were started by the current
    attempt. *)
Definition spawning (ph : phase) (s s' : state) : Prop :=
  tidy s' /\ attempt s' = attempt s /\ main s' = main s /\ in_phase ph s'
  /\ (In Return (trace s') -> In Return (trace s)).

(** ** What a run starts once it has its snapshot *)

(** Each [deployAppSyncResolver] begins with the lookup of the role
    (line 93), and nothing else looks the role up: the deployments a
    trace has started. *)
Definition is_role_lookup (e : event) : bool :=
  match e with
  | Issue _ _ (GetRoleArn _) => true
  | _ => false
  end.

Definition deployments (h : list event) : nat := length (filter is_role_lookup h).

Definition starts_deployment (t : task tval) : Prop :=
  exists v k, t = Call (GetRoleArn v) k.

Definition starts_other (t : task tval) : Prop :=
  match t with
  | Call (GetRoleArn _) _ => False
  | _ => True
  end.

(** ** Further concrete runs *)

Module Scenario.

(** A spec that carries an [apiId] and a [roleName] of its own; the API
    has the resolver [Query.oldField] and the data sources [oldDs] and
    [usersFn]. *)
Definition redirect : value :=
  Example.request (VObj [("Query", VObj [("getUser",
    VObj [("lambda", VStr "usersFn"); ("apiId", VStr "other");
          ("roleName", VStr "otherRole"); ("response", VStr "B")])])]).

Definition redirect_resolver : resolverParams :=
  {| r_apiId := Example.api; r_kind := "UNIT"; r_typeName := VStr "Query";
     r_fieldName := VStr "getUser"; r_dataSourceName := "usersFn";
     r_requestMappingTemplate := VStr default_request;
     r_responseMappingTemplate := VStr "B" |}.

Definition redirect_run : list (nat * response) :=
  [ (0, Resolvers ["oldField"]); (1, Resolvers []);
    (2, DataSources ["oldDs"; "usersFn"]);
    (3, Arn "arn:role"); (5, Arn "arn:fn");
    (6, DataSource "arn:ds" "usersFn"); (7, Done); (4, Done) ].

End Scenario.

(** * [deployCertificate.js] *)

(** The second file of the package requests a certificate for a domain
    and has it validated through DNS.  Its calls are awaited one after
    the other, so a run is the function itself applied to the answers of
    the environment, in order.  The [log] callback of [params] is not
    modelled; [getNakedDomain] and [getDomainHostedZoneId] live in other
    files: the first is a function given to the model, the second is one
    call. *)
Module Certificate.

Inductive request : Type :=
| GetDomainHostedZoneId (params : value)
| ListCertificates
| RequestCertificate (DomainName : string) (SubjectAlternativeNames : list string)
    (ValidationMethod : string)
| DescribeCertificate (CertificateArn : value)
| Pause (ms : Z)
| ChangeResourceRecordSets (HostedZoneId : value) (Action : string)
    (RecordName RecordType : value) (TTL : Z) (RecordValue : value).

Record resourceRecord : Type := {
  rr_Name : value;
  rr_Type : value;
  rr_Value : value
}.

(** [ResourceRecord] is an object, or is missing. *)
Record validationOption : Type := {
  vo_DomainName : value;
  vo_ResourceRecord : option resourceRecord
}.

(** [DomainValidationOptions] is an array, or is missing. *)
Record certificate : Type := {
  Status : value;
  DomainValidationOptions : option (list validationOption)
}.

Record summary : Type := {
  s_DomainName : value;
  s_CertificateArn : value
}.

(** What a call settles with: a rejection, or the part of the fulfilled
    value that the module reads. *)
Inductive answer : Type :=
| Rejected (code message : string)
| HostedZone (domainHostedZoneId : value)
| Summaries (CertificateSummaryList : list summary)
| Requested (CertificateArn : value)
| Described (Certificate : option certificate)
| Fulfilled.

(** An [async] function against the answers still to come: the calls it
    issues, and whether it waits for an answer, has returned (leaving
    the answers it did not consume) or has thrown. *)
Inductive outcome (A : Type) : Type :=
| Waiting
| Returned (a : A) (rest : list answer)
| Thrown (e : error).
Arguments Waiting {A}.
Arguments Thrown {A} e.

Definition proc (A : Type) : Type := list answer -> list request * outcome A.

Definition ret {A : Type} (a : A) : proc A := fun rs => ([], Returned a rs).

Definition throw {A : Type} (e : error) : proc A := fun _ => ([], Thrown e).

Definition then_do {A B : Type} (p : proc A) (f : A -> proc B) : proc B :=
  fun rs =>
    match p rs with
    | (ops, Returned a rest) => let (ops', out) := f a rest in (ops ++ ops', out)
    | (ops, Waiting) => (ops, Waiting)
    | (ops, Thrown e) => (ops, Thrown e)
    end.

(** [await client.operation(...).promise()] *)
Definition call (o : request) : proc answer :=
  fun rs =>
    match rs with
    | [] => ([o], Waiting)
    | Rejected c m :: _ => ([o], Thrown (ServiceError c m))
    | r :: rest => ([o], Returned r rest)
    end.

(** [v === s] for a string [s]. *)
Definition same (v : value) (s : string) : bool :=
  match v with
  | VStr s' => s' =? s
  | _ => false
  end.

(** [getCertificateArnByDomain], lines 5-9. *)
Definition getCertificateArnByDomain (nakedDomain : string) : proc value :=
  then_do (call ListCertificates) (fun listRes =>
    match listRes with
    | Summaries l =>
        match find (fun cert => same (s_DomainName cert) nakedDomain) l with
        | Some certificate =>
            ret (if truthy (s_CertificateArn certificate)
                 then s_CertificateArn certificate else VNull)
        | None => ret VNull
        end
    | _ => throw shape_error
    end).

(** [getCertificateValidationRecord], lines 11-20: [None] is a falsy
    result ([null], or a missing [ResourceRecord]). *)
Definition getCertificateValidationRecord (c : certificate) (domain : string)
    : result (option resourceRecord) :=
  match DomainValidationOptions c with
  | None => Ok None
  | Some options =>
      match find (fun option => same (vo_DomainName option) domain) options with
      | Some domainValidationOption => Ok (vo_ResourceRecord domainValidationOption)
      | None =>
          Error (JsTypeError
                   "Cannot read properties of undefined (reading 'ResourceRecord')")
      end
  end.

Definition no_certificate : error :=
  JsTypeError "Cannot read properties of null (reading 'Status')".

(** [describeCertificateByArn], lines 22-35: the function calls itself
    after each pause, so it is defined on the answers. *)
Fixpoint describeCertificateByArn (certificateArn : value) (nakedDomain : string)
    (rs : list answer) : list request * outcome certificate :=
  let describe := DescribeCertificate certificateArn in
  match rs with
  | [] => ([describe], Waiting)
  | Rejected c m :: _ => ([describe], Thrown (ServiceError c m))
  | Described (Some c) :: rest =>
      if same (Status c) "PENDING_VALIDATION" then
        match getCertificateValidationRecord c nakedDomain with
        | Error e => ([describe], Thrown e)
        | Ok (Some _) => ([describe], Returned c rest)
        | Ok None =>
            match rest with
            | [] => ([describe; Pause 1000], Waiting)
            | Rejected c' m' :: _ =>
                ([describe; Pause 1000], Thrown (ServiceError c' m'))
            | _ :: rest' =>
                let (ops, out) :=
                  describeCertificateByArn certificateArn nakedDomain rest' in
                (describe :: Pause 1000 :: ops, out)
            end
        end
      else ([describe], Returned c rest)
  | _ :: _ => ([describe], Thrown no_certificate)
  end.

(** The object the module returns. *)
Record deployed : Type := {
  domainHostedZoneId : value;
  certificateArn : value;
  certificateStatus : value
}.

Definition no_record : error :=
  JsTypeError "Cannot read properties of null (reading 'Name')".

(** Lines 65-107: the validation of a pending certificate. *)
Definition validate (zone : value) (c : certificate) (nakedDomain : string)
    : proc unit :=
  if same (Status c) "PENDING_VALIDATION" then
    match getCertificateValidationRecord c nakedDomain with
    | Error e => throw e
    | Ok None => throw no_record
    | Ok (Some certificateValidationRecord) =>
        if truthy zone then
          then_do
            (call (ChangeResourceRecordSets zone "UPSERT"
                     (rr_Name certificateValidationRecord)
                     (rr_Type certificateValidationRecord) 300
                     (rr_Value certificateValidationRecord)))
            (fun _ => ret tt)
        else ret tt
    end
  else ret tt.

(** The exported function, lines 37-114. *)
Definition deployCertificate (getNakedDomain : value -> string) (params : value)
    : proc deployed :=
  let nakedDomain := getNakedDomain (get params "domain") in
  let wildcardSubDomain := ("*." ++ nakedDomain)%string in
  then_do (call (GetDomainHostedZoneId params)) (fun zoneRes =>
    let zone := match zoneRes with HostedZone id => id | _ => VUndef end in
    then_do (getCertificateArnByDomain nakedDomain) (fun found =>
      then_do
        (if negb (truthy found) then
           then_do
             (call (RequestCertificate nakedDomain [nakedDomain; wildcardSubDomain]
                      "DNS"))
             (fun r => ret match r with Requested arn => arn | _ => VUndef end)
         else ret found)
        (fun arn =>
           then_do (describeCertificateByArn arn nakedDomain) (fun c =>
             then_do (validate zone c nakedDomain) (fun _ =>
               ret {| domainHostedZoneId := zone;
                      certificateArn := arn;
                      certificateStatus := Status c |}))))).

(** The polling calls: one description, then a pause and a description
    per round. *)
Fixpoint rounds (certificateArn : value) (n : nat) : list request :=
  match n with
  | 0 => []
  | S k => Pause 1000 :: DescribeCertificate certificateArn :: rounds certificateArn k
  end.

(** [n] rounds of answers in which the certificate [c] is described and
    the pause ends. *)
Fixpoint still_pending (c : certificate) (n : nat) : list answer :=
  match n with
  | 0 => []
  | S k => Described (Some c) :: Fulfilled :: still_pending c k
  end.

(** The ARN of the first certificate of the list [l] for [domain], as
    line 8 reads it. *)
Definition arn_of (l : list summary) (domain : string) : value :=
  match find (fun cert => same (s_DomainName cert) domain) l with
  | Some certificate =>
      if truthy (s_CertificateArn certificate)
      then s_CertificateArn certificate else VNull
  | None => VNull
  end.

(** A certificate that [describeCertificateByArn] hands back: it is not
    pending, or it has the record that validates [domain]. *)
Definition usable (c : certificate) (domain : string) : Prop :=
  same (Status c) "PENDING_VALIDATION" = false
  \/ exists record, getCertificateValidationRecord c domain = Ok (Some record).

(** *** Concrete answers *)

(** [getNakedDomain] on a domain that is naked already. *)
Definition naked (domain : value) : string :=
  match domain with
  | VStr s => s
  | _ => ""
  end.

Definition example_params : value := VObj [("domain", VStr "example.com")].

Definition example_record : resourceRecord :=
  {| rr_Name := VStr "_x.example.com."; rr_Type := VStr "CNAME";
     rr_Value := VStr "_y.acm-validations.aws." |}.

(** A certificate that was just requested: its validation options are
    not there yet. *)
Definition requested : certificate :=
  {| Status := VStr "PENDING_VALIDATION"; DomainValidationOptions := None |}.

Definition pending : certificate :=
  {| Status := VStr "PENDING_VALIDATION";
     DomainValidationOptions :=
       Some [ {| vo_DomainName := VStr "example.com";
                 vo_ResourceRecord := Some example_record |} ] |}.

(** The first certificate of the domain has no ARN. *)
Definition shadowed : list summary :=
  [ {| s_DomainName := VStr "other.org"; s_CertificateArn := VStr "arn:other" |};
    {| s_DomainName := VStr "example.com"; s_CertificateArn := VUndef |};
    {| s_DomainName := VStr "example.com"; s_CertificateArn := VStr "arn:cert" |} ].

(** No certificate yet: one is requested, described twice, validated. *)
Definition first_deployment : list answer :=
  [ HostedZone (VStr "Z1"); Summaries []; Requested (VStr "arn:new");
    Described (Some requested); Fulfilled; Described (Some pending); Fulfilled ].

End Certificate.
(** ** Lemmas on tasks *)

Unset Implicit Arguments.

Lemma task_all_bind {A B : Type} (P : op -> Prop) (Q : error -> Prop)
    (t : task A) (f : A -> task B) :
  task_all P Q t -> (forall a, task_all P Q (f a)) -> task_all P Q (bind t f).
Proof.
  intros Ht Hf. induction Ht as [a | e He | o k Ho _ IH]; simpl.
  - apply Hf.
  - now constructor.
  - constructor; [exact Ho | exact IH].
Qed.

Lemma task_all_try_catch {A : Type} (P : op -> Prop) (Q : error -> Prop)
    (t : task A) (h : error -> task A) :
  task_all P Q t -> (forall e, Q e -> task_all P Q (h e)) ->
  task_all P Q (try_catch t h).
Proof.
  intros Ht Hh. induction Ht as [a | e He | o k Ho _ IH]; simpl.
  - constructor.
  - now apply Hh.
  - constructor; [exact Ho | exact IH].
Qed.

Lemma task_all_await {A : Type} (P : op -> Prop) (Q : error -> Prop) (o : op)
    (f : response -> task A) :
  P o -> (forall c m, Q (ServiceError c m)) ->
  (forall r, task_all P Q (f r)) ->
  task_all P Q (bind (await o) f).
Proof.
  intros Ho HQ Hf. unfold await. simpl. constructor; [exact Ho |].
  intros r. destruct r; simpl; try apply Hf. constructor. apply HQ.
Qed.

(** A task that fails after [rs] fails the same way inside a larger one. *)
Lemma run_bind_error {A B : Type} (t : task A) (f : A -> task B) :
  forall rs ops e,
    run t rs = (ops, Some (Error e)) -> run (bind t f) rs = (ops, Some (Error e)).
Proof.
  induction t as [a | e0 | o k IH]; intros rs ops e H; simpl in *.
  - discriminate.
  - inversion H; subst; reflexivity.
  - destruct rs as [| r rest]; [discriminate |].
    destruct (run (k r) rest) as [ops' out] eqn:E.
    inversion H; subst. now rewrite (IH r rest ops' e E).
Qed.

(** A task that returns after exactly [rs] continues with the rest of the
    responses inside a larger one. *)
Lemma run_bind_ok {A B : Type} (t : task A) (f : A -> task B) :
  forall rs ops a rs',
    run t rs = (ops, Some (Ok a)) -> length ops = length rs ->
    run (bind t f) (rs ++ rs') = (ops ++ fst (run (f a) rs'), snd (run (f a) rs')).
Proof.
  induction t as [a0 | e0 | o k IH]; intros rs ops a rs' H Hlen; simpl in *.
  - inversion H; subst. destruct rs; [| discriminate]. simpl.
    now destruct (run (f a) rs').
  - discriminate.
  - destruct rs as [| r rest]; [discriminate |].
    destruct (run (k r) rest) as [ops' out] eqn:E.
    inversion H; subst. simpl in Hlen. injection Hlen as Hlen.
    simpl. rewrite (IH r rest ops' a rs' E Hlen). reflexivity.
Qed.

(** C7. Provisioning a data source first attempts [updateDataSource]; on
    [NotFoundException] it falls back to [createDataSource]; when that
    create fails with [BadRequestException] and a message reporting that
    the data source with that name exists, it calls [updateDataSource] once
    more, whose outcome is final; any other error of either call is thrown
    by [deployAppSyncDataSource], and through it by [deployAppSyncResolver],
    the promise the run awaits, without any resolver call. *)
Theorem upsertDataSource_fallbacks (p : dataSourceParams) :
  let U := UpdateDataSource p in
  let C := CreateDataSource p in
  let nf := "NotFoundException" in
  let br := "BadRequestException" in
  run (upsertDataSource p) [] = ([U], None)
  /\ (forall arn n,
        run (upsertDataSource p) [DataSource arn n] = ([U], Some (Ok (arn, n))))
  /\ (forall m, run (upsertDataSource p) [Failed nf m] = ([U; C], None))
  /\ (forall m arn n,
        run (upsertDataSource p) [Failed nf m; DataSource arn n]
        = ([U; C], Some (Ok (arn, n))))
  /\ (forall m m',
        includes "Data source with name" m' = true ->
        run (upsertDataSource p) [Failed nf m; Failed br m'] = ([U; C; U], None)
        /\ (forall arn n,
              run (upsertDataSource p) [Failed nf m; Failed br m'; DataSource arn n]
              = ([U; C; U], Some (Ok (arn, n))))
        /\ (forall c m'',
              run (upsertDataSource p) [Failed nf m; Failed br m'; Failed c m'']
              = ([U; C; U], Some (Error (ServiceError c m'')))))
  /\ (forall c m,
        c <> nf ->
        run (upsertDataSource p) [Failed c m] = ([U], Some (Error (ServiceError c m))))
  /\ (forall m c m',
        (c = br -> includes "Data source with name" m' = false) ->
        run (upsertDataSource p) [Failed nf m; Failed c m']
        = ([U; C], Some (Error (ServiceError c m'))))
  /\ (forall cfg params rs0 ops0 rs ops e,
        run (buildDataSourceParams cfg params) rs0 = (ops0, Some (Ok p)) ->
        length ops0 = length rs0 ->
        run (upsertDataSource p) rs = (ops, Some (Error e)) ->
        run (deployAppSyncDataSource cfg params) (rs0 ++ rs)
        = (ops0 ++ ops, Some (Error e))
        /\ run (deployAppSyncResolver cfg params) (rs0 ++ rs)
           = (ops0 ++ ops, Some (Error e))).
Proof.
  intros U C nf br. subst U C nf br.
  repeat apply conj; try reflexivity.
  - intros m m' Hm. simpl. rewrite Hm. repeat apply conj; reflexivity.
  - intros c m Hc. simpl.
    destruct (String.eqb_spec c "NotFoundException") as [-> | _]; [contradiction |].
    reflexivity.
  - intros m c m' Hc. simpl.
    destruct (String.eqb_spec c "BadRequestException") as [-> | _].
    + rewrite (Hc eq_refl). reflexivity.
    + reflexivity.
  - intros cfg params rs0 ops0 rs ops e Hb Hlen He.
    assert (Hds : run (deployAppSyncDataSource cfg params) (rs0 ++ rs)
                  = (ops0 ++ ops, Some (Error e))).
    { unfold deployAppSyncDataSource.
      rewrite run_bind_ok with (ops := ops0) (a := p) by assumption.
      rewrite He. reflexivity. }
    split; [exact Hds |].
    unfold deployAppSyncResolver. apply run_bind_error. exact Hds.
Qed.

Lemma run_task_all {A : Type} (P : op -> Prop) (Q : error -> Prop) (t : task A) :
  task_all P Q t -> forall rs, Forall P (fst (run t rs)).
Proof.
  induction 1 as [a | e He | o k Ho _ IH]; intros rs; simpl; try constructor.
  destruct rs as [| r rest]; simpl.
  - constructor; [exact Ho | constructor].
  - specialize (IH r rest). destruct (run (k r) rest) as [ops out]. simpl in *.
    constructor; assumption.
Qed.

Lemma listResolvers_reads_only (apiId : value) (typeName : string) :
  task_all reads_only (fun _ => True) (listResolvers apiId typeName).
Proof.
  unfold listResolvers. apply task_all_try_catch.
  - apply task_all_await; [reflexivity | trivial |].
    intros r. destruct r; now constructor.
  - intros e _. destruct (code_is e "NotFoundException"); now constructor.
Qed.

Lemma getExistingDataSourcesNames_reads_only (apiId : value) :
  task_all reads_only (fun _ => True) (getExistingDataSourcesNames apiId).
Proof.
  unfold getExistingDataSourcesNames.
  apply task_all_await; [reflexivity | trivial |].
  intros r. destruct r; now constructor.
Qed.

(** C9. [listResolvers] turns a [NotFoundException] of the remote list call
    into the empty mapping and rethrows every other error; it and
    [getExistingDataSourcesNames], the two functions that fetch the
    existing state, issue no mutating call, whatever they are answered. *)
Theorem listResolvers_not_found_is_empty (apiId : value) (typeName : string) :
  (forall m,
      run (listResolvers apiId typeName) [Failed "NotFoundException" m]
      = ([ListResolvers apiId typeName], Some (Ok [])))
  /\ (forall c m,
        c <> "NotFoundException" ->
        run (listResolvers apiId typeName) [Failed c m]
        = ([ListResolvers apiId typeName], Some (Error (ServiceError c m))))
  /\ (forall fieldNames,
        run (listResolvers apiId typeName) [Resolvers fieldNames]
        = ([ListResolvers apiId typeName], Some (Ok (fold_left add_key fieldNames []))))
  /\ (forall rs, Forall reads_only (fst (run (listResolvers apiId typeName) rs)))
  /\ (forall rs, Forall reads_only (fst (run (getExistingDataSourcesNames apiId) rs))).
Proof.
  repeat apply conj; try reflexivity.
  - intros c m Hc. simpl.
    destruct (String.eqb_spec c "NotFoundException") as [-> | _]; [contradiction |].
    reflexivity.
  - apply run_task_all with (Q := fun _ => True). apply listResolvers_reads_only.
  - apply run_task_all with (Q := fun _ => True).
    apply getExistingDataSourcesNames_reads_only.
Qed.

(** C5. [deployAppSyncDataSource] chooses the kind of the data source by
    testing the fields of the spec in the order [lambda], [table],
    [authorizationConfig], [endpoint], [relationalDatabaseSourceType]:
    the first one set decides the [type] of the payload sent to
    [updateDataSource], whatever the later ones are; when none is set, it
    throws the error whose message names [type.field], and no data-source
    call is issued. *)
Theorem dataSource_kind_priority (cfg : config) (params : obj) (role : string) :
  let set k := truthy (lookup k params) in
  let R := GetRoleArn (lookup "roleName" params) in
  let deploy := run (deployAppSyncDataSource cfg params) in
  (set "lambda" = true ->
   forall n larn,
     getDataSourceName (lookup "lambda" params) = Ok n ->
     exists p,
       deploy [Arn role; Arn larn]
       = ([R; GetLambdaArn (lookup "lambda" params); UpdateDataSource p], None)
       /\ ds_type p = "AWS_LAMBDA" /\ ds_name p = VStr n
       /\ ds_config p = lambdaConfig larn)
  /\ (set "lambda" = false -> set "table" = true ->
      forall n,
        getDataSourceName (lookup "table" params) = Ok n ->
        exists p,
          deploy [Arn role] = ([R; UpdateDataSource p], None)
          /\ ds_type p = "AMAZON_DYNAMODB" /\ ds_name p = VStr n)
  /\ (set "lambda" = false -> set "table" = false ->
      set "authorizationConfig" = true ->
      exists p,
        deploy [Arn role] = ([R; UpdateDataSource p], None)
        /\ ds_type p = "HTTP" /\ ds_name p = lookup "name" params)
  /\ (set "lambda" = false -> set "table" = false ->
      set "authorizationConfig" = false -> set "endpoint" = true ->
      exists p,
        deploy [Arn role] = ([R; UpdateDataSource p], None)
        /\ ds_type p = "AMAZON_ELASTICSEARCH" /\ ds_name p = lookup "name" params)
  /\ (set "lambda" = false -> set "table" = false ->
      set "authorizationConfig" = false -> set "endpoint" = false ->
      set "relationalDatabaseSourceType" = true ->
      forall name,
        (if set "name" then name = lookup "name" params
         else exists n, getDataSourceName (lookup "database" params) = Ok n
                        /\ name = VStr n) ->
        exists p,
          deploy [Arn role] = ([R; UpdateDataSource p], None)
          /\ ds_type p = "RELATIONAL_DATABASE" /\ ds_name p = name)
  /\ (set "lambda" = false -> set "table" = false ->
      set "authorizationConfig" = false -> set "endpoint" = false ->
      set "relationalDatabaseSourceType" = false ->
      deploy [Arn role]
      = ([R], Some (Error (JsError (msg_no_data_source params))))
      /\ forall type field,
           lookup "type" params = VStr type -> lookup "field" params = VStr field ->
           msg_no_data_source params
           = ("Please specify a data source for resolver " ++ dq ++ type ++ "."
              ++ field ++ dq)%string).
Proof.
  intros set R deploy. subst set R deploy.
  unfold deployAppSyncDataSource, buildDataSourceParams.
  repeat apply conj.
  - intros H n larn Hn. eexists. simpl. rewrite H, Hn. simpl.
    repeat apply conj; reflexivity.
  - intros H1 H2 n Hn. eexists. simpl. rewrite H1, H2, Hn. simpl.
    repeat apply conj; reflexivity.
  - intros H1 H2 H3. eexists. simpl. rewrite H1, H2, H3. simpl.
    repeat apply conj; reflexivity.
  - intros H1 H2 H3 H4. eexists. simpl. rewrite H1, H2, H3, H4. simpl.
    repeat apply conj; reflexivity.
  - intros H1 H2 H3 H4 H5 name Hname. simpl. rewrite H1, H2, H3, H4, H5.
    destruct (truthy (lookup "name" params)) eqn:E.
    + subst name. eexists. simpl. repeat apply conj; reflexivity.
    + destruct Hname as [n [Hn ->]]. eexists. rewrite Hn. simpl.
      repeat apply conj; reflexivity.
  - intros H1 H2 H3 H4 H5. simpl. rewrite H1, H2, H3, H4, H5. simpl.
    split; [reflexivity |].
    intros type field Ht Hf. unfold msg_no_data_source. rewrite Ht, Hf.
    reflexivity.
Qed.

(** ** The functions started by the run stay in their group *)

Lemma not_validation_service (c m : string) : ~ validation_error (ServiceError c m).
Proof. intros H. inversion H. Qed.

Lemma not_validation_type (m : string) : ~ validation_error (JsTypeError m).
Proof. intros H. inversion H. Qed.

Lemma not_validation_no_data_source (p : obj) :
  ~ validation_error (JsError (msg_no_data_source p)).
Proof.
  intros H. inversion H as [E | E | E | t E | t f E];
    unfold msg_no_data_source, msg_apiId, msg_roleName, msg_resolvers,
      msg_type, msg_field, dq in E; simpl in E; discriminate E.
Qed.

Lemma in_upsert_intro (o : op) : op_phase o = PUpsert -> in_upsert o.
Proof. intros H. split; [exact H | discriminate]. Qed.

Lemma lift_name_ok {A : Type} (P : op -> Prop) (v : value) (f : string -> task A) :
  (forall n, task_all P not_validation (f n)) ->
  task_all P not_validation (bind (lift (getDataSourceName v)) f).
Proof.
  intros Hf. destruct v; simpl; try apply Hf;
    constructor; apply not_validation_type.
Qed.

Lemma read_arn_ok {A : Type} (P : op -> Prop) (r : response) (f : string -> task A) :
  (forall a, task_all P not_validation (f a)) ->
  task_all P not_validation (bind (read_arn r) f).
Proof.
  intros Hf. destruct r; simpl; try apply Hf;
    constructor; apply not_validation_type.
Qed.

Lemma read_dataSource_ok (P : op -> Prop) (r : response) :
  task_all P not_validation (read_dataSource r).
Proof.
  destruct r; simpl; constructor; apply not_validation_type.
Qed.

Lemma await_ok {A : Type} (P : op -> Prop) (o : op) (f : response -> task A) :
  P o -> (forall r, task_all P not_validation (f r)) ->
  task_all P not_validation (bind (await o) f).
Proof.
  intros Ho Hf. apply task_all_await; auto. intros c m.
  apply not_validation_service.
Qed.

Lemma await_alone_ok (P : op -> Prop) (o : op) :
  P o -> task_all P not_validation (await o).
Proof.
  intros Ho. unfold await. constructor; [exact Ho |].
  intros r. destruct r; constructor. apply not_validation_service.
Qed.

Lemma upsertDataSource_ok (p : dataSourceParams) :
  task_all in_upsert not_validation (upsertDataSource p).
Proof.
  unfold upsertDataSource.
  apply task_all_try_catch.
  - apply await_ok; [now apply in_upsert_intro |].
    intros r. apply read_dataSource_ok.
  - intros e He. destruct (code_is e "NotFoundException"); [| now constructor].
    apply task_all_try_catch.
    + apply await_ok; [now apply in_upsert_intro |].
      intros r. apply read_dataSource_ok.
    + intros e' He'.
      destruct (code_is e' "BadRequestException"
                && includes "Data source with name" (message e')); [| now constructor].
      apply await_ok; [now apply in_upsert_intro |].
      intros r. apply read_dataSource_ok.
Qed.

Lemma buildDataSourceParams_ok (cfg : config) (params : obj) :
  task_all in_upsert not_validation (buildDataSourceParams cfg params).
Proof.
  unfold buildDataSourceParams.
  apply await_ok; [now apply in_upsert_intro |]. intros role.
  apply read_arn_ok. intros arn.
  destruct (truthy (lookup "lambda" params)).
  { apply lift_name_ok. intros n.
    apply await_ok; [now apply in_upsert_intro |]. intros r.
    apply read_arn_ok. intros a. constructor. }
  destruct (truthy (lookup "table" params)).
  { apply lift_name_ok. intros n. constructor. }
  destruct (truthy (lookup "authorizationConfig" params)); [constructor |].
  destruct (truthy (lookup "endpoint" params)); [constructor |].
  destruct (truthy (lookup "relationalDatabaseSourceType" params)).
  { apply task_all_bind; [| intros a; constructor].
    destruct (truthy (lookup "name" params)); [constructor |].
    apply lift_name_ok. intros n. constructor. }
  constructor. apply not_validation_no_data_source.
Qed.

Lemma resolver_call_ok (o : op) :
  in_upsert o ->
  task_all in_upsert not_validation
    (try_catch (await o)
       (fun e =>
          if code_is e "NotFoundException" && includes "Type" (message e)
             && includes "not found" (message e)
          then Throw e else Throw e)).
Proof.
  intros Ho. apply task_all_try_catch.
  - now apply await_alone_ok.
  - intros e He.
    destruct (code_is e "NotFoundException" && includes "Type" (message e)
              && includes "not found" (message e)); now constructor.
Qed.

Lemma deployAppSyncResolver_ok (cfg : config) (params : obj) :
  task_all in_upsert not_validation (deployAppSyncResolver cfg params).
Proof.
  unfold deployAppSyncResolver, deployAppSyncDataSource.
  apply task_all_bind.
  - apply task_all_bind; [apply buildDataSourceParams_ok |].
    intros p. apply upsertDataSource_ok.
  - intros ds. apply task_all_try_catch.
    + apply resolver_call_ok. now apply in_upsert_intro.
    + intros e He.
      destruct (code_is e "NotFoundException"
                && includes "No resolver found" (message e)); [| now constructor].
      apply resolver_call_ok. now apply in_upsert_intro.
Qed.

(** Every resolver the run starts begins with the role lookup. *)
Lemma deployAppSyncResolver_head (cfg : config) (params : obj) (f : response -> tval) :
  exists k,
    then_ (deployAppSyncResolver cfg params) f
    = Call (GetRoleArn (lookup "roleName" params)) k
    /\ forall r, task_ok PUpsert (k r).
Proof.
  pose proof (deployAppSyncResolver_ok cfg params) as H.
  assert (Hthen : task_all in_upsert not_validation
                    (then_ (deployAppSyncResolver cfg params) f)).
  { unfold then_. apply task_all_bind; [exact H | intros a; constructor]. }
  unfold then_, deployAppSyncResolver, deployAppSyncDataSource,
    buildDataSourceParams, await in *.
  simpl in *. eexists. split; [reflexivity |].
  intros r. inversion Hthen as [| | o k Ho Hk]; subst. apply Hk.
Qed.

Lemma single_call_spawnable (o : op) (ph : phase) :
  op_phase o = ph ->
  spawnable ph (then_ (await o) (fun _ => TVoid)).
Proof.
  intros Hph. unfold then_, await. simpl. eexists _, _.
  split; [reflexivity |]. split; [exact Hph |].
  intros r. destruct r; simpl; constructor. apply not_validation_service.
Qed.

Lemma sleep_spawnable (ms : Z) : spawnable PSleep (sleep ms).
Proof. now apply single_call_spawnable. Qed.

Lemma deleteResolver_spawnable (a : value) (f t : string) :
  spawnable PUpsert (deleteResolver a f t).
Proof. now apply single_call_spawnable. Qed.

Lemma deleteDataSource_spawnable (a : value) (n : string) :
  spawnable PDelete (deleteDataSource a n).
Proof. now apply single_call_spawnable. Qed.

Lemma listResolvers_spawnable (a : value) (t : string) (f : list string -> tval) :
  spawnable PSnapshot (then_ (listResolvers a t) f).
Proof.
  unfold then_, listResolvers, await. simpl. eexists _, _.
  split; [reflexivity |]. split; [reflexivity |].
  intros r. destruct r as [c m | | | | |]; simpl;
    try (constructor; apply not_validation_type); try constructor.
  destruct (c =? "NotFoundException"); simpl; constructor.
  apply not_validation_service.
Qed.

Lemma getExistingDataSourcesNames_spawnable (a : value) :
  spawnable PSnapshot (then_ (getExistingDataSourcesNames a) TNames).
Proof.
  unfold then_, getExistingDataSourcesNames, await. simpl. eexists _, _.
  split; [reflexivity |]. split; [reflexivity |].
  intros r. destruct r; simpl; constructor;
    try apply not_validation_type; apply not_validation_service.
Qed.

Lemma deployAppSyncResolver_spawnable (cfg : config) (params : obj) :
  spawnable PUpsert (then_ (deployAppSyncResolver cfg params) (fun _ => TVoid)).
Proof.
  destruct (deployAppSyncResolver_head cfg params (fun _ => TVoid)) as [k [E Hk]].
  exists (GetRoleArn (lookup "roleName" params)), k. now rewrite E.
Qed.

(** ** The invariant is kept by the primitive transitions *)

Lemma settled_cons (e : event) (tr : list event) (id : nat) :
  settled tr id -> settled (e :: tr) id.
Proof. intros [r H]. exists r. now right. Qed.

Lemma no_delete_yet_cons (a : nat) (e : event) (tr : list event) :
  no_delete_yet a tr ->
  (forall id o, e = Issue id a o -> op_phase o <> PDelete) ->
  no_delete_yet a (e :: tr).
Proof.
  intros Htr He id o [E | Hin]; [now apply (He id) | now apply (Htr id)].
Qed.

Lemma take_spec (id : nat) (l : list call) :
  forall c rest,
    take id l = Some (c, rest) ->
    c_id c = id /\ In c l /\ (forall x, In x rest -> In x l)
    /\ (forall x, In x l -> x = c \/ In x rest).
Proof.
  induction l as [| c0 l IH]; intros c rest H; simpl in H; [discriminate |].
  destruct (Nat.eqb_spec (c_id c0) id) as [E | E].
  - inversion H; subst. repeat split; auto.
    + now left.
    + intros x Hx. now right.
    + intros x [-> | Hx]; auto.
  - destruct (take id l) as [[c' rest'] |] eqn:T; [| discriminate].
    inversion H; subst. destruct (IH c rest' eq_refl) as [Hid [Hin [Hsub Hcov]]].
    repeat split; auto.
    + now right.
    + intros x [-> | Hx]; [now left | right; now apply Hsub].
    + intros x [-> | Hx]; [right; now left |].
      destruct (Hcov x Hx) as [-> | Hr]; [now left | right; now right].
Qed.

Lemma core_settle (s : state) (id : nat) (r : response) (cl : call) (rest : list call) :
  core s -> take id (inflight s) = Some (cl, rest) ->
  core (settle_state s id r rest).
Proof.
  intros [Hord Hids Hb Hatt Hcalls Htr Hr] Htake.
  destruct (take_spec _ _ _ _ Htake) as [Hid [Hin [Hsub Hcov]]].
  constructor; simpl.
  - now split.
  - exact Hids.
  - intros i a o [E | H]; [discriminate | now apply (Hb i a o)].
  - intros i a o [E | H]; [discriminate | now apply (Hatt i a o)].
  - intros c Hc. destruct (Hcalls c (Hsub c Hc)) as [H1 [H2 [H3 H4]]].
    repeat split; auto. intros Hph. apply no_delete_yet_cons; [now apply H4 |].
    intros i o E. discriminate.
  - intros i a o [E | H] Hph; [discriminate |].
    destruct (Htr i a o H Hph) as [Hs | [c [Hc [Hcid [Hca Hcp]]]]].
    + left. now apply settled_cons.
    + destruct (Hcov c Hc) as [-> | Hrest].
      * left. exists r. left. now rewrite <- Hcid, Hid.
      * right. exists c. auto.
  - now split.
Qed.

Lemma core_issue (s : state) (a : nat) (ph : phase) (o : op)
    (k : response -> task tval) :
  core s -> a <= attempt s -> op_phase o = ph ->
  (forall r, task_ok ph (k r)) ->
  (ph = PUpsert -> no_delete_yet a (trace s)) ->
  (ph = PDelete ->
   upserts_settled a (trace s)
   /\ forall c, In c (inflight s) -> c_attempt c = a -> c_phase c <> PUpsert) ->
  core (issue a ph o k s).
Proof.
  intros [Hord Hids Hb Hatt Hcalls Htr Hr] Ha Hph Hk Hup Hdel.
  constructor; simpl.
  - split; [exact Hord |]. split.
    + intros E. apply Hdel. congruence.
    + intros E. apply Hup. congruence.
  - split; [exact Hb | exact Hids].
  - intros i a' o' [E | H]; [inversion E; lia |].
    specialize (Hb i a' o' H). lia.
  - intros i a' o' [E | H]; [inversion E; subst; exact Ha | now apply (Hatt i a' o')].
  - intros c Hc. apply in_app_or in Hc. destruct Hc as [Hc | [<- | []]].
    + destruct (Hcalls c Hc) as [H1 [H2 [H3 H4]]]. repeat split; auto.
      intros Hcp. apply no_delete_yet_cons; [now apply H4 |].
      intros i o' E. inversion E; subst. intros Hd.
      destruct (Hdel Hd) as [_ Hno]. now apply (Hno c Hc).
    + simpl. repeat split; auto. intros Hcp.
      apply no_delete_yet_cons; [now apply Hup |].
      intros i o' E. inversion E; subst. congruence.
  - intros i a' o' [E | H] Hp.
    + inversion E; subst. right. eexists. split.
      * apply in_or_app. right. now left.
      * simpl. auto.
    + destruct (Htr i a' o' H Hp) as [Hs | [c [Hc Hrest]]].
      * left. now apply settled_cons.
      * right. exists c. split; [apply in_or_app; now left | exact Hrest].
  - now split.
Qed.

(** A transition that only changes [main], raises or returns. *)
Lemma core_same (s s' : state) :
  core s -> trace s' = trace s -> inflight s' = inflight s ->
  attempt s' = attempt s -> next_id s' = next_id s -> core s'.
Proof.
  intros [Hord Hids Hb Hatt Hcalls Htr Hr] Et Ei Ea En.
  constructor; rewrite ?Et, ?Ei, ?Ea, ?En; auto.
Qed.

Lemma core_set_main (m : mainst) (s : state) : core s -> core (set_main m s).
Proof. intros H. now apply (core_same s). Qed.

Lemma core_emit (e : event) (s : state) :
  core s ->
  match e with
  | Issue _ _ _ | Settle _ _ => False
  | Raise err => validation_error err -> no_mutation (trace s)
  | Return => True
  end ->
  core (emit e s).
Proof.
  intros [Hord Hids Hb Hatt Hcalls Htr Hr] He.
  destruct e as [i a o | i r | err |]; try contradiction.
  - constructor; simpl; auto.
    + intros i a o [E | H]; [discriminate | now apply (Hb i a o)].
    + intros i a o [E | H]; [discriminate | now apply (Hatt i a o)].
    + intros c Hc. destruct (Hcalls c Hc) as [H1 [H2 [H3 H4]]].
      repeat split; auto. intros Hp. apply no_delete_yet_cons; [now apply H4 |].
      intros i o E. discriminate.
    + intros i a o [E | H] Hp; [discriminate |].
      destruct (Htr i a o H Hp) as [Hs | Hc]; [left; now apply settled_cons | now right].
  - constructor; simpl; auto.
    + intros i a o [E | H]; [discriminate | now apply (Hb i a o)].
    + intros i a o [E | H]; [discriminate | now apply (Hatt i a o)].
    + intros c Hc. destruct (Hcalls c Hc) as [H1 [H2 [H3 H4]]].
      repeat split; auto. intros Hp. apply no_delete_yet_cons; [now apply H4 |].
      intros i o E. discriminate.
    + intros i a o [E | H] Hp; [discriminate |].
      destruct (Htr i a o H Hp) as [Hs | Hc]; [left; now apply settled_cons | now right].
Qed.

Lemma core_next_attempt (s : state) :
  core s ->
  core {| attempt := S (attempt s); next_id := next_id s; trace := trace s;
          inflight := inflight s; main := main s |}.
Proof.
  intros [Hord Hids Hb Hatt Hcalls Htr Hr].
  constructor; simpl; auto.
  - intros i a o H. specialize (Hatt i a o H). lia.
  - intros c Hc. destruct (Hcalls c Hc) as [H1 [H2 [H3 H4]]].
    repeat split; auto.
Qed.

(** ** The invariant is kept by the body of the run *)

Lemma spawn_issue (ph : phase) (t : task tval) (s : state) :
  spawnable ph t ->
  exists o k,
    spawn ph t s = issue (attempt s) ph o k s /\ op_phase o = ph
    /\ forall r, task_ok ph (k r).
Proof.
  intros [o [k [-> [Hph Hk]]]]. exists o, k. simpl. auto.
Qed.

Lemma spawn_frame (ph : phase) (t : task tval) (s : state) :
  attempt (spawn ph t s) = attempt s /\ main (spawn ph t s) = main s.
Proof. destruct t; simpl; auto. Qed.

Lemma spawn_all_ind (ph : phase) (I : state -> Prop) (T : task tval -> Prop) :
  (forall t s, T t -> I s -> I (spawn ph t s)) ->
  forall ts s, Forall T ts -> I s -> I (spawn_all ph ts s).
Proof.
  intros Hstep ts. induction ts as [| t ts IH]; intros s HT HI; simpl; [exact HI |].
  inversion HT; subst. apply IH; [assumption |]. now apply Hstep.
Qed.

Lemma spawn_all_app (ph : phase) (ts ts' : list (task tval)) (s : state) :
  spawn_all ph (ts ++ ts') s = spawn_all ph ts' (spawn_all ph ts s).
Proof. unfold spawn_all. apply fold_left_app. Qed.

Lemma upserting_spawn (a : nat) (t : task tval) (s : state) :
  spawnable PUpsert t -> upserting a s -> upserting a (spawn PUpsert t s).
Proof.
  intros Ht [Hc [Ha Hn]].
  destruct (spawn_issue PUpsert t s Ht) as [o [k [E [Hph Hk]]]].
  rewrite E. split; [| split].
  - apply core_issue; [exact Hc | lia | exact Hph | exact Hk | | discriminate].
    intros _. now rewrite Ha.
  - exact Ha.
  - simpl. apply no_delete_yet_cons; [exact Hn |].
    intros i o' Eo. inversion Eo; subst. congruence.
Qed.

Lemma no_mutation_spawn (ph : phase) (t : task tval) (s : state) :
  starts_reading t -> no_mutation (trace s) -> no_mutation (trace (spawn ph t s)).
Proof.
  intros [o [k [-> Ho]]] Hn. simpl. intros i a o' [E | H].
  - inversion E; subst. exact Ho.
  - now apply (Hn i a o').
Qed.

Lemma pending_false (ph : phase) (s : state) :
  pending ph s = false ->
  forall c, In c (inflight s) -> c_attempt c = attempt s -> c_phase c <> ph.
Proof.
  unfold pending. intros H c Hc Ha Hp.
  assert (E : existsb
                (fun c => (c_attempt c =? attempt s)%nat && phase_eqb (c_phase c) ph)
                (inflight s) = true).
  { apply existsb_exists. exists c. split; [exact Hc |].
    rewrite Ha, Nat.eqb_refl, Hp. now destruct ph. }
  congruence.
Qed.

Lemma deleting_spawn (a : nat) (t : task tval) (s : state) :
  spawnable PDelete t -> deleting a s -> deleting a (spawn PDelete t s).
Proof.
  intros Ht [Hc [Ha Hp]].
  destruct (spawn_issue PDelete t s Ht) as [o [k [E [Hph Hk]]]].
  rewrite E. split; [| split].
  - apply core_issue; [exact Hc | lia | exact Hph | exact Hk | discriminate |].
    intros _. split.
    + intros i o' Hin Hup.
        destruct (core_tracked Hc i (attempt s) o' Hin Hup)
          as [Hs | [c [Hin' [_ [Hca Hcp]]]]]; [exact Hs |].
      exfalso. now apply (pending_false PUpsert s Hp c Hin' Hca).
    + intros c Hin' Hca. now apply (pending_false PUpsert s Hp c Hin' Hca).
  - exact Ha.
  - unfold pending in *. simpl. rewrite existsb_app, Hp. simpl.
    now rewrite andb_false_r.
Qed.

Lemma core_spawn_read (ph : phase) (t : task tval) (s : state) :
  spawnable ph t -> ph = PSnapshot \/ ph = PSleep -> core s -> core (spawn ph t s).
Proof.
  intros Ht Hph Hc.
  destruct (spawn_issue ph t s Ht) as [o [k [E [Ho Hk]]]].
  rewrite E. apply core_issue; [exact Hc | lia | exact Ho | exact Hk | |];
    intros ->; destruct Hph; discriminate.
Qed.

Lemma reading_phase (o : op) :
  op_phase o = PSnapshot \/ op_phase o = PSleep -> mutating o = false.
Proof. destruct o; simpl; intros [H | H]; try discriminate; reflexivity. Qed.

Lemma reading_spawn (ph : phase) (t : task tval) (s : state) :
  spawnable ph t -> ph = PSnapshot \/ ph = PSleep -> reading s ->
  reading (spawn ph t s).
Proof.
  intros Ht Hph [Hn Hc].
  destruct (spawn_issue ph t s Ht) as [o [k [E [Ho Hk]]]].
  rewrite E. split; simpl.
  - intros i a o' [Eo | H]; [| now apply (Hn i a o')].
    inversion Eo; subst. apply reading_phase. exact Hph.
  - intros c Hin. apply in_app_or in Hin. destruct Hin as [Hin | [<- | []]].
    + now apply Hc.
    + exact Hph.
Qed.

(** The loops of the body start exactly the functions of the plan. *)
Lemma upsert_fields_plan (cfg : config) (params : value) (type : string) :
  forall fields s,
    upsert_fields cfg params type fields s
    = (spawn_all PUpsert (fst (upsert_plan_fields cfg params type fields)) s,
       snd (upsert_plan_fields cfg params type fields)).
Proof.
  induction fields as [| [field spec] rest IH]; intros s; simpl; [reflexivity |].
  destruct (negb (typeof spec =? "object")); [reflexivity |].
  rewrite IH. destruct (upsert_plan_fields cfg params type rest) as [ts e].
  reflexivity.
Qed.

Lemma upsert_types_plan (cfg : config) (params : value) :
  forall types s,
    upsert_types cfg params types s
    = (spawn_all PUpsert (fst (upsert_plan cfg params types)) s,
       snd (upsert_plan cfg params types)).
Proof.
  induction types as [| [type fields] rest IH]; intros s; simpl; [reflexivity |].
  destruct (negb (typeof fields =? "object")); [reflexivity |].
  rewrite upsert_fields_plan.
  destruct (upsert_plan_fields cfg params type (props_of fields)) as [ts [e |]];
    simpl; [reflexivity |].
  rewrite IH. destruct (upsert_plan cfg params rest) as [ts' e']. simpl.
  now rewrite spawn_all_app.
Qed.

Lemma delete_fields_plan (params : value) (type : string) :
  forall fields s,
    delete_fields params type fields s
    = (spawn_all PUpsert (fst (delete_plan params type fields)) s,
       snd (delete_plan params type fields)).
Proof.
  induction fields as [| field rest IH]; intros s; simpl; [reflexivity |].
  destruct (absent params type field) as [[|] | e]; [| | reflexivity];
    rewrite IH; destruct (delete_plan params type rest) as [ts e']; reflexivity.
Qed.

Lemma removeOutdatedDataSources_plan (params : value) (dsn : list string) :
  forall existing s,
    removeOutdatedDataSources params existing dsn s
    = spawn_all PDelete (map (deleteDataSource (apiId params)) (outdated existing dsn)) s.
Proof.
  unfold removeOutdatedDataSources, outdated, spawn_all.
  induction existing as [| n rest IH]; intros s; simpl; [reflexivity |].
  destruct (negb (mem n dsn)); simpl; apply IH.
Qed.

Lemma upsert_plan_fields_tasks (cfg : config) (params : value) (type : string) :
  forall fields, Forall upsert_start (fst (upsert_plan_fields cfg params type fields)).
Proof.
  induction fields as [| [field spec] rest IH]; simpl; [constructor |].
  destruct (negb (typeof spec =? "object")); [constructor |].
  destruct (upsert_plan_fields cfg params type rest) as [ts e]. simpl in *.
  constructor; [| exact IH]. split.
  - apply deployAppSyncResolver_spawnable.
  - destruct (deployAppSyncResolver_head cfg (spec_params params spec type field)
                (fun _ => TVoid)) as [k [E _]].
    eexists _, k. split; [exact E | reflexivity].
Qed.

Lemma upsert_plan_tasks (cfg : config) (params : value) :
  forall types, Forall upsert_start (fst (upsert_plan cfg params types)).
Proof.
  induction types as [| [type fields] rest IH]; simpl; [constructor |].
  destruct (negb (typeof fields =? "object")); [constructor |].
  pose proof (upsert_plan_fields_tasks cfg params type (props_of fields)) as Hf.
  destruct (upsert_plan_fields cfg params type (props_of fields)) as [ts [e |]];
    simpl in *; [exact Hf |].
  destruct (upsert_plan cfg params rest) as [ts' e']. simpl in *.
  apply Forall_app. now split.
Qed.

Lemma upsert_plan_fields_error (cfg : config) (params : value) (type : string) :
  forall fields e,
    snd (upsert_plan_fields cfg params type fields) = Some e ->
    validation_error e /\ retryable e = false.
Proof.
  induction fields as [| [field spec] rest IH]; intros e; simpl; [discriminate |].
  destruct (negb (typeof spec =? "object")).
  - simpl. intros E. inversion E; subst. split; [constructor | reflexivity].
  - destruct (upsert_plan_fields cfg params type rest) as [ts e']. simpl in *.
    apply IH.
Qed.

Lemma upsert_plan_error (cfg : config) (params : value) :
  forall types e,
    snd (upsert_plan cfg params types) = Some e ->
    validation_error e /\ retryable e = false.
Proof.
  induction types as [| [type fields] rest IH]; intros e; simpl; [discriminate |].
  destruct (negb (typeof fields =? "object")).
  - simpl. intros E. inversion E; subst. split; [constructor | reflexivity].
  - pose proof (upsert_plan_fields_error cfg params type (props_of fields)) as Hf.
    destruct (upsert_plan_fields cfg params type (props_of fields)) as [ts [e0 |]];
      simpl in *; [apply Hf |].
    destruct (upsert_plan cfg params rest) as [ts' e']. simpl in *. apply IH.
Qed.

Lemma delete_plan_tasks (params : value) (type : string) :
  forall fields, Forall (spawnable PUpsert) (fst (delete_plan params type fields)).
Proof.
  induction fields as [| field rest IH]; simpl; [constructor |].
  destruct (absent params type field) as [b | e]; [| constructor].
  destruct (delete_plan params type rest) as [ts e']. simpl in *.
  destruct b; simpl; [constructor |]; try exact IH.
  apply deleteResolver_spawnable.
Qed.

Lemma absent_error (params : value) (type field : string) (e : error) :
  absent params type field = Error e -> exists m, e = JsTypeError m.
Proof.
  unfold absent. destruct (resolvers params); try discriminate;
    try (intros E; inversion E; eexists; reflexivity);
    destruct (negb (truthy _)); discriminate.
Qed.

Lemma delete_plan_error (params : value) (type : string) :
  forall fields e,
    snd (delete_plan params type fields) = Some e -> exists m, e = JsTypeError m.
Proof.
  induction fields as [| field rest IH]; intros e; simpl; [discriminate |].
  destruct (absent params type field) as [b | e0] eqn:E.
  - destruct (delete_plan params type rest) as [ts e']. simpl in *. apply IH.
  - simpl. intros E'. inversion E'; subst. now apply absent_error in E.
Qed.

Lemma getDataSourceName_error (v : value) (e : error) :
  getDataSourceName v = Error e -> exists m, e = JsTypeError m.
Proof.
  destruct v; simpl; intros E; inversion E; eexists; reflexivity.
Qed.

Lemma dataSourcesNames_fields_error :
  forall fields acc e,
    dataSourcesNames_fields fields acc = Error e -> exists m, e = JsTypeError m.
Proof.
  induction fields as [| [field spec] rest IH]; intros acc e; simpl; [discriminate |].
  destruct spec;
    try (intros E; inversion E; eexists; reflexivity);
    match goal with
    | |- context [getDataSourceName ?v] =>
        destruct (getDataSourceName v) as [n | e0] eqn:En
    end;
    try apply IH;
    intros E; inversion E; subst; now apply getDataSourceName_error in En.
Qed.

Lemma getDataSourcesNames_error (v : value) (e : error) :
  getDataSourcesNames v = Error e -> exists m, e = JsTypeError m.
Proof.
  unfold getDataSourcesNames. generalize (@nil string).
  induction (props_of v) as [| [type fields] rest IH]; intros acc; simpl;
    [discriminate |].
  destruct (dataSourcesNames_fields (props_of fields) acc) as [acc' | e0] eqn:E.
  - apply IH.
  - intros E'. inversion E'; subst. now apply dataSourcesNames_fields_error in E.
Qed.

Lemma inv_raise (cfg : config) (params : value) (e : error) (s : state) :
  core s -> (validation_error e -> no_mutation (trace s)) ->
  inv cfg params (raise e s).
Proof.
  intros Hc He. unfold raise. split; [| split].
  - apply core_set_main. now apply core_emit.
  - discriminate.
  - discriminate.
Qed.

Lemma inv_finish (cfg : config) (params : value) (s : state) :
  core s -> inv cfg params (finish s).
Proof.
  intros Hc. unfold finish. split; [| split].
  - apply core_set_main. now apply core_emit.
  - discriminate.
  - discriminate.
Qed.

Lemma reading_set_main (m : mainst) (s : state) : reading s -> reading (set_main m s).
Proof. intros H. exact H. Qed.

Lemma inv_catch (cfg : config) (params : value) (e : error) (s : state) :
  core s -> (validation_error e -> no_mutation (trace s)) ->
  (plan_error cfg params <> None -> retryable e = true -> reading s) ->
  inv cfg params (catch e s).
Proof.
  intros Hc He Hr. unfold catch. destruct (retryable e) eqn:R.
  - split; [| split].
    + apply core_set_main. apply core_spawn_read; auto.
      * apply sleep_spawnable.
    + discriminate.
    + intros Hp _. apply reading_set_main. apply reading_spawn; auto.
      apply sleep_spawnable.
  - now apply inv_raise.
Qed.

Lemma not_validation_type_error (e : error) :
  (exists m, e = JsTypeError m) -> ~ validation_error e.
Proof. intros [m ->]. apply not_validation_type. Qed.

Lemma inv_delete_phase (cfg : config) (params : value) (existing : list string)
    (s : state) :
  core s -> pending PUpsert s = false -> plan_error cfg params = None ->
  inv cfg params (delete_phase params existing s).
Proof.
  intros Hc Hp Hplan. unfold delete_phase.
  destruct (getDataSourcesNames (resolvers params)) as [dsn | e] eqn:E.
  - rewrite removeOutdatedDataSources_plan.
    assert (Hd : deleting (attempt s)
                   (spawn_all PDelete
                      (map (deleteDataSource (apiId params)) (outdated existing dsn)) s)).
    { apply spawn_all_ind with (T := spawnable PDelete).
      - intros t s' Ht Hs'. now apply deleting_spawn.
      - apply Forall_forall. intros t Ht. apply in_map_iff in Ht.
        destruct Ht as [n [<- _]]. apply deleteDataSource_spawnable.
      - split; [exact Hc | split; [reflexivity | exact Hp]]. }
    destruct Hd as [Hc' _]. unfold await_deletes.
    destruct (pending PDelete _).
    + split; [| split].
      * now apply core_set_main.
      * discriminate.
      * intros Hne. now rewrite Hplan in Hne.
    + now apply inv_finish.
  - apply getDataSourcesNames_error in E. apply inv_catch; auto.
    + intros Hv. exfalso. revert Hv. now apply not_validation_type_error.
    + intros Hne. now rewrite Hplan in Hne.
Qed.

Lemma inv_upsert_phase (cfg : config) (params : value) (q m existing : list string)
    (s : state) :
  core s -> no_delete_yet (attempt s) (trace s) ->
  (plan_error cfg params <> None -> reading s) ->
  inv cfg params (upsert_phase cfg params q m existing s).
Proof.
  intros Hc Hn Hr. unfold upsert_phase. rewrite upsert_types_plan.
  pose proof (upsert_plan_tasks cfg params (props_of (resolvers params))) as Hts.
  pose proof (upsert_plan_error cfg params (props_of (resolvers params))) as Herr.
  fold (plan_error cfg params) in Herr.
  set (ts := fst (upsert_plan cfg params (props_of (resolvers params)))) in *.
  set (s1 := spawn_all PUpsert ts s).
  assert (H1 : upserting (attempt s) s1).
  { apply spawn_all_ind with (T := upsert_start).
    - intros t s' [Ht _] Hs'. now apply upserting_spawn.
    - exact Hts.
    - split; [exact Hc | split; [reflexivity | exact Hn]]. }
  fold (plan_error cfg params). destruct (plan_error cfg params) as [e |] eqn:Eplan.
  { destruct (Herr e eq_refl) as [Hv Hre]. unfold catch. rewrite Hre.
    apply inv_raise; [apply H1 |]. intros _.
    apply spawn_all_ind with (T := upsert_start) (I := fun s' => no_mutation (trace s')).
    - intros t s' [_ Ht] Hs'. now apply no_mutation_spawn.
    - exact Hts.
    - apply Hr. discriminate. }
  rewrite delete_fields_plan.
  set (s2 := spawn_all PUpsert (fst (delete_plan params "Query" q)) s1).
  assert (H2 : upserting (attempt s) s2).
  { apply spawn_all_ind with (T := spawnable PUpsert).
    - intros t s' Ht Hs'. now apply upserting_spawn.
    - apply delete_plan_tasks.
    - exact H1. }
  pose proof (delete_plan_error params "Query" q) as Hq.
  destruct (snd (delete_plan params "Query" q)) as [e |].
  { specialize (Hq e eq_refl). apply inv_catch; [apply H2 | |].
    - intros Hv. exfalso. revert Hv. now apply not_validation_type_error.
    - intros Hne. now contradiction Hne. }
  rewrite delete_fields_plan.
  set (s3 := spawn_all PUpsert (fst (delete_plan params "Mutation" m)) s2).
  assert (H3 : upserting (attempt s) s3).
  { apply spawn_all_ind with (T := spawnable PUpsert).
    - intros t s' Ht Hs'. now apply upserting_spawn.
    - apply delete_plan_tasks.
    - exact H2. }
  pose proof (delete_plan_error params "Mutation" m) as Hm.
  destruct (snd (delete_plan params "Mutation" m)) as [e |].
  { specialize (Hm e eq_refl). apply inv_catch; [apply H3 | |].
    - intros Hv. exfalso. revert Hv. now apply not_validation_type_error.
    - intros Hne. now contradiction Hne. }
  unfold await_upserts. destruct (pending PUpsert s3) eqn:Hp.
  - split; [| split].
    + apply core_set_main. apply H3.
    + discriminate.
    + intros Hne. now contradiction Hne.
  - apply inv_delete_phase; [apply H3 | exact Hp | exact Eplan].
Qed.

Lemma begin_valid (params : value) (s : state) :
  top_error params = None ->
  begin params s
  = set_main (MSnapshot None None None)
      (spawn PSnapshot (then_ (getExistingDataSourcesNames (apiId params)) TNames)
         (spawn PSnapshot (then_ (listResolvers (apiId params) "Mutation") TMutation)
            (spawn PSnapshot (then_ (listResolvers (apiId params) "Query") TQuery) s))).
Proof.
  unfold top_error, begin.
  destruct params; try discriminate;
    destruct (negb (truthy _)); try discriminate;
    destruct (negb (truthy _)); try discriminate;
    destruct (negb (typeof _ =? "object")); try discriminate; reflexivity.
Qed.

Lemma begin_invalid (params : value) (s : state) (e : error) :
  top_error params = Some e -> begin params s = raise e s /\ retryable e = false.
Proof.
  unfold top_error, begin.
  destruct params; try (intros E; inversion E; subst; split; reflexivity);
    destruct (negb (truthy _));
    try (intros E; inversion E; subst; split; reflexivity);
    destruct (negb (truthy _));
    try (intros E; inversion E; subst; split; reflexivity);
    destruct (negb (typeof _ =? "object"));
    try (intros E; inversion E; subst; split; reflexivity); discriminate.
Qed.

Lemma inv_begin (cfg : config) (params : value) (s : state) :
  top_error params = None ->
  core s -> no_delete_yet (attempt s) (trace s) ->
  (plan_error cfg params <> None -> reading s) ->
  inv cfg params (begin params s).
Proof.
  intros Htop Hc Hn Hr. rewrite (begin_valid params s Htop).
  pose proof (listResolvers_spawnable (apiId params) "Query" TQuery) as Hq.
  pose proof (listResolvers_spawnable (apiId params) "Mutation" TMutation) as Hm.
  pose proof (getExistingDataSourcesNames_spawnable (apiId params)) as Hd.
  split; [| split].
  - apply core_set_main. repeat (apply core_spawn_read; auto).
  - intros _. simpl.
    repeat (apply no_delete_yet_cons;
            [| intros i o E; inversion E; subst; discriminate]).
    exact Hn.
  - intros Hp _. apply reading_set_main.
    repeat (apply reading_spawn; auto).
Qed.

(** ** The invariant holds in every reachable state *)

Lemma inv_step (cfg : config) (params : value) (s : state) (c : nat * response) :
  top_error params = None -> inv cfg params s -> inv cfg params (step cfg params s c).
Proof.
  intros Htop Hinv. pose proof Hinv as [Hc [Hsnap Hread]].
  destruct c as [id r]. unfold step.
  destruct (take id (inflight s)) as [[cl rest] |] eqn:T; [| exact Hinv].
  destruct (negb (well_typed (c_op cl) r)); [exact Hinv |].
  fold (settle_state s id r rest).
  pose proof (core_settle s id r cl rest Hc T) as Hc1.
  destruct (take_spec _ _ _ _ T) as [Hid [Hin [Hsub Hcov]]].
  destruct (core_calls Hc cl Hin) as [Hatt [Hph [Hk Hopen]]].
  set (s1 := settle_state s id r rest) in *.
  assert (Hsnap1 : is_snapshot (main s) = true -> no_delete_yet (attempt s) (trace s1)).
  { intros Hm. simpl. apply no_delete_yet_cons; [now apply Hsnap |].
    intros i o E. discriminate. }
  assert (Hread1 : plan_error cfg params <> None -> is_done (main s) = false ->
                   reading s1).
  { intros Hp Hd. destruct (Hread Hp Hd) as [Hn Hcs]. split; simpl.
    - intros i a o [E | H]; [discriminate | now apply (Hn i a o)].
    - intros c Hc'. apply Hcs. now apply Hsub. }
  assert (Hinv1 : inv cfg params s1) by (split; [exact Hc1 | split; assumption]).
  specialize (Hk r). unfold task_ok in Hk.
  destruct (c_k cl r) as [v | e | o k] eqn:K.
  - (* the function returns *)
    destruct (awaited cl s1) eqn:A; [| exact Hinv1].
    unfold awaited in A. apply andb_true_iff in A. destruct A as [Aa Ap].
    apply Nat.eqb_eq in Aa. simpl in Aa, Ap. unfold fulfilled.
    change (main s1) with (main s). revert Ap.
    destruct (main s) as [q m d | ex | | | res] eqn:M; intros Ap.
    + assert (Hup : forall fs gs ns,
                 inv cfg params (upsert_phase cfg params fs gs ns s1)).
      { intros fs gs ns. apply inv_upsert_phase; [exact Hc1 | now apply Hsnap1 |].
        intros Hp. now apply Hread1. }
      assert (Hset : forall q' m' d',
                 inv cfg params (set_main (MSnapshot q' m' d') s1)).
      { intros q' m' d'. split; [now apply core_set_main | split].
        - intros _. now apply Hsnap1.
        - intros Hp _. now apply Hread1. }
      destruct v, q, m, d; first [apply Hup | apply Hset].
    + destruct (pending PUpsert s1) eqn:P; [exact Hinv1 |].
      apply inv_delete_phase; [exact Hc1 | exact P |].
      destruct (plan_error cfg params) as [e |] eqn:Ep; [| reflexivity].
      exfalso. assert (Hne : plan_error cfg params <> None) by (rewrite Ep; discriminate).
      rewrite Ep in *.
      destruct (Hread ltac:(discriminate) eq_refl) as [_ Hcs].
      destruct (Hcs cl Hin) as [E | E]; rewrite E in Ap; discriminate.
    + destruct (pending PDelete s1); [exact Hinv1 | now apply inv_finish].
    + unfold retry. apply inv_begin; [exact Htop | now apply core_next_attempt | |].
      * simpl. intros i o [E | H]; [discriminate |].
        apply (core_attempts Hc) in H. lia.
      * intros Hp. now apply Hread1.
    + destruct (c_phase cl); discriminate.
  - (* the function throws *)
    destruct (awaited cl s1) eqn:A; [| exact Hinv1].
    unfold awaited in A. apply andb_true_iff in A. destruct A as [Aa Ap].
    simpl in Ap. inversion Hk as [| e' He |]; subst.
    assert (Hd : is_done (main s) = false).
    { revert Ap. destruct (main s); try reflexivity.
      destruct (c_phase cl); discriminate. }
    unfold rejected. change (main s1) with (main s).
    assert (Hcatch : inv cfg params (catch e s1)).
    { apply inv_catch; [exact Hc1 | intros Hv; contradiction |].
      intros Hp _. now apply Hread1. }
    destruct (main s); try exact Hcatch.
    apply inv_raise; [exact Hc1 | intros Hv; contradiction].
  - (* the function issues its next call *)
    inversion Hk as [| | o' k' [Ho Hnd] Hk']; subst.
    split; [| split].
    + apply core_issue; [exact Hc1 | exact Hatt | exact Ho | exact Hk' | |].
      * intros Hp. simpl. apply no_delete_yet_cons; [now apply Hopen |].
        intros i o' E. discriminate.
      * intros Hp. contradiction.
    + intros Hm. simpl. apply no_delete_yet_cons; [now apply Hsnap1 |].
      intros i o' E. inversion E; subst. congruence.
    + intros Hp Hd. destruct (Hread1 Hp Hd) as [Hn Hcs].
      destruct (Hread Hp Hd) as [_ Hcs0]. specialize (Hcs0 cl Hin).
      split; simpl.
      * intros i a o' [E | H]; [| now apply (Hn i a o')].
        inversion E; subst. apply reading_phase. now rewrite Ho.
      * intros c Hc'. apply in_app_or in Hc'. destruct Hc' as [Hc' | [<- | []]].
        -- now apply Hcs.
        -- exact Hcs0.
Qed.

Lemma core_idle : core idle.
Proof.
  constructor; simpl; auto; try (now intros ? ? ? []); now intros ? [].
Qed.

Lemma inv_start (cfg : config) (params : value) :
  top_error params = None -> inv cfg params (start params).
Proof.
  intros Htop. unfold start. apply inv_begin; [exact Htop | apply core_idle | |].
  - intros i o [].
  - intros _. split; simpl; [intros i a o [] | intros c []].
Qed.

Lemma inv_exec (cfg : config) (params : value) (cs : list (nat * response)) :
  top_error params = None -> inv cfg params (exec cfg params cs).
Proof.
  intros Htop. unfold exec.
  assert (H : forall s, inv cfg params s -> inv cfg params (fold_left (step cfg params) cs s)).
  { induction cs as [| c cs IH]; intros s Hs; simpl; [exact Hs |].
    apply IH. now apply inv_step. }
  apply H. now apply inv_start.
Qed.

(** When the validation of lines 262-272 fails, the run ends where it
    starts. *)
Lemma exec_invalid (cfg : config) (params : value) (e : error) :
  top_error params = Some e ->
  forall cs, exec cfg params cs = raise e idle.
Proof.
  intros Htop cs. unfold exec, start.
  destruct (begin_invalid params idle e Htop) as [-> _].
  induction cs as [| [id r] cs IH]; simpl; [reflexivity | exact IH].
Qed.

(** ** Order of the calls of one attempt *)

Lemma singleton_split {A : Type} (x e : A) (h1 h2 : list A) :
  [x] = h1 ++ e :: h2 -> h1 = [] /\ x = e /\ h2 = [].
Proof.
  destruct h1 as [| y h1]; simpl; intros H; inversion H; subst; auto.
  destruct h1; discriminate.
Qed.

Lemma ordered_split (newer older : list event) (id a : nat) (o : op) :
  ordered (newer ++ Issue id a o :: older) -> op_phase o = PDelete ->
  upserts_settled a older
  /\ forall id' o', In (Issue id' a o') newer -> op_phase o' <> PUpsert.
Proof.
  intros Hord Hph. induction newer as [| e newer IH]; simpl in Hord.
  - destruct Hord as [_ [Hs _]]. split; [now apply Hs | intros id' o' []].
  - destruct Hord as [Hord He]. destruct (IH Hord) as [Hs Hn].
    split; [exact Hs |]. intros id' o' [-> | Hin]; [| now apply (Hn id')].
    destruct He as [_ Hno]. intros Hup.
    apply (Hno Hup id o); [| exact Hph].
    apply in_or_app. right. now left.
Qed.

Lemma history_split (s : state) (h1 h2 : list event) (e : event) :
  history s = h1 ++ e :: h2 -> trace s = rev h2 ++ e :: rev h1.
Proof.
  unfold history. intros H. rewrite <- (rev_involutive (trace s)), H.
  rewrite rev_app_distr. simpl. now rewrite <- app_assoc.
Qed.

(** In every attempt, each call of the promises awaited at line 318 (the
    upserts and the resolver deletes) is issued and settled before the
    attempt issues a data-source delete. *)
Lemma promises_settle_before_data_source_deletes
    (cfg : config) (params : value) (cs : list (nat * response))
    (h1 h2 : list event) (id a : nat) (o : op) :
  history (exec cfg params cs) = h1 ++ Issue id a o :: h2 ->
  op_phase o = PDelete ->
  forall id' o',
    In (Issue id' a o') (history (exec cfg params cs)) -> op_phase o' = PUpsert ->
    In (Issue id' a o') h1 /\ exists r, In (Settle id' r) h1.
Proof.
  intros H Hph id' o' Hin Hup.
  destruct (top_error params) as [e |] eqn:Htop.
  { rewrite (exec_invalid cfg params e Htop) in H. unfold history in H. simpl in H.
    apply singleton_split in H. destruct H as [_ [E _]]. discriminate. }
  pose proof (inv_exec cfg params cs Htop) as [Hc _].
  pose proof (core_ordered Hc) as Hord.
  rewrite (history_split _ _ _ _ H) in Hord.
  destruct (ordered_split _ _ _ _ _ Hord Hph) as [Hs Hn].
  rewrite H in Hin. apply in_app_or in Hin. destruct Hin as [Hin | [E | Hin]].
  - split; [exact Hin |]. destruct (Hs id' o') as [r Hr]; auto.
    + now apply -> in_rev.
    + exists r. now apply in_rev.
  - inversion E; subst. congruence.
  - exfalso. apply (Hn id' o'); [| exact Hup]. now apply -> in_rev.
Qed.

(** C8. In every run (one attempt of the reconciliation), every
    [deleteResolver] call is issued and has settled before any
    [deleteDataSource] call is issued. *)
Theorem resolver_deletes_settle_before_data_source_deletes
    (cfg : config) (params : value) (cs : list (nat * response))
    (h1 h2 : list event) (id a : nat) (api : value) (name : string) :
  history (exec cfg params cs) = h1 ++ Issue id a (DeleteDataSource api name) :: h2 ->
  forall id' api' field type,
    In (Issue id' a (DeleteResolver api' field type)) (history (exec cfg params cs)) ->
    In (Issue id' a (DeleteResolver api' field type)) h1
    /\ exists r, In (Settle id' r) h1.
Proof.
  intros H id' api' field type Hin.
  now apply (promises_settle_before_data_source_deletes cfg params cs h1 h2 id a
               (DeleteDataSource api name) H eq_refl id'
               (DeleteResolver api' field type)).
Qed.

(** C3, amended. In every run (one attempt of the reconciliation), every
    create or update call of the upserts is issued and has settled before
    any [deleteDataSource] call is issued.  (The resolver deletes are
    issued together with the upserts.) *)
Theorem upserts_settle_before_data_source_deletes
    (cfg : config) (params : value) (cs : list (nat * response))
    (h1 h2 : list event) (id a : nat) (api : value) (name : string) :
  history (exec cfg params cs) = h1 ++ Issue id a (DeleteDataSource api name) :: h2 ->
  forall id' o',
    is_upsert o' = true ->
    In (Issue id' a o') (history (exec cfg params cs)) ->
    In (Issue id' a o') h1 /\ exists r, In (Settle id' r) h1.
Proof.
  intros H id' o' Hup Hin.
  apply (promises_settle_before_data_source_deletes cfg params cs h1 h2 id a
           (DeleteDataSource api name) H eq_refl id' o' Hin).
  destruct o'; try discriminate; reflexivity.
Qed.

(** The identifier of a call is not reused. *)
Lemma issue_ids_distinct (cfg : config) (params : value) (cs : list (nat * response))
    (h1 h2 : list event) (id a : nat) (o : op) :
  history (exec cfg params cs) = h1 ++ Issue id a o :: h2 ->
  forall a' o', ~ In (Issue id a' o') h1 /\ ~ In (Issue id a' o') h2.
Proof.
  intros H a' o'.
  destruct (top_error params) as [e |] eqn:Htop.
  { rewrite (exec_invalid cfg params e Htop) in H. unfold history in H. simpl in H.
    apply singleton_split in H. destruct H as [_ [E _]]. discriminate. }
  pose proof (inv_exec cfg params cs Htop) as [Hc _].
  pose proof (core_ids Hc) as Hids.
  rewrite (history_split _ _ _ _ H) in Hids. clear H Hc.
  assert (Hgen : forall newer,
             ids_increase (newer ++ Issue id a o :: rev h1) ->
             ~ In (Issue id a' o') (rev h1) /\ ~ In (Issue id a' o') newer).
  { induction newer as [| e newer IH]; simpl.
    - intros [Hb _]. split; [| tauto]. intros Hin. specialize (Hb _ _ _ Hin). lia.
    - destruct e as [i b p | | |]; try (intros Hi; destruct (IH Hi) as [A B];
        split; [exact A | intros [E | Hin]; [discriminate | tauto]]).
      intros [Hb Hi]. destruct (IH Hi) as [A B]. split; [exact A |].
      intros [E | Hin]; [| tauto]. inversion E; subst.
      assert (Hlt : id < id); [| lia].
      apply (Hb id a o). apply in_or_app. right. now left. }
  destruct (Hgen (rev h2) Hids) as [A B]. split.
  - intros Hin. apply A. now apply -> in_rev.
  - intros Hin. apply B. now apply -> in_rev.
Qed.

(** ** Validation *)

Lemma raises_clean_split (newer older : list event) (e : error) :
  raises_clean (newer ++ Raise e :: older) -> validation_error e -> no_mutation older.
Proof.
  induction newer as [| x newer IH]; simpl; intros [Hr Hx] Hv.
  - now apply Hx.
  - now apply IH.
Qed.

(** C4, amended. The validation of [apiId], of [roleName] and of
    [resolvers] being an object is over before any remote call is issued;
    the shapes inside [resolvers] are checked after the existing state was
    fetched, and whenever the run raises a validation error, no mutating
    call has been issued before the error is raised. *)
Theorem validation_precedes_mutation
    (cfg : config) (params : value) (cs : list (nat * response)) :
  (forall ps,
      params = VObj ps ->
      (truthy (apiId params) = false ->
       history (exec cfg params cs) = [Raise (JsError msg_apiId)])
      /\ (truthy (apiId params) = true -> truthy (roleName params) = false ->
          history (exec cfg params cs) = [Raise (JsError msg_roleName)])
      /\ (truthy (apiId params) = true -> truthy (roleName params) = true ->
          typeof (resolvers params) <> "object" ->
          history (exec cfg params cs) = [Raise (JsError msg_resolvers)]))
  /\ (forall pre post e,
        history (exec cfg params cs) = pre ++ Raise e :: post ->
        validation_error e ->
        forall id a o, In (Issue id a o) pre -> mutating o = false).
Proof.
  split.
  - intros ps ->. repeat apply conj.
    + intros Ha. rewrite (exec_invalid cfg (VObj ps) (JsError msg_apiId));
        [reflexivity |]. unfold top_error. now rewrite Ha.
    + intros Ha Hr. rewrite (exec_invalid cfg (VObj ps) (JsError msg_roleName));
        [reflexivity |]. unfold top_error. now rewrite Ha, Hr.
    + intros Ha Hr Hn. rewrite (exec_invalid cfg (VObj ps) (JsError msg_resolvers));
        [reflexivity |]. unfold top_error. rewrite Ha, Hr. simpl.
      apply String.eqb_neq in Hn. now rewrite Hn.
  - intros pre post e H Hv id a o Hin.
    destruct (top_error params) as [e0 |] eqn:Htop.
    { rewrite (exec_invalid cfg params e0 Htop) in H. unfold history in H. simpl in H.
      apply singleton_split in H. destruct H as [-> _]. contradiction. }
    pose proof (inv_exec cfg params cs Htop) as [Hc _].
    pose proof (core_raises Hc) as Hr.
    rewrite (history_split _ _ _ _ H) in Hr.
    apply (raises_clean_split _ _ _ Hr Hv id a o). now apply -> in_rev.
Qed.

(** ** Retry *)

Lemma take_skip (id : nat) (l l' : list call) :
  (forall c, In c l -> c_id c <> id) ->
  take id (l ++ l')
  = match take id l' with
    | Some (c, r) => Some (c, l ++ r)
    | None => None
    end.
Proof.
  induction l as [| c l IH]; intros H; simpl.
  - destruct (take id l') as [[c r] |]; reflexivity.
  - destruct (Nat.eqb_spec (c_id c) id) as [E | E].
    + exfalso. apply (H c); [now left | exact E].
    + rewrite IH; [| intros c' Hc'; apply H; now right].
      destruct (take id l') as [[c' r] |]; reflexivity.
Qed.

Lemma step_rejected (cfg : config) (params : value) (s : state) (id : nat)
    (r : response) (e : error) :
  settles s id r = Some (Error e) ->
  step cfg params s (id, r) = rejected e (settle_state s id r (rest_of s id)).
Proof.
  unfold settles, step, rest_of.
  destruct (take id (inflight s)) as [[cl rest] |]; [| discriminate].
  destruct (well_typed (c_op cl) r); [| discriminate]. simpl.
  fold (settle_state s id r rest).
  replace (awaited cl (settle_state s id r rest)) with (awaited cl s) by reflexivity.
  destruct (c_k cl r); try discriminate;
    destruct (awaited cl s); try discriminate; intros E; now inversion E.
Qed.

Lemma step_fulfilled (cfg : config) (params : value) (s : state) (id : nat)
    (r : response) (v : tval) :
  settles s id r = Some (Ok v) ->
  step cfg params s (id, r)
  = fulfilled cfg params v (settle_state s id r (rest_of s id)).
Proof.
  unfold settles, step, rest_of.
  destruct (take id (inflight s)) as [[cl rest] |]; [| discriminate].
  destruct (well_typed (c_op cl) r); [| discriminate]. simpl.
  fold (settle_state s id r rest).
  replace (awaited cl (settle_state s id r rest)) with (awaited cl s) by reflexivity.
  destruct (c_k cl r); try discriminate;
    destruct (awaited cl s); try discriminate; intros E; now inversion E.
Qed.

Lemma take_found (id : nat) (l l' : list call) (c : call) :
  (forall c', In c' l -> c_id c' <> id) -> c_id c = id ->
  take id (l ++ c :: l') = Some (c, l ++ l').
Proof.
  intros Hl Hc. rewrite take_skip by exact Hl. simpl.
  now rewrite Hc, Nat.eqb_refl.
Qed.

Lemma begin_state (params : value) (s0 : state) :
  top_error params = None ->
  exists kq km kd,
    begin params s0
    = {| attempt := attempt s0;
         next_id := 3 + next_id s0;
         trace := Issue (2 + next_id s0) (attempt s0) (ListDataSources (apiId params))
                  :: Issue (1 + next_id s0) (attempt s0)
                       (ListResolvers (apiId params) "Mutation")
                  :: Issue (next_id s0) (attempt s0)
                       (ListResolvers (apiId params) "Query")
                  :: trace s0;
         inflight := inflight s0 ++
           [ snapshot_call (next_id s0) (attempt s0)
               (ListResolvers (apiId params) "Query") kq;
             snapshot_call (1 + next_id s0) (attempt s0)
               (ListResolvers (apiId params) "Mutation") km;
             snapshot_call (2 + next_id s0) (attempt s0)
               (ListDataSources (apiId params)) kd ];
         main := MSnapshot None None None |}
    /\ kq conflict
       = Throw (ServiceError "ConcurrentModificationException"
                  "Schema is currently being altered")
    /\ (forall r, no_resolvers r -> kq r = Ret (TQuery []))
    /\ (forall r, no_resolvers r -> km r = Ret (TMutation []))
    /\ (forall names, kd (DataSources names) = Ret (TNames names)).
Proof.
  intros Htop. rewrite (begin_valid params s0 Htop). simpl.
  unfold set_main, issue. simpl.
  rewrite <- !app_assoc. simpl. eexists _, _, _.
  split; [reflexivity |]. split; [reflexivity |].
  repeat split; try (intros r [-> | [m ->]]; reflexivity).
Qed.

Lemma retry_once (cfg : config) (params : value) (s0 : state) :
  top_error params = None ->
  (forall c, In c (inflight s0) -> c_id c < next_id s0) ->
  exists s0',
    step cfg params (step cfg params (begin params s0) (next_id s0, conflict))
      (3 + next_id s0, Done)
    = begin params s0'
    /\ attempt s0' = S (attempt s0)
    /\ (forall c, In c (inflight s0') -> c_id c < next_id s0').
Proof.
  intros Htop Hids.
  destruct (begin_state params s0 Htop) as [kq [km [kd [-> [Hkq _]]]]].
  remember (3 + next_id s0, Done) as c2 eqn:Ec2.
  set (cq := snapshot_call (next_id s0) (attempt s0)
               (ListResolvers (apiId params) "Query") kq).
  set (cm := snapshot_call (1 + next_id s0) (attempt s0)
               (ListResolvers (apiId params) "Mutation") km).
  set (cd := snapshot_call (2 + next_id s0) (attempt s0)
               (ListDataSources (apiId params)) kd).
  match goal with
  | |- context [step cfg params ?s (next_id s0, conflict)] => set (s1 := s)
  end.
  assert (T1 : take (next_id s0) (inflight s1) = Some (cq, inflight s0 ++ [cm; cd])).
  { apply (take_found (next_id s0) (inflight s0) [cm; cd] cq); [| reflexivity].
    intros c Hc. specialize (Hids c Hc). lia. }
  rewrite (step_rejected cfg params s1 (next_id s0) conflict
             (ServiceError "ConcurrentModificationException"
                "Schema is currently being altered")).
  2:{ unfold settles. rewrite T1. simpl. unfold awaited. simpl.
      rewrite Nat.eqb_refl. simpl. now rewrite Hkq. }
  unfold rest_of. rewrite T1.
  unfold rejected, settle_state, catch. simpl main. cbv iota.
  change (retryable (ServiceError "ConcurrentModificationException"
                       "Schema is currently being altered")) with true.
  cbv iota. unfold sleep, then_, await, spawn, set_main, issue. simpl.
  match goal with
  | |- context [step cfg params ?s c2] => set (s2 := s)
  end.
  subst c2.
  assert (T2 : take (3 + next_id s0) (inflight s2)
               = Some ({| c_id := 3 + next_id s0; c_attempt := attempt s0;
                          c_phase := PSleep; c_op := Sleep 1000;
                          c_k := fun r => bind (match r with
                                                | Failed c m => Throw (ServiceError c m)
                                                | _ => Ret r
                                                end) (fun _ => Ret TVoid) |},
                       (inflight s0 ++ [cm; cd]) ++ [])).
  { apply take_found; [| reflexivity].
    intros c Hc. apply in_app_or in Hc.
    destruct Hc as [Hc | [<- | [<- | []]]]; simpl; try lia.
    specialize (Hids c Hc). lia. }
  rewrite (step_fulfilled cfg params s2 (3 + next_id s0) Done TVoid).
  2:{ unfold settles. rewrite T2. simpl. unfold awaited. simpl.
      now rewrite Nat.eqb_refl. }
  unfold rest_of. rewrite T2. unfold fulfilled, settle_state, retry.
  simpl main. cbv iota. eexists. split; [reflexivity |]. split; [reflexivity |].
  simpl. intros c Hc. rewrite app_nil_r in Hc. apply in_app_or in Hc.
  destruct Hc as [Hc | [<- | [<- | []]]]; simpl; try lia.
  specialize (Hids c Hc). lia.
Qed.

(** The run can be made to start any number of attempts. *)
Lemma retries_unbounded (cfg : config) (params : value) :
  top_error params = None ->
  forall n, exists cs s0,
    exec cfg params cs = begin params s0 /\ attempt s0 = n
    /\ (forall c, In c (inflight s0) -> c_id c < next_id s0).
Proof.
  intros Htop. induction n as [| n [cs [s0 [E [Ha Hids]]]]].
  - exists [], idle. split; [reflexivity |]. split; [reflexivity |].
    intros c [].
  - destruct (retry_once cfg params s0 Htop Hids) as [s0' [E' [Ha' Hids']]].
    exists (cs ++ [(next_id s0, conflict); (3 + next_id s0, Done)]), s0'.
    split; [| split; [lia | exact Hids']].
    unfold exec in *. rewrite fold_left_app, E. simpl. exact E'.
Qed.

Lemma well_typed_no_resolvers (a : value) (t : string) (r : response) :
  no_resolvers r -> well_typed (ListResolvers a t) r = true.
Proof. intros [-> | [m ->]]; reflexivity. Qed.

Lemma well_formed_top (params : value) :
  well_formed params -> top_error params = None.
Proof.
  unfold top_error. intros [Ha [Hr Hn]]. rewrite Ha, Hr, Hn. simpl.
  destruct params; try reflexivity; discriminate.
Qed.

Lemma spawn_all_trace (ph : phase) (ts : list (task tval)) :
  forall s,
    (forall e, In e (trace s) -> In e (trace (spawn_all ph ts s)))
    /\ (forall e, In (Raise e) (trace (spawn_all ph ts s)) -> In (Raise e) (trace s))
    /\ (forall o k, In (Call o k) ts ->
          exists id, In (Issue id (attempt s) o) (trace (spawn_all ph ts s))).
Proof.
  induction ts as [| t ts IH]; intros s; simpl.
  - repeat split; auto. intros o k [].
  - destruct (IH (spawn ph t s)) as [Hmono [Hraise Hiss]].
    assert (Hstep : forall e, In e (trace s) -> In e (trace (spawn ph t s))).
    { intros e He. destruct t; simpl; auto. }
    repeat split.
    + intros e He. apply Hmono. now apply Hstep.
    + intros e He. apply Hraise in He. destruct t; simpl in He; auto.
      destruct He as [E | He]; [discriminate | exact He].
    + intros o k [-> | Hin].
      * exists (next_id s). apply Hmono. simpl. now left.
      * destruct (Hiss o k Hin) as [id Hid]. exists id.
        now rewrite (proj1 (spawn_frame ph t s)) in Hid.
Qed.

Lemma outdated_nil (existing : list string) : outdated existing [] = existing.
Proof.
  unfold outdated. induction existing as [| n rest IH]; [reflexivity |].
  simpl in *. f_equal. exact IH.
Qed.



(** ** Where the raised errors come from *)

Lemma raise_in_catch (e e' : error) (s : state) :
  In (Raise e') (trace (catch e s)) -> e' = e \/ In (Raise e') (trace s).
Proof.
  unfold catch. destruct (retryable e); simpl.
  - intros [E | H]; [discriminate | now right].
  - intros [E | H]; [inversion E; now left | now right].
Qed.

Lemma raise_in_spawn_all (ph : phase) (ts : list (task tval)) (s : state) (e : error) :
  In (Raise e) (trace (spawn_all ph ts s)) -> In (Raise e) (trace s).
Proof. apply (proj1 (proj2 (spawn_all_trace ph ts s))). Qed.

Lemma raise_in_await_deletes (e' : error) (s : state) :
  In (Raise e') (trace (await_deletes s)) -> In (Raise e') (trace s).
Proof.
  unfold await_deletes. destruct (pending PDelete s); simpl; [trivial |].
  intros [E | H]; [discriminate | exact H].
Qed.

Lemma raise_in_delete_phase (params : value) (existing : list string) (e' : error)
    (s : state) :
  In (Raise e') (trace (delete_phase params existing s)) ->
  In (Raise e') (trace s) \/ ~ validation_error e'.
Proof.
  unfold delete_phase.
  destruct (getDataSourcesNames (resolvers params)) as [dsn | e] eqn:E.
  - rewrite removeOutdatedDataSources_plan. intros H.
    apply raise_in_await_deletes in H. left.
    now apply raise_in_spawn_all in H.
  - intros H. apply raise_in_catch in H. destruct H as [-> | H]; [| now left].
    right. apply not_validation_type_error. now apply getDataSourcesNames_error in E.
Qed.

Lemma raise_in_upsert_phase (cfg : config) (params : value)
    (q m existing : list string) (e' : error) (s : state) :
  In (Raise e') (trace (upsert_phase cfg params q m existing s)) ->
  In (Raise e') (trace s) \/ ~ validation_error e' \/ plan_error cfg params = Some e'.
Proof.
  unfold upsert_phase. rewrite upsert_types_plan. fold (plan_error cfg params).
  set (s1 := spawn_all PUpsert _ s).
  assert (H1 : In (Raise e') (trace s1) -> In (Raise e') (trace s)).
  { apply raise_in_spawn_all. }
  destruct (plan_error cfg params) as [e |].
  { intros H. apply raise_in_catch in H. destruct H as [-> | H]; auto. }
  rewrite delete_fields_plan. set (s2 := spawn_all PUpsert _ s1).
  assert (H2 : In (Raise e') (trace s2) -> In (Raise e') (trace s)).
  { intros H. apply H1. unfold s2 in H. now apply raise_in_spawn_all in H. }
  pose proof (delete_plan_error params "Query" q) as Hq.
  destruct (snd (delete_plan params "Query" q)) as [e |].
  { intros H. apply raise_in_catch in H. destruct H as [-> | H]; auto.
    right. left. apply not_validation_type_error. now apply Hq. }
  rewrite delete_fields_plan. set (s3 := spawn_all PUpsert _ s2).
  assert (H3 : In (Raise e') (trace s3) -> In (Raise e') (trace s)).
  { intros H. apply H2. unfold s3 in H. now apply raise_in_spawn_all in H. }
  pose proof (delete_plan_error params "Mutation" m) as Hm.
  destruct (snd (delete_plan params "Mutation" m)) as [e |].
  { intros H. apply raise_in_catch in H. destruct H as [-> | H]; auto.
    right. left. apply not_validation_type_error. now apply Hm. }
  unfold await_upserts. destruct (pending PUpsert s3); simpl; [auto |].
  intros H. apply raise_in_delete_phase in H. destruct H as [H | H]; auto.
Qed.

Lemma raise_in_begin (params : value) (e' : error) (s : state) :
  top_error params = None ->
  In (Raise e') (trace (begin params s)) -> In (Raise e') (trace s).
Proof.
  intros Htop. destruct (begin_state params s Htop) as [kq [km [kd [-> _]]]].
  simpl. intros [E | [E | [E | H]]]; try discriminate. exact H.
Qed.

Lemma raise_in_step (cfg : config) (params : value) (s : state)
    (c : nat * response) (e' : error) :
  core s -> top_error params = None ->
  In (Raise e') (trace (step cfg params s c)) ->
  In (Raise e') (trace s) \/ ~ validation_error e' \/ plan_error cfg params = Some e'.
Proof.
  intros Hc Htop. destruct c as [id r]. unfold step.
  destruct (take id (inflight s)) as [[cl rest] |] eqn:T; [| auto].
  destruct (negb (well_typed (c_op cl) r)); [auto |].
  destruct (take_spec _ _ _ _ T) as [_ [Hin _]].
  destruct (core_calls Hc cl Hin) as [_ [_ [Hk _]]]. specialize (Hk r).
  unfold task_ok in Hk. fold (settle_state s id r rest).
  assert (Hold : In (Raise e') (trace (settle_state s id r rest)) ->
                 In (Raise e') (trace s)).
  { simpl. intros [E | H]; [discriminate | exact H]. }
  destruct (c_k cl r) as [v | e | o k].
  - destruct (awaited cl _); [| auto]. unfold fulfilled.
    change (main (settle_state s id r rest)) with (main s).
    destruct (main s) as [q m d | ex | | | res].
    + assert (Hup : forall fs gs ns,
                 In (Raise e')
                   (trace (upsert_phase cfg params fs gs ns (settle_state s id r rest))) ->
                 In (Raise e') (trace s) \/ ~ validation_error e'
                 \/ plan_error cfg params = Some e').
      { intros fs gs ns H. apply raise_in_upsert_phase in H.
        destruct H as [H | H]; auto. }
      destruct v, q, m, d; first [apply Hup | auto].
    + destruct (pending PUpsert _); [auto |].
      intros H. apply raise_in_delete_phase in H. destruct H as [H | H]; auto.
    + destruct (pending PDelete _); [auto |]. simpl.
      intros [E | [E | H]]; try discriminate. now left.
    + unfold retry. intros H. apply raise_in_begin in H; [| exact Htop].
      simpl in H. destruct H as [E | H]; [discriminate | now left].
    + auto.
  - inversion Hk as [| e0 He |]; subst.
    destruct (awaited cl _); [| auto]. unfold rejected.
    change (main (settle_state s id r rest)) with (main s).
    assert (Hcatch : In (Raise e') (trace (catch e (settle_state s id r rest))) ->
                     In (Raise e') (trace s) \/ ~ validation_error e'
                     \/ plan_error cfg params = Some e').
    { intros H. apply raise_in_catch in H. destruct H as [-> | H]; auto. }
    destruct (main s); try exact Hcatch.
    simpl. intros [E | [E | H]]; try discriminate; [inversion E; subst |]; auto.
  - simpl. intros [E | [E | H]]; try discriminate. now left.
Qed.

(** Without a shape error in the desired state, no validation error is
    ever raised. *)
Lemma no_validation_error_raised (cfg : config) (params : value)
    (cs : list (nat * response)) :
  top_error params = None -> plan_error cfg params = None ->
  forall e, In (Raise e) (history (exec cfg params cs)) -> ~ validation_error e.
Proof.
  intros Htop Hplan.
  assert (H : forall s,
             inv cfg params s ->
             (forall e, In (Raise e) (trace s) -> ~ validation_error e) ->
             forall e, In (Raise e) (trace (fold_left (step cfg params) cs s)) ->
                       ~ validation_error e).
  { induction cs as [| c cs IH]; intros s Hs Hclean; simpl; [exact Hclean |].
    apply IH; [now apply inv_step |].
    intros e He. apply raise_in_step in He; [| apply Hs | exact Htop].
    destruct He as [He | [He | He]]; [now apply Hclean | exact He |].
    rewrite Hplan in He. discriminate. }
  intros e He. unfold history in He. apply in_rev in He.
  apply (H (start params)) in He; [exact He | now apply inv_start |].
  unfold start. intros e0 H0. apply raise_in_begin in H0; [| exact Htop].
  destruct H0.
Qed.

(** ** The run on [resolvers: null] *)

(** C10, amended. With [resolvers: null] (and [apiId], [roleName] given)
    the validation of lines 262-272 passes, the run starts fetching the
    existing state, and no run raises a validation error; when the API has
    no [Query] or [Mutation] resolver, the run raises nothing and issues
    [deleteDataSource] for every existing data-source name. *)
Theorem null_resolvers_delete_data_sources (cfg : config) (params : value) :
  truthy (apiId params) = true -> truthy (roleName params) = true ->
  resolvers params = VNull ->
  history (exec cfg params [])
  = [ Issue 0 0 (ListResolvers (apiId params) "Query");
      Issue 1 0 (ListResolvers (apiId params) "Mutation");
      Issue 2 0 (ListDataSources (apiId params)) ]
  /\ (forall cs e,
        In (Raise e) (history (exec cfg params cs)) -> ~ validation_error e)
  /\ forall rq rm names,
       no_resolvers rq -> no_resolvers rm ->
       let h := history (exec cfg params [(0, rq); (1, rm); (2, DataSources names)]) in
       (forall e, ~ In (Raise e) h)
       /\ (forall n, In n names ->
             exists id, In (Issue id 0 (DeleteDataSource (apiId params) n)) h).
Proof.
  intros Ha Hr Hn.
  assert (Htop : top_error params = None).
  { apply well_formed_top. unfold well_formed. now rewrite Ha, Hr, Hn. }
  split; [| split].
  { unfold exec, start. simpl.
    destruct (begin_state params idle Htop) as [kq [km [kd [-> _]]]]. reflexivity. }
  { intros cs. apply no_validation_error_raised; [exact Htop |].
    unfold plan_error. now rewrite Hn. }
  intros rq rm names Hq Hm h. subst h.
  unfold exec, start.
  destruct (begin_state params idle Htop) as [kq [km [kd [-> [_ [Hkq [Hkm Hkd]]]]]]].
  cbn [fold_left].
  match goal with
  | |- context [step cfg params ?s (0, rq)] => set (s0 := s)
  end.
  simpl in s0.
  assert (E1 : exists tr1,
             step cfg params s0 (0, rq)
             = {| attempt := 0; next_id := 3; trace := tr1;
                  inflight := [ snapshot_call 1 0 (ListResolvers (apiId params) "Mutation") km;
                                snapshot_call 2 0 (ListDataSources (apiId params)) kd ];
                  main := MSnapshot (Some []) None None |}
             /\ forall e, ~ In (Raise e) tr1).
  { eexists. unfold step. simpl.
    rewrite well_typed_no_resolvers, Hkq by assumption. simpl.
    split; [reflexivity |]. simpl. intros e H. intuition discriminate. }
  destruct E1 as [tr1 [-> Htr1]]. clear s0.
  match goal with
  | |- context [step cfg params ?s (1, rm)] => set (s1 := s)
  end.
  assert (E2 : exists tr2,
             step cfg params s1 (1, rm)
             = {| attempt := 0; next_id := 3; trace := tr2;
                  inflight := [ snapshot_call 2 0 (ListDataSources (apiId params)) kd ];
                  main := MSnapshot (Some []) (Some []) None |}
             /\ forall e, ~ In (Raise e) tr2).
  { eexists. unfold step. simpl.
    rewrite well_typed_no_resolvers, Hkm by assumption. simpl.
    split; [reflexivity |]. simpl. intros e [H | H]; [discriminate | now apply (Htr1 e)]. }
  destruct E2 as [tr2 [-> Htr2]]. clear s1.
  match goal with
  | |- context [step cfg params ?s (2, _)] => set (s2 := s)
  end.
  set (s3 := settle_state s2 2 (DataSources names) []).
  assert (E3 : step cfg params s2 (2, DataSources names)
               = await_deletes
                   (spawn_all PDelete (map (deleteDataSource (apiId params)) names) s3)).
  { subst s3 s2. unfold step, settle_state. simpl. rewrite Hkd.
    unfold fulfilled, upsert_phase. simpl.
    rewrite Hn. simpl. unfold await_upserts, delete_phase. simpl. rewrite Hn. simpl.
    now rewrite removeOutdatedDataSources_plan, outdated_nil. }
  rewrite E3. clear E3.
  destruct (spawn_all_trace PDelete (map (deleteDataSource (apiId params)) names) s3)
    as [Hmono [Hraise Hiss]].
  set (s4 := spawn_all PDelete (map (deleteDataSource (apiId params)) names) s3) in *.
  assert (Hsub : forall e, In e (trace s4) -> In e (trace (await_deletes s4))).
  { intros e He. unfold await_deletes. destruct (pending PDelete s4); simpl; auto. }
  split.
  - intros e He. unfold history in He. apply in_rev in He.
    unfold await_deletes in He. destruct (pending PDelete s4); simpl in He.
    + apply Hraise in He. simpl in He. destruct He as [E | He]; [discriminate |].
      now apply (Htr2 e).
    + destruct He as [E | He]; [discriminate |].
      apply Hraise in He. simpl in He. destruct He as [E | He]; [discriminate |].
      now apply (Htr2 e).
  - intros n Hin.
    destruct (Hiss (DeleteDataSource (apiId params) n)
                (fun r => bind (match r with
                                | Failed c m => Throw (ServiceError c m)
                                | _ => Ret r
                                end) (fun _ => Ret TVoid))) as [id Hid].
    { apply in_map_iff. exists n. split; [reflexivity | exact Hin]. }
    exists id. unfold history. apply -> in_rev. apply Hsub. exact Hid.
Qed.

(** ** The retry policy *)

Lemma history_cons2 (s : state) (e1 e2 : event) :
  rev (e2 :: e1 :: trace s) = history s ++ [e1; e2].
Proof. unfold history. simpl. now rewrite <- app_assoc. Qed.

(** C6. When a promise awaited inside the [try] block rejects with a
    [ConcurrentModificationException] whose message includes "Schema is
    currently being altered", the run issues [sleep(1000)] and, once the
    pause is over, starts the next attempt by fetching the existing state
    again; there is no bound on the number of attempts; every other error
    settles the caller's promise with that error, and nothing is
    retried. *)
Theorem conflict_restarts_run (cfg : config) (params : value) :
  (forall c m,
      retryable (ServiceError c m)
      = ((c =? "ConcurrentModificationException")
         && includes "Schema is currently being altered" m))
  /\ (forall m, retryable (JsError m) = false /\ retryable (JsTypeError m) = false)
  /\ (forall s id r e,
        settles s id r = Some (Error e) -> main s <> MSleep ->
        let s' := step cfg params s (id, r) in
        (retryable e = true ->
         main s' = MSleep /\ attempt s' = attempt s
         /\ history s'
            = history s ++ [Settle id r; Issue (next_id s) (attempt s) (Sleep 1000)])
        /\ (retryable e = false ->
            main s' = MDone (Some e)
            /\ history s' = history s ++ [Settle id r; Raise e]))
  /\ (forall e s,
        retryable e = false ->
        main (catch e s) = MDone (Some e) /\ trace (catch e s) = Raise e :: trace s)
  /\ (forall s id r v,
        main s = MSleep -> settles s id r = Some (Ok v) ->
        well_formed params ->
        let s' := step cfg params s (id, r) in
        attempt s' = S (attempt s) /\ main s' = MSnapshot None None None
        /\ history s'
           = history s ++
             [ Settle id r;
               Issue (next_id s) (S (attempt s)) (ListResolvers (apiId params) "Query");
               Issue (1 + next_id s) (S (attempt s))
                 (ListResolvers (apiId params) "Mutation");
               Issue (2 + next_id s) (S (attempt s)) (ListDataSources (apiId params)) ])
  /\ (well_formed params ->
      forall n, exists cs,
        attempt (exec cfg params cs) = n
        /\ main (exec cfg params cs) = MSnapshot None None None).
Proof.
  repeat apply conj.
  - reflexivity.
  - intros m. split; reflexivity.
  - intros s id r e Hs Hm s'. subst s'.
    rewrite (step_rejected cfg params s id r e Hs).
    assert (E : rejected e (settle_state s id r (rest_of s id))
                = catch e (settle_state s id r (rest_of s id))).
    { unfold rejected. simpl. destruct (main s); try reflexivity. contradiction. }
    rewrite E. unfold catch. split; intros Hr; rewrite Hr.
    + repeat split. apply history_cons2.
    + repeat split. apply history_cons2.
  - intros e s Hr. unfold catch. rewrite Hr. split; reflexivity.
  - intros s id r v Hm Hs Hwf s'. subst s'.
    pose proof (well_formed_top params Hwf) as Htop.
    rewrite (step_fulfilled cfg params s id r v Hs).
    unfold fulfilled. simpl main. rewrite Hm. unfold retry.
    match goal with
    | |- context [begin params ?s0] =>
        destruct (begin_state params s0 Htop) as [kq [km [kd [-> _]]]]
    end.
    simpl. repeat split. unfold history. simpl. now rewrite <- !app_assoc.
  - intros Hwf n. pose proof (well_formed_top params Hwf) as Htop.
    destruct (retries_unbounded cfg params Htop n) as [cs [s0 [E [Ha _]]]].
    exists cs. rewrite E.
    destruct (begin_state params s0 Htop) as [kq [km [kd [-> _]]]].
    simpl. split; [exact Ha | reflexivity].
Qed.

(** ** Concrete runs *)

Ltac in_list := vm_compute; repeat (first [left; reflexivity | right]).

(** C1. Two desired resolvers whose specs are equal once [type], [field],
    [request] and [response] are left out: the run issues the data-source
    provisioning call once per resolver, twice for the shared key. *)
Theorem shared_data_source_provisioned_twice :
  cacheKey (spec_params Example.shared Example.getUser "Query" "getUser")
  = cacheKey (spec_params Example.shared Example.listUsers "Query" "listUsers")
  /\ data_source_calls (history (exec Example.cfg Example.shared Example.shared_run))
     = [UpdateDataSource Example.usersFn; UpdateDataSource Example.usersFn]
  /\ main (exec Example.cfg Example.shared Example.shared_run) = MDone None.
Proof. repeat split; vm_compute; reflexivity. Qed.

(** C2. The desired resolver [Query.getUser] is provisioned on the HTTP
    data source [my_ds]; the same run then deletes [my_ds], because
    [getDataSourcesNames] lists it as [myds]. *)
Theorem referenced_data_source_deleted :
  getDataSourcesNames (resolvers Example.http) = Ok ["myds"]
  /\ history (exec Example.cfg Example.http Example.http_run)
     = [ Issue 0 0 (ListResolvers Example.api "Query");
         Issue 1 0 (ListResolvers Example.api "Mutation");
         Issue 2 0 (ListDataSources Example.api);
         Settle 0 (Resolvers ["getUser"]);
         Settle 1 (Resolvers []);
         Settle 2 (DataSources ["my_ds"]);
         Issue 3 0 (GetRoleArn (VStr "role"));
         Settle 3 (Arn "arn:role");
         Issue 4 0 (UpdateDataSource Example.my_ds);
         Settle 4 (DataSource "arn:ds" "my_ds");
         Issue 5 0 (UpdateResolver Example.http_resolver);
         Settle 5 Done;
         Issue 6 0 (DeleteDataSource Example.api "my_ds") ].
Proof. split; vm_compute; reflexivity. Qed.

(** C3 as stated fails: the delete of [Query.oldField] is issued while the
    upsert of [Query.getUser] has not yet issued its [updateDataSource]. *)
Lemma resolver_delete_issued_with_upserts :
  ~ upserts_settle_before_deletes
      (history (exec Example.cfg Example.one Example.one_run)).
Proof.
  intros H.
  set (h := history (exec Example.cfg Example.one Example.one_run)) in *.
  destruct (H (firstn 7 h) (skipn 8 h) 4 0
              (DeleteResolver Example.api "oldField" "Query")
              eq_refl eq_refl 6 (UpdateDataSource Example.usersFn) eq_refl)
    as [Hin _].
  - in_list.
  - vm_compute in Hin. intuition discriminate.
Qed.

(** C4 as stated fails: the error for [resolvers.Query.broken] is raised
    after the three list calls and a role lookup were issued. *)
Lemma nested_validation_after_snapshot :
  ~ validation_before_any_call
      (history (exec Example.cfg Example.malformed Example.malformed_run)).
Proof.
  intros H.
  set (h := history (exec Example.cfg Example.malformed Example.malformed_run)) in *.
  apply (H (firstn 7 h) [] (JsError (msg_field "Query" "broken")) eq_refl
           (ve_field "Query" "broken") 0 0 (ListResolvers Example.api "Query")).
  in_list.
Qed.

(** C10 as stated fails: with an existing resolver, [resolvers: null]
    makes line 306 throw a [TypeError]; no delete is scheduled. *)
Lemma null_with_existing_resolver_throws :
  ~ null_deletes_everything Example.cfg Example.null ["getUser"] [] ["usersFn"].
Proof.
  intros [_ [H _]]. destruct (H "getUser" (or_introl eq_refl)) as [id Hin].
  vm_compute in Hin. intuition discriminate.
Qed.

Lemma null_with_existing_resolver_history :
  history (exec Example.cfg Example.null Example.null_run)
  = [ Issue 0 0 (ListResolvers Example.api "Query");
      Issue 1 0 (ListResolvers Example.api "Mutation");
      Issue 2 0 (ListDataSources Example.api);
      Settle 0 (Resolvers ["getUser"]);
      Settle 1 (Resolvers []);
      Settle 2 (DataSources ["usersFn"]);
      Raise (JsTypeError "Cannot read properties of null") ].
Proof. vm_compute. reflexivity. Qed.

(** The resolver started before the malformed entry goes on after the
    error was raised: its [updateDataSource] follows the [Raise]. *)
Lemma started_resolver_goes_on_after_error :
  skipn 7 (history (exec Example.cfg Example.malformed
                      (Example.malformed_run ++ [(3, Arn "arn:role"); (4, Arn "arn:fn")])))
  = [ Raise (JsError (msg_field "Query" "broken"));
      Settle 3 (Arn "arn:role");
      Issue 4 0 (GetLambdaArn (VStr "usersFn"));
      Settle 4 (Arn "arn:fn");
      Issue 5 0 (UpdateDataSource Example.usersFn) ].
Proof. vm_compute. reflexivity. Qed.

(** A call of an attempt that was given up stays in flight: here the
    second attempt issues its data-source delete (call 14) while the
    resolver delete of the first attempt (call 4) has not settled. *)
Lemma earlier_attempt_still_in_flight :
  let h := history (exec Example.cfg Example.one Example.locked_run) in
  In (Issue 4 0 (DeleteResolver Example.api "oldField" "Query")) h
  /\ ~ In 4 (settled_calls h)
  /\ In (Issue 10 1 (DeleteResolver Example.api "oldField" "Query")) h
  /\ In 10 (settled_calls h)
  /\ In (Issue 14 1 (DeleteDataSource Example.api "oldDs")) h.
Proof.
  intros h. split; [| split; [| split; [| split]]].
  - in_list.
  - intros H. vm_compute in H. intuition discriminate.
  - in_list.
  - in_list.
  - in_list.
Qed.

(** ** The theorems at concrete inputs *)

Lemma upserts_settle_before_data_source_deletes_witness :
  let h := history (exec Example.cfg Example.one Example.one_run) in
  In (Issue 6 0 (UpdateDataSource Example.usersFn)) (firstn 16 h)
  /\ exists r, In (Settle 6 r) (firstn 16 h).
Proof.
  intros h.
  apply (upserts_settle_before_data_source_deletes Example.cfg Example.one
           Example.one_run (firstn 16 h) (skipn 17 h) 8 0 Example.api "oldDs").
  - vm_compute. reflexivity.
  - reflexivity.
  - in_list.
Defined.

Lemma resolver_deletes_settle_before_data_source_deletes_witness :
  let h := history (exec Example.cfg Example.one Example.one_run) in
  In (Issue 4 0 (DeleteResolver Example.api "oldField" "Query")) (firstn 16 h)
  /\ exists r, In (Settle 4 r) (firstn 16 h).
Proof.
  intros h.
  apply (resolver_deletes_settle_before_data_source_deletes Example.cfg Example.one
           Example.one_run (firstn 16 h) (skipn 17 h) 8 0 Example.api "oldDs").
  - vm_compute. reflexivity.
  - in_list.
Defined.

Lemma validation_precedes_mutation_witness :
  history (exec Example.cfg Example.missing []) = [Raise (JsError msg_apiId)]
  /\ history (exec Example.cfg Example.no_role []) = [Raise (JsError msg_roleName)]
  /\ history (exec Example.cfg Example.no_resolvers_object [])
     = [Raise (JsError msg_resolvers)]
  /\ mutating (GetRoleArn (VStr "role")) = false.
Proof.
  repeat apply conj.
  - apply (proj1 (proj1 (validation_precedes_mutation Example.cfg Example.missing [])
                    _ eq_refl)).
    reflexivity.
  - apply (proj1 (proj2 (proj1 (validation_precedes_mutation Example.cfg
                                  Example.no_role []) _ eq_refl)));
      reflexivity.
  - apply (proj2 (proj2 (proj1 (validation_precedes_mutation Example.cfg
                                  Example.no_resolvers_object []) _ eq_refl)));
      try reflexivity. discriminate.
  - set (h := history (exec Example.cfg Example.malformed Example.malformed_run)).
    apply (proj2 (validation_precedes_mutation Example.cfg Example.malformed
                    Example.malformed_run)
             (firstn 7 h) [] (JsError (msg_field "Query" "broken")) eq_refl
             (ve_field "Query" "broken") 3 0).
    in_list.
Defined.

Lemma dataSource_kind_priority_witness :
  (exists p,
      run (deployAppSyncDataSource Example.cfg Example.both) [Arn "arn:role"; Arn "arn:fn"]
      = ([GetRoleArn (VStr "role"); GetLambdaArn (VStr "usersFn"); UpdateDataSource p],
         None)
      /\ ds_type p = "AWS_LAMBDA" /\ ds_name p = VStr "usersFn"
      /\ ds_config p = lambdaConfig "arn:fn")
  /\ (exists p,
        run (deployAppSyncDataSource Example.cfg Example.table) [Arn "arn:role"]
        = ([GetRoleArn (VStr "role"); UpdateDataSource p], None)
        /\ ds_type p = "AMAZON_DYNAMODB" /\ ds_name p = VStr "userstable")
  /\ (exists p,
        run (deployAppSyncDataSource Example.cfg Example.http_spec) [Arn "arn:role"]
        = ([GetRoleArn (VStr "role"); UpdateDataSource p], None)
        /\ ds_type p = "HTTP" /\ ds_name p = VStr "my_ds")
  /\ (exists p,
        run (deployAppSyncDataSource Example.cfg Example.search) [Arn "arn:role"]
        = ([GetRoleArn (VStr "role"); UpdateDataSource p], None)
        /\ ds_type p = "AMAZON_ELASTICSEARCH" /\ ds_name p = VStr "search")
  /\ (exists p,
        run (deployAppSyncDataSource Example.cfg Example.relational) [Arn "arn:role"]
        = ([GetRoleArn (VStr "role"); UpdateDataSource p], None)
        /\ ds_type p = "RELATIONAL_DATABASE" /\ ds_name p = VStr "usersdb")
  /\ run (deployAppSyncDataSource Example.cfg Example.none) [Arn "arn:role"]
     = ([GetRoleArn (VStr "role")],
        Some (Error (JsError (msg_no_data_source Example.none)))).
Proof.
  repeat apply conj.
  - apply (proj1 (dataSource_kind_priority Example.cfg Example.both "arn:role")
             eq_refl "usersFn" "arn:fn" eq_refl).
  - apply (proj1 (proj2 (dataSource_kind_priority Example.cfg Example.table "arn:role"))
             eq_refl eq_refl "userstable" eq_refl).
  - apply (proj1 (proj2 (proj2
             (dataSource_kind_priority Example.cfg Example.http_spec "arn:role"))));
      reflexivity.
  - apply (proj1 (proj2 (proj2 (proj2
             (dataSource_kind_priority Example.cfg Example.search "arn:role")))));
      reflexivity.
  - apply (proj1 (proj2 (proj2 (proj2 (proj2
             (dataSource_kind_priority Example.cfg Example.relational "arn:role")))))
             eq_refl eq_refl eq_refl eq_refl eq_refl (VStr "usersdb")).
    simpl. exists "usersdb". split; reflexivity.
  - apply (proj2 (proj2 (proj2 (proj2 (proj2
             (dataSource_kind_priority Example.cfg Example.none "arn:role"))))));
      reflexivity.
Defined.

Lemma conflict_restarts_run_witness :
  main (step Example.cfg Example.one (start Example.one) (0, conflict)) = MSleep
  /\ main (step Example.cfg Example.one (start Example.one)
             (0, Failed "AccessDeniedException" "denied"))
     = MDone (Some Example.access_denied)
  /\ attempt (exec Example.cfg Example.one [(0, conflict); (3, Done)]) = 1
  /\ exists cs, attempt (exec Example.cfg Example.one cs) = 2
                /\ main (exec Example.cfg Example.one cs) = MSnapshot None None None.
Proof.
  destruct (conflict_restarts_run Example.cfg Example.one)
    as [_ [_ [Hrej [_ [Hwake Hmany]]]]].
  repeat apply conj.
  - apply (Hrej (start Example.one) 0 conflict
             (ServiceError "ConcurrentModificationException"
                "Schema is currently being altered")); [reflexivity | discriminate |].
    reflexivity.
  - apply (Hrej (start Example.one) 0 (Failed "AccessDeniedException" "denied")
             Example.access_denied); [reflexivity | discriminate |].
    reflexivity.
  - apply (Hwake (exec Example.cfg Example.one [(0, conflict)]) 3 Done TVoid);
      try reflexivity. repeat split.
  - apply Hmany. repeat split.
Defined.

Lemma upsertDataSource_fallbacks_witness :
  run (upsertDataSource Example.usersFn)
    [Failed "NotFoundException" "x";
     Failed "BadRequestException" "Data source with name usersFn already exists"]
  = ([UpdateDataSource Example.usersFn; CreateDataSource Example.usersFn;
      UpdateDataSource Example.usersFn], None)
  /\ run (upsertDataSource Example.usersFn) [Failed "AccessDeniedException" "denied"]
     = ([UpdateDataSource Example.usersFn], Some (Error Example.access_denied))
  /\ run (upsertDataSource Example.usersFn)
       [Failed "NotFoundException" "x"; Failed "AccessDeniedException" "denied"]
     = ([UpdateDataSource Example.usersFn; CreateDataSource Example.usersFn],
        Some (Error Example.access_denied))
  /\ run (deployAppSyncResolver Example.cfg Example.both)
       ([Arn "arn:role"; Arn "arn:fn"] ++ [Failed "AccessDeniedException" "denied"])
     = ([GetRoleArn (VStr "role"); GetLambdaArn (VStr "usersFn")]
        ++ [UpdateDataSource Example.usersFn],
        Some (Error Example.access_denied)).
Proof.
  destruct (upsertDataSource_fallbacks Example.usersFn)
    as [_ [_ [_ [_ [Hexists [Hother [Hcreate Hprop]]]]]]].
  repeat apply conj.
  - apply (Hexists "x" "Data source with name usersFn already exists"). reflexivity.
  - apply Hother. discriminate.
  - apply Hcreate. discriminate.
  - apply (Hprop Example.cfg Example.both [Arn "arn:role"; Arn "arn:fn"]
             [GetRoleArn (VStr "role"); GetLambdaArn (VStr "usersFn")]
             [Failed "AccessDeniedException" "denied"]
             [UpdateDataSource Example.usersFn] Example.access_denied);
      reflexivity.
Defined.

Lemma listResolvers_not_found_is_empty_witness :
  run (listResolvers Example.api "Mutation") [Failed "AccessDeniedException" "denied"]
  = ([ListResolvers Example.api "Mutation"], Some (Error Example.access_denied)).
Proof.
  apply (proj1 (proj2 (listResolvers_not_found_is_empty Example.api "Mutation"))).
  discriminate.
Defined.

Lemma null_resolvers_delete_data_sources_witness :
  history (exec Example.cfg Example.null [])
  = [ Issue 0 0 (ListResolvers Example.api "Query");
      Issue 1 0 (ListResolvers Example.api "Mutation");
      Issue 2 0 (ListDataSources Example.api) ]
  /\ ~ validation_error (JsTypeError "Cannot read properties of null")
  /\ exists id,
       In (Issue id 0 (DeleteDataSource Example.api "usersFn"))
         (history (exec Example.cfg Example.null
                     [(0, Resolvers []); (1, Failed "NotFoundException" "x");
                      (2, DataSources ["usersFn"])])).
Proof.
  destruct (null_resolvers_delete_data_sources Example.cfg Example.null
              eq_refl eq_refl eq_refl) as [Htop [Hraise Hrun]].
  split; [exact Htop | split].
  - apply (Hraise Example.null_run). in_list.
  - apply (Hrun (Resolvers []) (Failed "NotFoundException" "x") ["usersFn"]).
    + now left.
    + right. now exists "x".
    + now left.
Defined.

(** * Further properties of the module *)

(** ** [getDataSourceName] *)

Lemma strip_all_alnum (s : string) : all_alnum (strip s) = true.
Proof.
  induction s as [| c s IH]; simpl; [reflexivity |].
  destruct (is_alnum c) eqn:E; [| exact IH]. simpl. now rewrite E, IH.
Qed.

Lemma strip_fixed (s : string) : all_alnum s = true -> strip s = s.
Proof.
  induction s as [| c s IH]; simpl; [reflexivity |].
  intros H. apply andb_true_iff in H. destruct H as [Hc Hs].
  now rewrite Hc, (IH Hs).
Qed.

Lemma strip_app (a b : string) : strip (a ++ b) = (strip a ++ strip b)%string.
Proof.
  induction a as [| c a IH]; simpl; [reflexivity |].
  destruct (is_alnum c); simpl; now rewrite IH.
Qed.

(** X1. [getDataSourceName] succeeds on strings only; the name it returns
    holds letters and digits only, and is a fixed point: deriving the name
    of a name gives the same name. *)
Theorem getDataSourceName_alphanumeric (v : value) (n : string) :
  getDataSourceName v = Ok n ->
  (exists s, v = VStr s /\ n = strip s)
  /\ all_alnum n = true
  /\ getDataSourceName (VStr n) = Ok n.
Proof.
  destruct v; simpl; try discriminate. intros E. inversion E; subst.
  split; [now exists s |]. split; [apply strip_all_alnum |].
  f_equal. apply strip_fixed. apply strip_all_alnum.
Qed.

(** X2. Two names that differ only by characters other than letters and
    digits get the same data-source name (the limitation noted at
    line 84). *)
Theorem getDataSourceName_collides (a b : string) (c : ascii) :
  is_alnum c = false ->
  getDataSourceName (VStr (a ++ String c b)) = getDataSourceName (VStr (a ++ b)).
Proof.
  intros Hc. simpl. f_equal. rewrite !strip_app. simpl. now rewrite Hc.
Qed.

(** ** [updateAppSyncResolver] and [createAppSyncResolver] *)

(** X3. The handlers of [updateAppSyncResolver] and
    [createAppSyncResolver] mask nothing: both functions behave as the
    bare remote call, whatever the answer. *)
Theorem resolver_calls_mask_nothing (p : resolverParams) (rs : list response) :
  run (updateAppSyncResolver p) rs = run (await (UpdateResolver p)) rs
  /\ run (createAppSyncResolver p) rs = run (await (CreateResolver p)) rs.
Proof.
  split; destruct rs as [| r rest]; simpl; try reflexivity;
    destruct r as [c m | | | | |]; simpl; try reflexivity;
    match goal with |- context [if ?b then _ else _] => destruct b end; reflexivity.
Qed.

Lemma getDataSourceName_alphanumeric_witness :
  all_alnum "userstable" = true
  /\ getDataSourceName (VStr "userstable") = Ok "userstable".
Proof.
  exact (proj2 (getDataSourceName_alphanumeric (VStr "users-table") "userstable"
                  eq_refl)).
Defined.

Lemma getDataSourceName_collides_witness :
  getDataSourceName (VStr "users-posts") = getDataSourceName (VStr "usersposts").
Proof.
  exact (getDataSourceName_collides "users" "posts" "-" eq_refl).
Defined.

(** ** [deployAppSyncResolver] *)

Lemma run_update_failed (p : resolverParams) (h : error -> task response)
    (c m : string) (rs : list response) :
  run (try_catch (updateAppSyncResolver p) h) (Failed c m :: rs)
  = (UpdateResolver p :: fst (run (h (ServiceError c m)) rs),
     snd (run (h (ServiceError c m)) rs)).
Proof.
  unfold updateAppSyncResolver, await. cbn [try_catch run].
  match goal with |- context [if ?b then _ else _] => destruct b end;
    cbn [try_catch]; now destruct (run (h (ServiceError c m)) rs).
Qed.

Lemma run_create (p : resolverParams) (r : response) :
  run (createAppSyncResolver p) [r]
  = ([CreateResolver p],
     Some match r with Failed c m => Error (ServiceError c m) | _ => Ok r end).
Proof.
  unfold createAppSyncResolver, await. cbn [try_catch run].
  destruct r; cbn [try_catch run]; try reflexivity.
  match goal with |- context [if ?b then _ else _] => destruct b end; reflexivity.
Qed.

(** X4. Once the data source is provisioned under the name [n] the
    service returned, [deployAppSyncResolver] updates the resolver with
    that name; it creates the resolver, with the same parameters, exactly
    when the update fails with [NotFoundException] and a message holding
    "No resolver found"; the answer of the create call, and any other
    update failure, is the outcome. *)
Theorem deployAppSyncResolver_update_then_create
    (cfg : config) (params : obj) (rs0 : list response) (ops0 : list op)
    (arn n : string) :
  run (deployAppSyncDataSource cfg params) rs0 = (ops0, Some (Ok (arn, n))) ->
  length ops0 = length rs0 ->
  let p := resolverParams_of params n in
  let deploy := deployAppSyncResolver cfg params in
  r_dataSourceName p = n
  /\ run deploy rs0 = (ops0 ++ [UpdateResolver p], None)
  /\ (forall r, (forall c m, r <> Failed c m) ->
        run deploy (rs0 ++ [r]) = (ops0 ++ [UpdateResolver p], Some (Ok r)))
  /\ (forall c m,
        (c =? "NotFoundException") && includes "No resolver found" m = false ->
        run deploy (rs0 ++ [Failed c m])
        = (ops0 ++ [UpdateResolver p], Some (Error (ServiceError c m))))
  /\ (forall m r,
        includes "No resolver found" m = true ->
        run deploy (rs0 ++ [Failed "NotFoundException" m; r])
        = (ops0 ++ [UpdateResolver p; CreateResolver p],
           Some match r with
                | Failed c' m' => Error (ServiceError c' m')
                | _ => Ok r
                end)).
Proof.
  intros Hrun Hlen p deploy. subst deploy. unfold deployAppSyncResolver.
  split; [reflexivity |].
  pose proof (fun rs' => run_bind_ok (deployAppSyncDataSource cfg params)
    (fun ds => try_catch (updateAppSyncResolver (resolverParams_of params (snd ds)))
       (fun e => if code_is e "NotFoundException"
                    && includes "No resolver found" (message e)
                 then createAppSyncResolver (resolverParams_of params (snd ds))
                 else Throw e)) rs0 ops0 (arn, n) rs' Hrun Hlen) as Hb.
  cbn [snd] in Hb. fold p in Hb.
  split; [| split; [| split]].
  - specialize (Hb []). rewrite app_nil_r in Hb. rewrite Hb. reflexivity.
  - intros r Hr. rewrite Hb. destruct r as [c m | | | | |]; try reflexivity.
    now destruct (Hr c m).
  - intros c m Hc. rewrite Hb, run_update_failed.
    cbn [code_is message]. rewrite Hc. reflexivity.
  - intros m r Hm. rewrite Hb, run_update_failed.
    assert (E : code_is (ServiceError "NotFoundException" m) "NotFoundException"
                && includes "No resolver found"
                     (message (ServiceError "NotFoundException" m)) = true)
      by (cbn [code_is message]; rewrite Hm; reflexivity).
    rewrite E, run_create. reflexivity.
Qed.

Lemma deployAppSyncResolver_update_then_create_witness :
  let p := resolverParams_of Example.http_spec "my_ds" in
  run (deployAppSyncResolver Example.cfg Example.http_spec)
    [Arn "arn:role"; DataSource "arn:ds" "my_ds";
     Failed "NotFoundException" "No resolver found"; Done]
  = ([GetRoleArn (VStr "role"); UpdateDataSource Example.my_ds;
      UpdateResolver p; CreateResolver p], Some (Ok Done)).
Proof.
  intros p.
  refine (proj2 (proj2 (proj2 (proj2
    (deployAppSyncResolver_update_then_create Example.cfg Example.http_spec
       [Arn "arn:role"; DataSource "arn:ds" "my_ds"]
       [GetRoleArn (VStr "role"); UpdateDataSource Example.my_ds]
       "arn:ds" "my_ds" _ _)))) "No resolver found" Done _);
    reflexivity.
Defined.

(** ** [listResolvers]: the keys of the object built by [reduce] *)

Lemma mem_In (k : string) (l : list string) : mem k l = true <-> In k l.
Proof.
  unfold mem. rewrite existsb_exists. split.
  - intros [x [Hx E]]. apply String.eqb_eq in E. now subst.
  - intros H. exists k. split; [exact H | apply String.eqb_refl].
Qed.

Lemma mem_false (k : string) (l : list string) : mem k l = false <-> ~ In k l.
Proof.
  rewrite <- mem_In. destruct (mem k l); split; intros H; congruence.
Qed.

Lemma fold_add_key (names : list string) :
  forall acc,
    NoDup acc ->
    NoDup (fold_left add_key names acc)
    /\ forall k, In k (fold_left add_key names acc) <-> In k acc \/ In k names.
Proof.
  induction names as [| n names IH]; intros acc Hacc; simpl.
  - split; [exact Hacc | intros k; tauto].
  - unfold add_key at 2 4. destruct (mem n acc) eqn:E.
    + destruct (IH acc Hacc) as [Hnd Hin]. split; [exact Hnd |].
      intros k. rewrite Hin. apply mem_In in E. split; [tauto |].
      intros [H | [<- | H]]; auto.
    + apply mem_false in E.
      assert (Hacc' : NoDup (acc ++ [n])).
      { apply NoDup_app; [exact Hacc | repeat constructor; simpl; tauto |].
        intros x Hx [<- | []]. now apply E. }
      destruct (IH _ Hacc') as [Hnd Hin]. split; [exact Hnd |].
      intros k. rewrite Hin, in_app_iff. simpl. tauto.
Qed.

(** X5. The existing resolvers of a type, as [listResolvers] returns
    them, are the field names of the response without repetition: a
    name listed twice counts once. *)
Theorem listResolvers_keys (apiId : value) (typeName : string)
    (fieldNames : list string) :
  exists keys,
    run (listResolvers apiId typeName) [Resolvers fieldNames]
    = ([ListResolvers apiId typeName], Some (Ok keys))
    /\ NoDup keys
    /\ forall k, In k keys <-> In k fieldNames.
Proof.
  exists (fold_left add_key fieldNames []). split; [reflexivity |].
  destruct (fold_add_key fieldNames [] (NoDup_nil _)) as [Hnd Hin].
  split; [exact Hnd |]. intros k. rewrite Hin. simpl. tauto.
Qed.

(** ** [getDataSourcesNames] *)

Lemma dataSourcesNames_fields_spec (fields : obj) :
  forall acc ns,
    dataSourcesNames_fields fields acc = Ok ns
    <-> exists ns', ns = acc ++ ns'
                    /\ Forall2 (fun fs n => entry_name (snd fs) = Ok n) fields ns'.
Proof.
  induction fields as [| [f spec] rest IH]; intros acc ns; simpl.
  - split.
    + intros E. inversion E; subst. exists []. rewrite app_nil_r. now split.
    + intros [ns' [-> H]]. inversion H; subst. now rewrite app_nil_r.
  - assert (Hcons : forall n,
       entry_name spec = Ok n ->
       (dataSourcesNames_fields rest (acc ++ [n]) = Ok ns
        <-> exists ns', ns = acc ++ ns'
              /\ Forall2 (fun fs n => entry_name (snd fs) = Ok n)
                   ((f, spec) :: rest) ns')).
    { intros n Hn. rewrite IH. split.
      - intros [ns' [-> H]]. exists (n :: ns'). rewrite <- app_assoc. split; auto.
      - intros [ns' [-> H]]. inversion H as [| x y l l' Hy Hl]; subst.
        simpl in Hy. rewrite Hn in Hy. inversion Hy; subst.
        exists l'. rewrite <- app_assoc. split; auto. }
    assert (Hfail : forall e,
       entry_name spec = Error e ->
       ~ exists ns', ns = acc ++ ns'
              /\ Forall2 (fun fs n => entry_name (snd fs) = Ok n)
                   ((f, spec) :: rest) ns').
    { intros e He [ns' [_ H]]. inversion H; subst. simpl in *. congruence. }
    unfold entry_name in Hcons, Hfail. fold (listed spec).
    destruct spec;
      try (destruct (getDataSourceName (listed _)) as [n | e] eqn:E;
           [now apply Hcons | split; [discriminate | intros H; now destruct (Hfail e eq_refl)]]);
      (split; [discriminate | intros H; now destruct (Hfail _ eq_refl)]).
Qed.

Lemma dataSourcesNames_types_spec (types : obj) :
  forall acc ns,
    dataSourcesNames_types types acc = Ok ns
    <-> exists ns', ns = acc ++ ns'
                    /\ Forall2 (fun e n => entry_name (snd e) = Ok n)
                         (entries (VObj types)) ns'.
Proof.
  unfold entries. simpl.
  induction types as [| [t fields] rest IH]; intros acc ns; simpl.
  - split.
    + intros E. inversion E; subst. exists []. rewrite app_nil_r. now split.
    + intros [ns' [-> H]]. inversion H; subst. now rewrite app_nil_r.
  - destruct (dataSourcesNames_fields (props_of fields) acc) as [acc' | e] eqn:E.
    + apply dataSourcesNames_fields_spec in E. destruct E as [l1 [-> H1]].
      rewrite IH. split.
      * intros [l2 [-> H2]]. exists (l1 ++ l2). rewrite app_assoc. split; [reflexivity |].
        apply Forall2_app; [| exact H2].
        clear - H1. induction H1; simpl; constructor; auto.
      * intros [ns' [-> H]]. apply Forall2_app_inv_l in H.
        destruct H as [l1' [l2 [Ha [Hb ->]]]].
        assert (l1' = l1).
        { clear - H1 Ha. revert l1' Ha. induction H1 as [| x y l l' Hxy Hl IHl];
            intros l1' Ha; simpl in Ha; inversion Ha; subst; [reflexivity |].
          simpl in *. f_equal; [congruence | now apply IHl]. }
        subst. exists l2. rewrite app_assoc. now split.
    + split; [discriminate |]. intros [ns' [-> H]].
      apply Forall2_app_inv_l in H. destruct H as [l1 [l2 [Ha [_ ->]]]].
      assert (Hf : dataSourcesNames_fields (props_of fields) acc = Ok (acc ++ l1)).
      { apply dataSourcesNames_fields_spec. exists l1. split; [reflexivity |].
        clear - Ha. remember (map _ (props_of fields)) as m eqn:Em.
        revert Em. generalize (props_of fields).
        induction Ha; intros [| fs o] Em; simpl in Em; inversion Em; subst;
          constructor; auto. }
      congruence.
Qed.

(** X6. On a desired state that passed the checks of lines 270 and 284,
    [getDataSourcesNames] returns one name per resolver entry, in entry
    order and with repetitions: the name of [name || lambda || table ||
    database]; it returns a list exactly when every entry has such a
    name. *)
Theorem getDataSourcesNames_one_name_per_entry (resolvers : value)
    (names : list string) :
  checked resolvers = true ->
  (getDataSourcesNames resolvers = Ok names
   <-> Forall2 (fun e n => entry_name (snd e) = Ok n) (entries resolvers) names).
Proof.
  intros _. unfold getDataSourcesNames.
  assert (E : entries resolvers = entries (VObj (props_of resolvers)))
    by now destruct resolvers.
  rewrite E, dataSourcesNames_types_spec. simpl. split.
  - now intros [ns' [-> H]].
  - intros H. now exists names.
Qed.

Lemma getDataSourcesNames_one_name_per_entry_witness :
  getDataSourcesNames (resolvers Example.shared) = Ok ["usersFn"; "usersFn"].
Proof.
  apply (proj2 (getDataSourcesNames_one_name_per_entry
                  (resolvers Example.shared) ["usersFn"; "usersFn"] eq_refl)).
  repeat constructor.
Defined.

(** ** The DynamoDB payload of [deployAppSyncDataSource] *)

(** X7. The [deltaSyncConfig] member of a DynamoDB data source is left
    out exactly when none of [ttl], [syncTable] and [syncTableTtl] is
    truthy; when present it carries each of the three that is truthy
    and no other member. *)
Theorem deltaSync_only_truthy_members (params : obj) :
  let member (k : string) : option value :=
    if truthy (lookup k params) then Some (lookup k params) else None in
  (deltaSync_of params = None
   <-> truthy (lookup "ttl" params) = false
       /\ truthy (lookup "syncTable" params) = false
       /\ truthy (lookup "syncTableTtl" params) = false)
  /\ forall d, deltaSync_of params = Some d ->
       baseTableTTL d = member "ttl"
       /\ deltaSyncTableName d = member "syncTable"
       /\ deltaSyncTableTTL d = member "syncTableTtl".
Proof.
  intros member. subst member. unfold deltaSync_of. cbv zeta.
  destruct (truthy (lookup "ttl" params)),
           (truthy (lookup "syncTable" params)),
           (truthy (lookup "syncTableTtl" params)); simpl;
    (split; [split; [intros E; discriminate || auto | intros [A [B C]]; discriminate || auto]
            | intros d E; inversion E; subst; simpl; auto]).
Qed.

(** ** What a run can issue *)

Lemma in_entries (v : value) (type field : string) (spec : value) :
  In (type, field, spec) (entries v)
  <-> exists fields, In (type, fields) (props_of v) /\ In (field, spec) (props_of fields).
Proof.
  unfold entries. rewrite in_flat_map. split.
  - intros [[t fields] [Hin H]]. apply in_map_iff in H.
    destruct H as [[f sp] [E Hf]]. simpl in E. inversion E; subst.
    now exists fields.
  - intros [fields [Ht Hf]]. exists (type, fields). split; [exact Ht |].
    apply in_map_iff. now exists (field, spec).
Qed.

Lemma issues_spawn (P : op -> Prop) (ph : phase) (t : task tval) (s : state) :
  task_all P (fun _ => True) t -> issues_only P s -> issues_only P (spawn ph t s).
Proof.
  intros Ht [Htr Hfl]. destruct Ht as [a | e _ | o k Ho Hk]; simpl; try now split.
  split; simpl.
  - intros id a o' [E | H]; [inversion E; now subst | now apply (Htr id a)].
  - intros c Hc. apply in_app_iff in Hc. destruct Hc as [Hc | [<- | []]];
      [now apply Hfl | exact Hk].
Qed.

Lemma issues_spawn_all (P : op -> Prop) (ph : phase) (ts : list (task tval))
    (s : state) :
  Forall (task_all P (fun _ => True)) ts -> issues_only P s ->
  issues_only P (spawn_all ph ts s).
Proof.
  apply (spawn_all_ind ph (issues_only P) (task_all P (fun _ => True))).
  intros t s0. apply issues_spawn.
Qed.

Lemma issues_same (P : op -> Prop) (s s' : state) :
  (forall id a o, In (Issue id a o) (trace s') -> In (Issue id a o) (trace s)) ->
  (forall c, In c (inflight s') -> In c (inflight s)) ->
  issues_only P s -> issues_only P s'.
Proof.
  intros Htr Hfl [H1 H2]. split.
  - intros id a o H. apply (H1 id a). now apply Htr.
  - intros c Hc. apply H2. now apply Hfl.
Qed.

Lemma issues_raise (P : op -> Prop) (e : error) (s : state) :
  issues_only P s -> issues_only P (raise e s).
Proof.
  apply issues_same; simpl; [| auto]. intros id a o [E | H]; [discriminate | exact H].
Qed.

Lemma issues_finish (P : op -> Prop) (s : state) :
  issues_only P s -> issues_only P (finish s).
Proof.
  apply issues_same; simpl; [| auto]. intros id a o [E | H]; [discriminate | exact H].
Qed.

Lemma then_all {A : Type} (P : op -> Prop) (t : task A) (f : A -> tval) :
  task_all P (fun _ => True) t -> task_all P (fun _ => True) (then_ t f).
Proof.
  intros H. unfold then_. apply task_all_bind; [exact H | intros a; constructor].
Qed.

Lemma single_call_all (P : op -> Prop) (o : op) :
  P o -> task_all P (fun _ => True) (then_ (await o) (fun _ => TVoid)).
Proof.
  intros Ho. apply then_all. unfold await. constructor; [exact Ho |].
  intros r. destruct r; now constructor.
Qed.

Lemma issues_catch (P : op -> Prop) (e : error) (s : state) :
  P (Sleep 1000) -> issues_only P s -> issues_only P (catch e s).
Proof.
  intros Hs H. unfold catch. destruct (retryable e); [| now apply issues_raise].
  apply (issues_same P (spawn PSleep (sleep 1000) s)); [simpl; auto | simpl; auto |].
  apply issues_spawn; [| exact H]. now apply single_call_all.
Qed.

Section Planned.

Variable cfg : config.
Variable params : value.
Variable P : op -> Prop.
Hypothesis plan : planned cfg params P.

Lemma upsert_plan_fields_all (type : string) :
  forall fields,
    (forall field spec, In (field, spec) fields ->
       In (type, field, spec) (entries (resolvers params))) ->
    Forall (task_all P (fun _ => True))
      (fst (upsert_plan_fields cfg params type fields)).
Proof.
  induction fields as [| [field spec] rest IH]; intros Hin; simpl; [constructor |].
  destruct (negb (typeof spec =? "object")); [constructor |].
  assert (Hrest : Forall (task_all P (fun _ => True))
                    (fst (upsert_plan_fields cfg params type rest))).
  { apply IH. intros f sp H. apply Hin. now right. }
  destruct (upsert_plan_fields cfg params type rest) as [ts e]. simpl in *.
  constructor; [| exact Hrest].
  apply then_all. apply (planned_deploy plan). apply Hin. now left.
Qed.

Lemma upsert_plan_all :
  forall types,
    (forall tf, In tf types -> In tf (props_of (resolvers params))) ->
    Forall (task_all P (fun _ => True)) (fst (upsert_plan cfg params types)).
Proof.
  induction types as [| [type fields] rest IH]; intros Hin; simpl; [constructor |].
  destruct (negb (typeof fields =? "object")); [constructor |].
  assert (Hf : Forall (task_all P (fun _ => True))
                 (fst (upsert_plan_fields cfg params type (props_of fields)))).
  { apply upsert_plan_fields_all. intros field spec H. apply in_entries.
    exists fields. split; [apply Hin; now left | exact H]. }
  destruct (upsert_plan_fields cfg params type (props_of fields)) as [ts [e |]];
    simpl in *; [exact Hf |].
  assert (Hr : Forall (task_all P (fun _ => True)) (fst (upsert_plan cfg params rest))).
  { apply IH. intros tf H. apply Hin. now right. }
  destruct (upsert_plan cfg params rest) as [ts' e']. simpl in *.
  apply Forall_app. now split.
Qed.

Lemma delete_plan_all (type : string) :
  In type ["Query"; "Mutation"] ->
  forall fields,
    Forall (task_all P (fun _ => True)) (fst (delete_plan params type fields)).
Proof.
  intros Ht. induction fields as [| field rest IH]; simpl; [constructor |].
  destruct (absent params type field) as [b | e] eqn:E; [| constructor].
  destruct (delete_plan params type rest) as [ts e']. simpl in *.
  destruct b; simpl; [constructor |]; try exact IH.
  apply single_call_all. now apply (planned_deleteResolver plan).
Qed.

Lemma issues_delete_phase (existing : list string) (s : state) :
  issues_only P s -> issues_only P (delete_phase params existing s).
Proof.
  intros H. unfold delete_phase.
  destruct (getDataSourcesNames (resolvers params)) as [dsn | e] eqn:E.
  - rewrite removeOutdatedDataSources_plan. unfold await_deletes.
    assert (Hs : issues_only P
              (spawn_all PDelete
                 (map (deleteDataSource (apiId params)) (outdated existing dsn)) s)).
    { apply issues_spawn_all; [| exact H]. apply Forall_forall.
      intros t Ht. apply in_map_iff in Ht. destruct Ht as [n [<- Hn]].
      unfold outdated in Hn. apply filter_In in Hn. destruct Hn as [_ Hn].
      apply single_call_all. eapply (planned_deleteDataSource plan); [exact E |].
      now destruct (mem n dsn). }
    destruct (pending PDelete _); [exact Hs | now apply issues_finish].
  - apply issues_catch; [apply (planned_sleep plan) | exact H].
Qed.

Lemma issues_upsert_phase (q m existing : list string) (s : state) :
  issues_only P s -> issues_only P (upsert_phase cfg params q m existing s).
Proof.
  intros H. unfold upsert_phase. rewrite upsert_types_plan.
  assert (H1 : issues_only P
            (spawn_all PUpsert
               (fst (upsert_plan cfg params (props_of (resolvers params)))) s)).
  { apply issues_spawn_all; [| exact H]. apply upsert_plan_all. auto. }
  set (s1 := spawn_all PUpsert _ s) in *.
  destruct (snd (upsert_plan cfg params (props_of (resolvers params)))) as [e |].
  { apply issues_catch; [apply (planned_sleep plan) | exact H1]. }
  rewrite delete_fields_plan.
  assert (H2 : issues_only P
            (spawn_all PUpsert (fst (delete_plan params "Query" q)) s1)).
  { apply issues_spawn_all; [| exact H1]. apply delete_plan_all. simpl. auto. }
  set (s2 := spawn_all PUpsert _ s1) in *.
  destruct (snd (delete_plan params "Query" q)) as [e |].
  { apply issues_catch; [apply (planned_sleep plan) | exact H2]. }
  rewrite delete_fields_plan.
  assert (H3 : issues_only P
            (spawn_all PUpsert (fst (delete_plan params "Mutation" m)) s2)).
  { apply issues_spawn_all; [| exact H2]. apply delete_plan_all. simpl. auto. }
  set (s3 := spawn_all PUpsert _ s2) in *.
  destruct (snd (delete_plan params "Mutation" m)) as [e |].
  { apply issues_catch; [apply (planned_sleep plan) | exact H3]. }
  unfold await_upserts. destruct (pending PUpsert s3); [exact H3 |].
  now apply issues_delete_phase.
Qed.

Lemma issues_begin (s : state) :
  issues_only P s -> issues_only P (begin params s).
Proof.
  intros H. destruct (top_error params) as [e |] eqn:Htop.
  - destruct (begin_invalid params s e Htop) as [-> _]. now apply issues_raise.
  - rewrite (begin_valid params s Htop).
    apply (issues_same P
      (spawn PSnapshot (then_ (getExistingDataSourcesNames (apiId params)) TNames)
         (spawn PSnapshot (then_ (listResolvers (apiId params) "Mutation") TMutation)
            (spawn PSnapshot (then_ (listResolvers (apiId params) "Query") TQuery) s))));
      [simpl; auto | simpl; auto |].
    assert (Hl : forall t, P (ListResolvers (apiId params) t) ->
                 task_all P (fun _ => True) (listResolvers (apiId params) t)).
    { intros t Ht. unfold listResolvers. apply task_all_try_catch.
      - apply task_all_await; auto. intros r. destruct r; now constructor.
      - intros e _. destruct (code_is e "NotFoundException"); now constructor. }
    repeat apply issues_spawn; try exact H; apply then_all.
    + unfold getExistingDataSourcesNames. apply task_all_await; auto.
      * apply (planned_dataSources plan).
      * intros r. destruct r; now constructor.
    + apply Hl. apply (planned_mutation plan).
    + apply Hl. apply (planned_query plan).
Qed.

Lemma issues_step (s : state) (c : nat * response) :
  issues_only P s -> issues_only P (step cfg params s c).
Proof.
  intros H. destruct c as [id r]. unfold step.
  destruct (take id (inflight s)) as [[cl rest] |] eqn:T; [| exact H].
  destruct (negb (well_typed (c_op cl) r)); [exact H |].
  destruct (take_spec _ _ _ _ T) as [_ [Hin [Hsub _]]].
  fold (settle_state s id r rest).
  assert (H1 : issues_only P (settle_state s id r rest)).
  { revert H. apply issues_same; simpl; [| exact Hsub].
    intros i a o [E | Hi]; [discriminate | exact Hi]. }
  pose proof (proj2 H cl Hin r) as Hk.
  set (s1 := settle_state s id r rest) in *.
  destruct (c_k cl r) as [v | e | o k].
  - destruct (awaited cl s1); [| exact H1]. unfold fulfilled.
    destruct (main s1) as [q m d | ex | | | res].
    + destruct v, q, m, d;
        first [now apply issues_upsert_phase
              | revert H1; apply issues_same; simpl; auto].
    + destruct (pending PUpsert s1); [exact H1 | now apply issues_delete_phase].
    + destruct (pending PDelete s1); [exact H1 | now apply issues_finish].
    + unfold retry. apply issues_begin. revert H1. apply issues_same; simpl; auto.
    + exact H1.
  - destruct (awaited cl s1); [| exact H1]. unfold rejected.
    destruct (main s1); try (apply issues_catch; [apply (planned_sleep plan) | exact H1]).
    now apply issues_raise.
  - inversion Hk as [| | o' k' Ho Hk']; subst. destruct H1 as [Htr Hfl]. split; simpl.
    + intros i a o' [E | Hi]; [inversion E; now subst | now apply (Htr i a)].
    + intros c Hc. apply in_app_iff in Hc. destruct Hc as [Hc | [<- | []]];
        [now apply Hfl | exact Hk'].
Qed.

(** Every call a run issues is one of the calls planned for [params]. *)
Lemma run_issues_only (cs : list (nat * response)) (id a : nat) (o : op) :
  In (Issue id a o) (history (exec cfg params cs)) -> P o.
Proof.
  unfold history. rewrite <- in_rev. unfold exec.
  assert (H : forall s, issues_only P s ->
                        issues_only P (fold_left (step cfg params) cs s)).
  { induction cs as [| c cs' IH]; intros s Hs; simpl; [exact Hs |].
    apply IH. now apply issues_step. }
  assert (H0 : issues_only P (start params)).
  { apply issues_begin. split; simpl; [intros i b o' [] | intros c []]. }
  intros Hin. exact (proj1 (H _ H0) id a o Hin).
Qed.

End Planned.

(** ** The calls of [deployAppSyncResolver] *)

Lemma task_all_impl {A : Type} (P P' : op -> Prop) (Q Q' : error -> Prop)
    (t : task A) :
  (forall o, P o -> P' o) -> (forall e, Q e -> Q' e) ->
  task_all P Q t -> task_all P' Q' t.
Proof.
  intros HP HQ. induction 1 as [a | e He | o k Ho _ IH]; constructor; auto.
Qed.

Lemma task_all_bind_returns {A B : Type} (P : op -> Prop) (R : A -> Prop)
    (t : task A) (f : A -> task B) :
  task_all P (fun _ => True) t -> task_returns R t ->
  (forall a, R a -> task_all P (fun _ => True) (f a)) ->
  task_all P (fun _ => True) (bind t f).
Proof.
  intros Ht. induction Ht as [a | e He | o k Ho _ IH]; intros Hr Hf; simpl.
  - inversion Hr; subst. now apply Hf.
  - now constructor.
  - constructor; [exact Ho |]. intros r. apply IH; [| exact Hf].
    inversion Hr as [| | o' k' Hk]; subst. apply Hk.
Qed.

Lemma buildDataSourceParams_calls (cfg : config) (params : obj) :
  task_all (deploy_call params) (fun _ => True) (buildDataSourceParams cfg params).
Proof.
  unfold buildDataSourceParams.
  apply task_all_await; [reflexivity | auto |]. intros role.
  destruct role; simpl; try now constructor.
  destruct (truthy (lookup "lambda" params)).
  { destruct (getDataSourceName (lookup "lambda" params)); simpl; [| now constructor].
    apply task_all_await; [reflexivity | auto |]. intros r.
    destruct r; simpl; now constructor. }
  destruct (truthy (lookup "table" params)).
  { destruct (getDataSourceName (lookup "table" params)); simpl; now constructor. }
  destruct (truthy (lookup "authorizationConfig" params)); [constructor |].
  destruct (truthy (lookup "endpoint" params)); [constructor |].
  destruct (truthy (lookup "relationalDatabaseSourceType" params)); [| now constructor].
  destruct (truthy (lookup "name" params)); simpl; [constructor |].
  destruct (getDataSourceName (lookup "database" params)); simpl; now constructor.
Qed.

Lemma buildDataSourceParams_returns (cfg : config) (params : obj) :
  task_returns
    (fun p => ds_apiId p = lookup "apiId" params
              /\ provisioned_name params = Some (ds_name p))
    (buildDataSourceParams cfg params).
Proof.
  unfold buildDataSourceParams, provisioned_name, await. simpl.
  constructor. intros role. destruct role; simpl; try now constructor.
  destruct (truthy (lookup "lambda" params)).
  { destruct (getDataSourceName (lookup "lambda" params)); simpl; [| now constructor].
    constructor. intros r. destruct r; simpl; constructor. now split. }
  destruct (truthy (lookup "table" params)).
  { destruct (getDataSourceName (lookup "table" params)); simpl; constructor.
    now split. }
  destruct (truthy (lookup "authorizationConfig" params)); [constructor; now split |].
  destruct (truthy (lookup "endpoint" params)); [constructor; now split |].
  destruct (truthy (lookup "relationalDatabaseSourceType" params)); [| now constructor].
  destruct (truthy (lookup "name" params)); simpl; [constructor; now split |].
  destruct (getDataSourceName (lookup "database" params)); simpl; constructor.
  now split.
Qed.

Lemma upsertDataSource_calls (P : op -> Prop) (p : dataSourceParams) :
  P (UpdateDataSource p) -> P (CreateDataSource p) ->
  task_all P (fun _ => True) (upsertDataSource p).
Proof.
  intros Hu Hc.
  assert (Hread : forall r, task_all P (fun _ => True) (read_dataSource r))
    by (intros r; destruct r; now constructor).
  unfold upsertDataSource. apply task_all_try_catch.
  - apply task_all_await; auto.
  - intros e _. destruct (code_is e "NotFoundException"); [| now constructor].
    apply task_all_try_catch.
    + apply task_all_await; auto.
    + intros e' _.
      destruct (code_is e' "BadRequestException"
                && includes "Data source with name" (message e')); [| now constructor].
      apply task_all_await; auto.
Qed.

Lemma resolver_call_all (P : op -> Prop) (p : resolverParams) :
  P (UpdateResolver p) -> P (CreateResolver p) ->
  task_all P (fun _ => True) (updateAppSyncResolver p)
  /\ task_all P (fun _ => True) (createAppSyncResolver p).
Proof.
  intros Hu Hc.
  assert (Hawait : forall o, P o -> task_all P (fun _ => True) (await o)).
  { intros o Ho. unfold await. constructor; [exact Ho |].
    intros r. destruct r; now constructor. }
  split; apply task_all_try_catch; auto; intros e _;
    match goal with |- context [if ?b then _ else _] => destruct b end;
    now constructor.
Qed.

(** The calls of [deployAppSyncResolver]: the role, the function of a
    lambda spec, the data source under its provisioned name, and the
    resolver of [params]. *)
Lemma deployAppSyncResolver_calls (cfg : config) (params : obj) :
  task_all (deploy_call params) (fun _ => True) (deployAppSyncResolver cfg params).
Proof.
  unfold deployAppSyncResolver, deployAppSyncDataSource.
  apply task_all_bind.
  - apply task_all_bind_returns with (R := fun p =>
      ds_apiId p = lookup "apiId" params
      /\ provisioned_name params = Some (ds_name p)).
    + apply buildDataSourceParams_calls.
    + apply buildDataSourceParams_returns.
    + intros p Hp. apply upsertDataSource_calls; exact Hp.
  - intros ds.
    destruct (resolver_call_all (deploy_call params)
                (resolverParams_of params (snd ds))) as [Hu Hc];
      try (now exists (snd ds)).
    apply task_all_try_catch; [exact Hu |].
    intros e _.
    destruct (code_is e "NotFoundException"
              && includes "No resolver found" (message e)); [exact Hc | now constructor].
Qed.

(** ** The parameters of the calls of a run *)

Lemma lookup_obj_set_same (k : string) (v : value) (o : obj) :
  lookup k (obj_set k v o) = v.
Proof.
  unfold lookup. induction o as [| [k' v'] o IH]; simpl.
  - now rewrite String.eqb_refl.
  - destruct (k' =? k) eqn:E; simpl.
    + now rewrite String.eqb_refl.
    + rewrite E. exact IH.
Qed.

Lemma lookup_obj_set_other (k k' : string) (v : value) (o : obj) :
  k <> k' -> lookup k (obj_set k' v o) = lookup k o.
Proof.
  intros Hk. unfold lookup. induction o as [| [k0 v0] o IH]; simpl.
  - destruct (String.eqb_spec k' k) as [E | E]; [congruence | reflexivity].
  - destruct (String.eqb_spec k0 k') as [E | E]; simpl.
    + subst k0. destruct (String.eqb_spec k' k) as [E' | E']; [congruence |].
      reflexivity.
    + destruct (k0 =? k); [reflexivity | exact IH].
Qed.

Lemma spec_params_apiId (params spec : value) (type field : string) :
  lookup "apiId" (spec_params params spec type field) = apiId params.
Proof.
  unfold spec_params.
  rewrite !lookup_obj_set_other by discriminate. apply lookup_obj_set_same.
Qed.

Lemma spec_params_roleName (params spec : value) (type field : string) :
  lookup "roleName" (spec_params params spec type field) = roleName params.
Proof.
  unfold spec_params.
  rewrite !lookup_obj_set_other by discriminate. apply lookup_obj_set_same.
Qed.

Lemma spec_params_type (params spec : value) (type field : string) :
  lookup "type" (spec_params params spec type field) = VStr type.
Proof.
  unfold spec_params.
  rewrite lookup_obj_set_other by discriminate. apply lookup_obj_set_same.
Qed.

Lemma spec_params_field (params spec : value) (type field : string) :
  lookup "field" (spec_params params spec type field) = VStr field.
Proof. unfold spec_params. apply lookup_obj_set_same. Qed.

Lemma spec_params_other (params spec : value) (type field k : string) :
  ~ In k ["apiId"; "roleName"; "type"; "field"] ->
  lookup k (spec_params params spec type field) = get spec k.
Proof.
  intros Hk. unfold spec_params, get.
  rewrite !lookup_obj_set_other; [reflexivity | | | |];
    intros ->; apply Hk; simpl; auto.
Qed.

(** X8. Every call of a run is addressed to the API and the role of
    [params]: an [apiId] or a [roleName] inside a spec never redirects
    a call. *)
Theorem calls_use_params_api_and_role (cfg : config) (params : value)
    (cs : list (nat * response)) (id a : nat) (o : op) :
  In (Issue id a o) (history (exec cfg params cs)) -> addressed params o.
Proof.
  apply run_issues_only. constructor; try reflexivity.
  intros type field spec _.
  apply task_all_impl with (3 := deployAppSyncResolver_calls cfg _); [| auto].
  intros o'. destruct o'; simpl; try tauto.
  - intros ->. apply spec_params_roleName.
  - intros [-> _]. apply spec_params_apiId.
  - intros [-> _]. apply spec_params_apiId.
  - intros [n ->]. apply spec_params_apiId.
  - intros [n ->]. apply spec_params_apiId.
Qed.

(** X9. Every resolver a run updates or creates is an entry
    [type.field] of the desired state, written with kind [UNIT] and with
    the templates of its spec, or the default ones. *)
Theorem resolver_writes_are_desired_entries (cfg : config) (params : value)
    (cs : list (nat * response)) (id a : nat) (p : resolverParams) :
  In (Issue id a (UpdateResolver p)) (history (exec cfg params cs))
  \/ In (Issue id a (CreateResolver p)) (history (exec cfg params cs)) ->
  exists type field spec,
    In (type, field, spec) (entries (resolvers params))
    /\ writes_entry type field spec p.
Proof.
  set (P := fun o => forall q, o = UpdateResolver q \/ o = CreateResolver q ->
                     exists type field spec,
                       In (type, field, spec) (entries (resolvers params))
                       /\ writes_entry type field spec q).
  assert (plan : planned cfg params P).
  { constructor; try (intros q [E | E]; discriminate);
      try (intros ? ? ? ? q [E | E]; discriminate).
    intros type field spec Hin.
    apply task_all_impl with (3 := deployAppSyncResolver_calls cfg _); [| auto].
    intros o Ho q Hq.
    assert (Hres : exists n,
              q = resolverParams_of (spec_params params spec type field) n).
    { destruct Hq as [-> | ->]; exact Ho. }
    destruct Hres as [n ->]. exists type, field, spec. split; [exact Hin |].
    unfold writes_entry, resolverParams_of. simpl.
    rewrite spec_params_type, spec_params_field.
    rewrite !spec_params_other
      by (simpl; intros [E | [E | [E | [E | []]]]]; discriminate).
    auto. }
  intros [H | H]; apply (run_issues_only cfg params P plan cs id a _ H); auto.
Qed.

(** X10. A run deletes a resolver only of type [Query] or [Mutation]
    and only when the desired state has no entry for it (line 306); it
    deletes a data source only when [getDataSourcesNames] returns a list
    that lacks its name (line 323). *)
Theorem deletes_only_what_is_not_desired (cfg : config) (params : value)
    (cs : list (nat * response)) (id a : nat) :
  (forall v field type,
     In (Issue id a (DeleteResolver v field type)) (history (exec cfg params cs)) ->
     (type = "Query" \/ type = "Mutation")
     /\ absent params type field = Ok true)
  /\ (forall v name,
        In (Issue id a (DeleteDataSource v name)) (history (exec cfg params cs)) ->
        exists names,
          getDataSourcesNames (resolvers params) = Ok names /\ ~ In name names).
Proof.
  set (P := fun o =>
    match o with
    | DeleteResolver _ field type =>
        (type = "Query" \/ type = "Mutation") /\ absent params type field = Ok true
    | DeleteDataSource _ name =>
        exists names,
          getDataSourcesNames (resolvers params) = Ok names /\ ~ In name names
    | UpdateDataSource _ | CreateDataSource _ | UpdateResolver _ | CreateResolver _
    | _ => True
    end).
  assert (plan : planned cfg params P).
  { constructor; simpl; auto.
    - intros type field spec _.
      apply task_all_impl with (3 := deployAppSyncResolver_calls cfg _); [| auto].
      intros o. destruct o; simpl; tauto.
    - intros type field [<- | [<- | []]] H; auto.
    - intros names name E H. exists names. split; [exact E |]. now apply mem_false. }
  split.
  - intros v field type H. exact (run_issues_only cfg params P plan cs id a _ H).
  - intros v name H. exact (run_issues_only cfg params P plan cs id a _ H).
Qed.

Lemma calls_use_params_api_and_role_witness :
  addressed Scenario.redirect (UpdateDataSource Example.usersFn)
  /\ addressed Scenario.redirect (GetRoleArn (VStr "role")).
Proof.
  split.
  - apply (calls_use_params_api_and_role Example.cfg Scenario.redirect
             Scenario.redirect_run 6 0).
    in_list.
  - apply (calls_use_params_api_and_role Example.cfg Scenario.redirect
             Scenario.redirect_run 3 0).
    in_list.
Defined.

Lemma resolver_writes_are_desired_entries_witness :
  exists type field spec,
    In (type, field, spec) (entries (resolvers Scenario.redirect))
    /\ writes_entry type field spec Scenario.redirect_resolver.
Proof.
  apply (resolver_writes_are_desired_entries Example.cfg Scenario.redirect
           Scenario.redirect_run 7 0).
  left. in_list.
Defined.

Lemma deletes_only_what_is_not_desired_witness :
  absent Scenario.redirect "Query" "oldField" = Ok true
  /\ exists names,
       getDataSourcesNames (resolvers Scenario.redirect) = Ok names
       /\ ~ In "oldDs" names.
Proof.
  split.
  - apply (proj1 (deletes_only_what_is_not_desired Example.cfg Scenario.redirect
                    Scenario.redirect_run 4 0) Example.api "oldField" "Query").
    in_list.
  - apply (proj2 (deletes_only_what_is_not_desired Example.cfg Scenario.redirect
                    Scenario.redirect_run 8 0) Example.api "oldDs").
    in_list.
Defined.

(** ** Data sources that are provisioned and deleted *)

Lemma Forall2_In_l {A B : Type} (R : A -> B -> Prop) (l : list A) (l' : list B)
    (x : A) :
  Forall2 R l l' -> In x l -> exists y, In y l' /\ R x y.
Proof.
  induction 1 as [| a b l l' Hab _ IH]; intros Hin; [destruct Hin |].
  destruct Hin as [<- | Hin].
  - exists b. split; [now left | exact Hab].
  - destruct (IH Hin) as [y [Hy Hxy]]. exists y. split; [now right | exact Hxy].
Qed.

Lemma getDataSourcesNames_listed (v : value) (names : list string)
    (type field : string) (spec : value) :
  getDataSourcesNames v = Ok names -> In (type, field, spec) (entries v) ->
  exists n, In n names /\ entry_name spec = Ok n.
Proof.
  intros E Hin. unfold getDataSourcesNames in E.
  apply dataSourcesNames_types_spec in E. destruct E as [ns' [-> H]].
  assert (Ev : entries (VObj (props_of v)) = entries v) by now destruct v.
  rewrite Ev in H.
  destruct (Forall2_In_l _ _ _ _ H Hin) as [n [Hn Hr]]. now exists n.
Qed.

(** X11. When the name under which each entry's data source is
    provisioned is the name [getDataSourcesNames] lists for the entry,
    a run never deletes a data source under a name it updates or
    creates one with. *)
Theorem provisioned_data_source_is_kept (cfg : config) (params : value)
    (cs : list (nat * response)) :
  names_agree params = true ->
  forall id a p id' a' v n,
    In (Issue id a (UpdateDataSource p)) (history (exec cfg params cs))
    \/ In (Issue id a (CreateDataSource p)) (history (exec cfg params cs)) ->
    In (Issue id' a' (DeleteDataSource v n)) (history (exec cfg params cs)) ->
    ds_name p <> VStr n.
Proof.
  intros Hagree id a p id' a' v n Hup Hdel Hname.
  destruct (getDataSourcesNames (resolvers params)) as [dsn | e] eqn:E.
  - set (P := fun o =>
      match o with
      | DeleteDataSource _ name => ~ In name dsn
      | UpdateDataSource q | CreateDataSource q =>
          forall name, ds_name q = VStr name -> In name dsn
      | _ => True
      end).
    assert (plan : planned cfg params P).
    { constructor; simpl; auto.
      - intros type field spec Hin.
        apply task_all_impl with (3 := deployAppSyncResolver_calls cfg _); [| auto].
        assert (Hq : forall q,
                  provisioned_name (spec_params params spec type field)
                  = Some (ds_name q) ->
                  forall name, ds_name q = VStr name -> In name dsn).
        { intros q Hq name Hq'. unfold names_agree in Hagree.
          rewrite forallb_forall in Hagree. specialize (Hagree _ Hin).
          simpl in Hagree. rewrite Hq, Hq' in Hagree.
          destruct (getDataSourcesNames_listed _ _ _ _ _ E Hin) as [n0 [Hn0 Hs]].
          rewrite Hs in Hagree. apply String.eqb_eq in Hagree. now subst. }
        intros o. destruct o; simpl; try tauto; intros [_ Ho]; now apply Hq.
      - intros names name E' H. rewrite E in E'. inversion E'; subst.
        now apply mem_false. }
    assert (Hp : forall name, ds_name p = VStr name -> In name dsn).
    { destruct Hup as [H | H];
        exact (run_issues_only cfg params P plan cs id a _ H). }
    pose proof (run_issues_only cfg params P plan cs id' a' _ Hdel) as Hn.
    simpl in Hn. apply Hn. now apply Hp.
  - set (P := fun o => match o with DeleteDataSource _ _ => False | _ => True end).
    assert (plan : planned cfg params P).
    { constructor; simpl; auto.
      - intros type field spec _.
        apply task_all_impl with (3 := deployAppSyncResolver_calls cfg _); [| auto].
        intros o. destruct o; simpl; tauto.
      - intros names name E'. congruence. }
    exact (run_issues_only cfg params P plan cs id' a' _ Hdel).
Qed.

Lemma provisioned_data_source_is_kept_witness :
  ds_name Example.usersFn <> VStr "oldDs".
Proof.
  apply (provisioned_data_source_is_kept Example.cfg Scenario.redirect
           Scenario.redirect_run eq_refl 6 0 Example.usersFn 8 0 Example.api "oldDs").
  - left. in_list.
  - in_list.
Defined.

(** ** What a run has seen before it deletes, pauses, retries or fails *)

Lemma received_mono (tr tr' : list event) (a : nat) (o : op) (r : response) :
  (forall e, In e tr -> In e tr') -> received tr a o r -> received tr' a o r.
Proof. intros Hsub [id [Hi Hs]]. exists id. split; now apply Hsub. Qed.

Lemma paused_mono (tr tr' : list event) (a : nat) :
  (forall e, In e tr -> In e tr') -> paused tr a -> paused tr' a.
Proof.
  intros Hsub. destruct a as [| b]; simpl; [auto |].
  intros [r [Hr Hf]]. exists r. split; [now apply received_mono with tr | exact Hf].
Qed.

Lemma in_flight_mono (params : value) (tr tr' : list event) (c : call) :
  (forall e, In e tr -> In e tr') ->
  in_flight_ok params tr c -> in_flight_ok params tr' c.
Proof.
  intros Hsub [Hi [Hp Ha]]. split; [now apply Hsub | split; [| exact Ha]].
  now apply paused_mono with tr.
Qed.

Lemma snapshot_done_mono (params : value) (tr tr' : list event) (a : nat) :
  (forall e, In e tr -> In e tr') ->
  snapshot_done params tr a -> snapshot_done params tr' a.
Proof.
  intros Hsub [rq [q [rm [m [ns [Hq [Lq [Hm [Lm Hd]]]]]]]]].
  exists rq, q, rm, m, ns.
  repeat split; try assumption; now apply received_mono with tr.
Qed.

Lemma seen_fields_mono (params : value) (s s' : state) (type : string)
    (fs : list string) :
  attempt s' = attempt s -> (forall e, In e (trace s) -> In e (trace s')) ->
  seen_fields params s type fs -> seen_fields params s' type fs.
Proof.
  intros Ha Hsub [r [Hr Hl]]. exists r. split; [| exact Hl].
  rewrite Ha. now apply received_mono with (trace s).
Qed.

Lemma seen_names_mono (params : value) (s s' : state) (ns : list string) :
  attempt s' = attempt s -> (forall e, In e (trace s) -> In e (trace s')) ->
  seen_names params s ns -> seen_names params s' ns.
Proof.
  intros Ha Hsub H. unfold seen_names. rewrite Ha.
  now apply received_mono with (trace s).
Qed.

Lemma seen_mono (params : value) (s s' : state) :
  attempt s' = attempt s -> main s' = main s ->
  (forall e, In e (trace s) -> In e (trace s')) ->
  seen params s -> seen params s'.
Proof.
  intros Ha Hm Hsub. unfold seen. rewrite Hm.
  destruct (main s) as [q m d | ex | | | res]; auto.
  - intros [Hq [Hmu Hd]]. repeat apply conj.
    + destruct q; simpl in *; auto. now apply seen_fields_mono with s.
    + destruct m; simpl in *; auto. now apply seen_fields_mono with s.
    + destruct d; auto. now apply seen_names_mono with s.
  - intros [Hn Hdone]. split; [now apply seen_names_mono with s |].
    rewrite Ha. now apply snapshot_done_mono with (trace s).
Qed.

(** *** The errors a function throws *)

Lemma not_retryable_relays {A : Type} (r : response) (e : error) :
  retryable e = false -> relays r (@Throw A e).
Proof. intros H. constructor. intros H'. congruence. Qed.

Lemma relays_bind {A B : Type} (t : task A) (f : A -> task B) :
  (forall a r, relays r (f a)) -> (forall r, relays r t) ->
  forall r, relays r (bind t f).
Proof.
  intros Hf Ht r. specialize (Ht r). revert r Ht.
  induction t as [a | e | o k IH]; intros r Ht; simpl.
  - apply Hf.
  - inversion Ht; subst. now constructor.
  - inversion Ht as [| | r0 o0 k0 Hk]; subst. constructor. intros r'.
    apply IH. apply Hk.
Qed.

Lemma relays_try_catch {A : Type} (t : task A) (h : error -> task A) :
  (forall e r, (retryable e = true -> failure_of r e) -> relays r (h e)) ->
  (forall r, relays r t) ->
  forall r, relays r (try_catch t h).
Proof.
  intros Hh Ht r. specialize (Ht r). revert r Ht.
  induction t as [a | e | o k IH]; intros r Ht; simpl.
  - constructor.
  - inversion Ht; subst. now apply Hh.
  - inversion Ht as [| | r0 o0 k0 Hk]; subst. constructor. intros r'.
    apply IH. apply Hk.
Qed.

Lemma relays_await (o : op) (r : response) : relays r (await o).
Proof.
  unfold await. constructor. intros r'. destruct r' as [c m | | | | |];
    constructor. intros _. now exists c, m.
Qed.

Lemma relays_name {A : Type} (v : value) (f : string -> task A) :
  (forall n r, relays r (f n)) ->
  forall r, relays r (n <- lift (getDataSourceName v) ;; f n).
Proof.
  intros Hf r. destruct (getDataSourceName v) as [n | e] eqn:E; simpl; [apply Hf |].
  apply not_retryable_relays. apply getDataSourceName_error in E.
  destruct E as [m ->]. reflexivity.
Qed.

Lemma relays_read_arn {A : Type} (x : response) (f : string -> task A) :
  (forall a r, relays r (f a)) ->
  forall r, relays r (a <- read_arn x ;; f a).
Proof.
  intros Hf r. destruct x; simpl; try (now apply not_retryable_relays). apply Hf.
Qed.

Lemma relays_await_bind {A : Type} (o : op) (f : response -> task A) :
  (forall x r, relays r (f x)) -> forall r, relays r (x <- await o ;; f x).
Proof.
  intros Hf. apply relays_bind; [exact Hf | intros r; apply relays_await].
Qed.

Lemma buildDataSourceParams_relays (cfg : config) (params : obj) (r : response) :
  relays r (buildDataSourceParams cfg params).
Proof.
  unfold buildDataSourceParams. revert r.
  apply relays_await_bind. intros role. apply relays_read_arn. intros arn.
  destruct (truthy (lookup "lambda" params)).
  { apply relays_name. intros n. apply relays_await_bind. intros x.
    apply relays_read_arn. intros a r. constructor. }
  destruct (truthy (lookup "table" params)).
  { apply relays_name. intros n r. constructor. }
  destruct (truthy (lookup "authorizationConfig" params)); [constructor |].
  destruct (truthy (lookup "endpoint" params)); [constructor |].
  destruct (truthy (lookup "relationalDatabaseSourceType" params));
    [| intros r; now apply not_retryable_relays].
  apply relays_bind; [intros a r; constructor |].
  destruct (truthy (lookup "name" params)); [constructor |].
  apply relays_name. intros n r. constructor.
Qed.

Lemma read_dataSource_relays (x r : response) : relays r (read_dataSource x).
Proof. destruct x; simpl; try (now apply not_retryable_relays). constructor. Qed.

Lemma upsertDataSource_relays (p : dataSourceParams) (r : response) :
  relays r (upsertDataSource p).
Proof.
  assert (Hcall : forall o r0, relays r0 (x <- await o ;; read_dataSource x)).
  { intros o. apply relays_await_bind. intros x r0. apply read_dataSource_relays. }
  unfold upsertDataSource. revert r. apply relays_try_catch; [| apply Hcall].
  intros e r He. destruct (code_is e "NotFoundException"); [| now constructor].
  apply relays_try_catch; [| apply Hcall].
  intros e' r' He'.
  destruct (code_is e' "BadRequestException"
            && includes "Data source with name" (message e'));
    [apply Hcall | now constructor].
Qed.

Lemma resolver_call_relays (p : resolverParams) (r : response) :
  relays r (updateAppSyncResolver p) /\ relays r (createAppSyncResolver p).
Proof.
  split; apply relays_try_catch; try (intros r'; apply relays_await);
    intros e r' He;
    match goal with |- context [if ?b then _ else _] => destruct b end;
    now constructor.
Qed.

Lemma deployAppSyncResolver_relays (cfg : config) (params : obj) (r : response) :
  relays r (deployAppSyncResolver cfg params).
Proof.
  unfold deployAppSyncResolver, deployAppSyncDataSource.
  apply relays_bind.
  - intros ds r'. apply relays_try_catch; [| intros r0; apply resolver_call_relays].
    intros e r0 He.
    destruct (code_is e "NotFoundException" && includes "No resolver found" (message e));
      [apply resolver_call_relays | now constructor].
  - apply relays_bind; [intros p r'; apply upsertDataSource_relays |].
    intros r'. apply buildDataSourceParams_relays.
Qed.

Lemma then_returns {A : Type} (R : tval -> Prop) (t : task A) (f : A -> tval) :
  (forall a, R (f a)) -> task_returns R (then_ t f).
Proof.
  intros Hf. unfold then_. induction t as [a | e | o k IH]; simpl; constructor; auto.
Qed.

Lemma deploy_quiet (cfg : config) (params : obj) (r : response) :
  quiet r (then_ (deployAppSyncResolver cfg params) (fun _ => TVoid)).
Proof.
  split; [| split].
  - apply then_all.
    apply task_all_impl with (3 := deployAppSyncResolver_calls cfg params); [| auto].
    intros o. destruct o; simpl; tauto.
  - now apply then_returns.
  - unfold then_. apply relays_bind; [intros a r'; constructor |].
    intros r'. apply deployAppSyncResolver_relays.
Qed.

(** *** The invariant *)

Lemma quiet_answers (params : value) (o : op) (r : response) (t : task tval) :
  later_op o -> quiet r t -> answers params o r t.
Proof.
  intros Ho [Hall [Hret Hrel]]. destruct t as [v | e | o' k]; simpl.
  - inversion Hret; subst. intros ms ->. destruct Ho.
  - split; [intros ms ->; destruct Ho |]. now inversion Hrel.
  - split; [exact Ho | now repeat split].
Qed.

Lemma quiet_call (r : response) (o : op) (k : response -> task tval) :
  quiet r (Call o k) -> later_op o /\ forall r', quiet r' (k r').
Proof.
  intros [Hall [Hret Hrel]]. inversion Hall as [| | o' k' Ho Hk]; subst.
  inversion Hret as [| | o' k' Hk']; subst.
  inversion Hrel as [| | r0 o' k' Hk'']; subst.
  split; [exact Ho |]. intros r'. split; [apply Hk | split; [apply Hk' | apply Hk'']].
Qed.

Lemma later_op_ok (params : value) (older : list event) (a : nat) (o : op) :
  later_op o -> snapshot_done params older a -> op_ok params older a o.
Proof. destruct o; simpl; tauto. Qed.

Lemma later_op_done (params : value) (older : list event) (a : nat) (o : op) :
  later_op o -> op_ok params older a o -> snapshot_done params older a.
Proof. destruct o; simpl; tauto. Qed.

Lemma audit_issue (params : value) (s : state) (a : nat) (ph : phase) (o : op)
    (k : response -> task tval) :
  audit params s -> op_ok params (trace s) a o -> paused (trace s) a ->
  (forall r, answers params o r (k r)) ->
  audit params (issue a ph o k s).
Proof.
  intros [Htr [Hp [Hfl Hseen]]] Ho Ha Hk.
  assert (Hsub : forall e, In e (trace s) -> In e (trace (issue a ph o k s)))
    by (intros e He; now right).
  split; [| split; [| split]].
  - simpl. repeat split; assumption.
  - now apply paused_mono with (trace s).
  - intros c Hc. simpl in Hc. apply in_app_iff in Hc.
    destruct Hc as [Hc | [<- | []]].
    + apply in_flight_mono with (trace s); [exact Hsub | now apply Hfl].
    + split; [now left | split; [| exact Hk]].
      simpl c_attempt. now apply paused_mono with (trace s).
  - revert Hseen. apply seen_mono; simpl; auto.
Qed.

Lemma audit_emit (params : value) (e : event) (s : state) :
  audit params s -> event_ok params (trace s) e -> audit params (emit e s).
Proof.
  intros [Htr [Hp [Hfl Hseen]]] He.
  assert (Hsub : forall x, In x (trace s) -> In x (trace (emit e s)))
    by (intros x Hx; now right).
  split; [| split; [| split]].
  - simpl. now split.
  - now apply paused_mono with (trace s).
  - intros c Hc. apply in_flight_mono with (trace s); [exact Hsub | now apply Hfl].
  - revert Hseen. apply seen_mono; simpl; auto.
Qed.

Lemma audit_set_main (params : value) (m : mainst) (s : state) :
  audit params s -> seen params (set_main m s) -> audit params (set_main m s).
Proof.
  intros [Htr [Hp [Hfl _]]] Hseen.
  split; [exact Htr | split; [exact Hp | split; [exact Hfl | exact Hseen]]].
Qed.

Lemma audit_raise (params : value) (e : error) (s : state) :
  audit params s -> event_ok params (trace s) (Raise e) -> audit params (raise e s).
Proof.
  intros H He. unfold raise. apply audit_set_main; [now apply audit_emit | exact I].
Qed.

Lemma audit_finish (params : value) (s : state) :
  audit params s -> audit params (finish s).
Proof.
  intros H. unfold finish. apply audit_set_main; [| exact I].
  now apply audit_emit.
Qed.

Lemma single_call_answers (params : value) (o : op) (r : response) :
  answers params o r
    (_ <- match r with
          | Failed c m => Throw (ServiceError c m)
          | _ => Ret r
          end ;; Ret TVoid).
Proof.
  destruct r as [c m | | | | |]; simpl;
    try (intros ms _ c' m'; discriminate).
  split; intros; now exists c, m.
Qed.

Lemma audit_catch (params : value) (e : error) (s : state) :
  audit params s -> caught s e -> audit params (catch e s).
Proof.
  intros H Hc. unfold catch. destruct (retryable e) eqn:E.
  - apply audit_set_main; [| exact I]. unfold sleep, then_, await. simpl.
    apply audit_issue; [exact H | | apply H |].
    + simpl. split; [reflexivity |].
      destruct (Hc E) as [o [c [m [Hr ->]]]]. now exists o, c, m.
    + intros r. apply single_call_answers.
  - apply audit_raise; [exact H | now left].
Qed.

Lemma caught_not_retryable (s : state) (e : error) : retryable e = false -> caught s e.
Proof. intros H H'. congruence. Qed.

Lemma extends_refl (params : value) (s : state) : audit params s -> extends params s s.
Proof. intros H. split; [exact H | auto]. Qed.

Lemma extends_audit (params : value) (s s' : state) :
  extends params s s' -> audit params s'.
Proof. now intros [H _]. Qed.

Lemma extends_issue (params : value) (s s' : state) (ph : phase) (o : op)
    (k : response -> task tval) :
  extends params s s' ->
  op_ok params (trace s') (attempt s') o ->
  (forall r, answers params o r (k r)) ->
  extends params s (spawn ph (Call o k) s').
Proof.
  intros [Ha [Hatt [Hm Hsub]]] He Hk. simpl. split; [| split; [| split]].
  - apply audit_issue; auto. apply Ha.
  - exact Hatt.
  - exact Hm.
  - intros e H. simpl. right. now apply Hsub.
Qed.

Lemma extends_done (params : value) (s s' : state) :
  extends params s s' -> snapshot_done params (trace s) (attempt s) ->
  snapshot_done params (trace s') (attempt s').
Proof.
  intros [_ [Hatt [_ Hsub]]] H. rewrite Hatt.
  now apply snapshot_done_mono with (trace s).
Qed.

Lemma extends_quiet (params : value) (s s' : state) (ph : phase) (t : task tval) :
  snapshot_done params (trace s) (attempt s) ->
  (forall r, quiet r t) -> extends params s s' -> extends params s (spawn ph t s').
Proof.
  intros Hdone Hq H. destruct t as [v | e | o k]; try exact H.
  destruct (quiet_call _ _ _ (Hq Done)) as [Ho Hk].
  apply extends_issue; [exact H | |].
  - apply later_op_ok; [exact Ho | now apply extends_done with s].
  - intros r. apply quiet_answers; [exact Ho | apply Hk].
Qed.

Lemma extends_deleteResolver (params : value) (s s' : state) (type field : string)
    (fs : list string) :
  snapshot_done params (trace s) (attempt s) ->
  seen_fields params s type fs -> In field fs -> extends params s s' ->
  extends params s (spawn PUpsert (deleteResolver (apiId params) field type) s').
Proof.
  intros Hdone Hseen Hin H. unfold deleteResolver, then_, await. simpl bind.
  apply extends_issue; [exact H | |].
  - simpl. split; [now apply extends_done with s |].
    destruct H as [_ [Hatt [_ Hsub]]].
    destruct Hseen as [r [Hr [[fields [-> Hf]] | [m [_ ->]]]]]; [| destruct Hin].
    exists fields. split; [| now apply Hf].
    rewrite Hatt. now apply received_mono with (trace s).
  - intros r. apply single_call_answers.
Qed.

Lemma extends_deleteDataSource (params : value) (s s' : state) (name : string)
    (ns : list string) :
  snapshot_done params (trace s) (attempt s) ->
  seen_names params s ns -> In name ns -> extends params s s' ->
  extends params s (spawn PDelete (deleteDataSource (apiId params) name) s').
Proof.
  intros Hdone Hseen Hin H. unfold deleteDataSource, then_, await. simpl bind.
  apply extends_issue; [exact H | |].
  - simpl. split; [now apply extends_done with s |].
    destruct H as [_ [Hatt [_ Hsub]]]. exists ns. split; [| exact Hin].
    rewrite Hatt. now apply received_mono with (trace s).
  - intros r. apply single_call_answers.
Qed.

Lemma upsert_plan_fields_quiet (cfg : config) (params : value) (type : string) :
  forall fields,
    Forall (fun t => forall r, quiet r t)
      (fst (upsert_plan_fields cfg params type fields)).
Proof.
  induction fields as [| [field spec] rest IH]; simpl; [constructor |].
  destruct (negb (typeof spec =? "object")); [constructor |].
  destruct (upsert_plan_fields cfg params type rest) as [ts e]. simpl in *.
  constructor; [intros r; apply deploy_quiet | exact IH].
Qed.

Lemma upsert_plan_quiet (cfg : config) (params : value) :
  forall types,
    Forall (fun t => forall r, quiet r t) (fst (upsert_plan cfg params types)).
Proof.
  induction types as [| [type fields] rest IH]; simpl; [constructor |].
  destruct (negb (typeof fields =? "object")); [constructor |].
  pose proof (upsert_plan_fields_quiet cfg params type (props_of fields)) as Hf.
  destruct (upsert_plan_fields cfg params type (props_of fields)) as [ts [e |]];
    simpl in *; [exact Hf |].
  destruct (upsert_plan cfg params rest) as [ts' e']. simpl in *.
  apply Forall_app. now split.
Qed.

Lemma delete_plan_shape (params : value) (type : string) :
  forall fields,
    Forall (fun t => exists field,
              In field fields /\ t = deleteResolver (apiId params) field type)
      (fst (delete_plan params type fields)).
Proof.
  induction fields as [| field rest IH]; simpl; [constructor |].
  destruct (absent params type field) as [b | e]; [| constructor].
  assert (Hrest : Forall (fun t => exists f,
                     (field = f \/ In f rest)
                     /\ t = deleteResolver (apiId params) f type)
                    (fst (delete_plan params type rest))).
  { revert IH. apply Forall_impl. intros t [f [Hf Ht]]. exists f. auto. }
  destruct (delete_plan params type rest) as [ts e']. simpl in *.
  destruct b; simpl; [constructor |]; try exact Hrest.
  exists field. auto.
Qed.

Lemma extends_delete_plan (params : value) (s s' : state) (type : string)
    (fs : list string) :
  snapshot_done params (trace s) (attempt s) ->
  seen_fields params s type fs -> extends params s s' ->
  extends params s (spawn_all PUpsert (fst (delete_plan params type fs)) s').
Proof.
  intros Hdone Hseen H.
  apply (spawn_all_ind PUpsert (extends params s)
           (fun t => exists field,
              In field fs /\ t = deleteResolver (apiId params) field type));
    [| apply delete_plan_shape | exact H].
  intros t s0 [field [Hin ->]] H0. now apply extends_deleteResolver with fs.
Qed.

Lemma extends_catch (params : value) (s s' : state) (e : error) :
  extends params s s' -> retryable e = false -> audit params (catch e s').
Proof.
  intros H He. apply audit_catch; [now apply extends_audit with s |].
  now apply caught_not_retryable.
Qed.

Lemma type_error_not_retryable (e : error) :
  (exists m, e = JsTypeError m) -> retryable e = false.
Proof. intros [m ->]. reflexivity. Qed.

Lemma audit_delete_phase (params : value) (existing : list string) (s s' : state) :
  snapshot_done params (trace s) (attempt s) ->
  seen_names params s existing -> extends params s s' ->
  audit params (delete_phase params existing s').
Proof.
  intros Hdone Hseen H. unfold delete_phase.
  destruct (getDataSourcesNames (resolvers params)) as [dsn | e] eqn:E.
  - rewrite removeOutdatedDataSources_plan.
    assert (Hs : extends params s
              (spawn_all PDelete
                 (map (deleteDataSource (apiId params)) (outdated existing dsn)) s')).
    { apply (spawn_all_ind PDelete (extends params s)
               (fun t => exists n,
                  In n existing /\ t = deleteDataSource (apiId params) n));
        [| | exact H].
      - intros t s0 [n [Hin ->]] H0. now apply extends_deleteDataSource with existing.
      - apply Forall_forall. intros t Ht. apply in_map_iff in Ht.
        destruct Ht as [n [<- Hn]]. exists n. split; [| reflexivity].
        unfold outdated in Hn. now apply filter_In in Hn. }
    unfold await_deletes. destruct (pending PDelete _).
    + apply audit_set_main; [now apply extends_audit with s | exact I].
    + apply audit_finish. now apply extends_audit with s.
  - apply extends_catch with s; [exact H |].
    apply type_error_not_retryable. now apply getDataSourcesNames_error in E.
Qed.

Lemma audit_upsert_phase (cfg : config) (params : value)
    (q m existing : list string) (s : state) :
  audit params s ->
  seen_fields params s "Query" q -> seen_fields params s "Mutation" m ->
  seen_names params s existing ->
  audit params (upsert_phase cfg params q m existing s).
Proof.
  intros H Hq Hm Hd. unfold upsert_phase. rewrite upsert_types_plan.
  assert (Hdone : snapshot_done params (trace s) (attempt s)).
  { destruct Hq as [rq [Rq Lq]]. destruct Hm as [rm [Rm Lm]].
    now exists rq, q, rm, m, existing. }
  assert (H1 : extends params s
            (spawn_all PUpsert
               (fst (upsert_plan cfg params (props_of (resolvers params)))) s)).
  { apply (spawn_all_ind PUpsert (extends params s) (fun t => forall r, quiet r t));
      [| apply upsert_plan_quiet | now apply extends_refl].
    intros t s0 Ht H0. now apply extends_quiet. }
  set (s1 := spawn_all PUpsert _ s) in *.
  pose proof (upsert_plan_error cfg params (props_of (resolvers params))) as He1.
  destruct (snd (upsert_plan cfg params (props_of (resolvers params)))) as [e |].
  { apply extends_catch with s; [exact H1 | now apply He1]. }
  rewrite delete_fields_plan.
  pose proof (extends_delete_plan params s s1 "Query" q Hdone Hq H1) as H2.
  set (s2 := spawn_all PUpsert _ s1) in *.
  pose proof (delete_plan_error params "Query" q) as He2.
  destruct (snd (delete_plan params "Query" q)) as [e |].
  { apply extends_catch with s; [exact H2 |].
    apply type_error_not_retryable. now apply He2. }
  rewrite delete_fields_plan.
  pose proof (extends_delete_plan params s s2 "Mutation" m Hdone Hm H2) as H3.
  set (s3 := spawn_all PUpsert _ s2) in *.
  pose proof (delete_plan_error params "Mutation" m) as He3.
  destruct (snd (delete_plan params "Mutation" m)) as [e |].
  { apply extends_catch with s; [exact H3 |].
    apply type_error_not_retryable. now apply He3. }
  unfold await_upserts. destruct (pending PUpsert s3).
  - apply audit_set_main; [now apply extends_audit with s |].
    unfold seen. simpl. split; [| now apply (extends_done params s s3)].
    destruct H3 as [_ [Ha [_ Hsub]]]. now apply seen_names_mono with s.
  - now apply audit_delete_phase with s.
Qed.

Lemma listResolvers_answers (params : value) (type : string)
    (f : list string -> tval) :
  (f = TQuery /\ type = "Query") \/ (f = TMutation /\ type = "Mutation") ->
  exists k,
    then_ (listResolvers (apiId params) type) f
    = Call (ListResolvers (apiId params) type) k
    /\ forall r, answers params (ListResolvers (apiId params) type) r (k r).
Proof.
  intros Hf. eexists. split; [reflexivity |].
  intros r. destruct r as [c m | rs | | | |]; simpl;
    try (split; [intros ms E | intros E]; discriminate).
  - destruct (String.eqb_spec c "NotFoundException") as [-> | Hc]; simpl.
    + assert (Hl : lists (Failed "NotFoundException" m) []) by (right; now exists m).
      destruct Hf as [[-> ->] | [-> ->]]; simpl; now split.
    + split; [intros ms E; discriminate | intros _; now exists c, m].
  - assert (Hl : lists (Resolvers rs) (fold_left add_key rs [])).
    { left. exists rs. split; [reflexivity |]. intros x Hx.
      apply (proj2 (fold_add_key rs [] (NoDup_nil _))) in Hx.
      destruct Hx as [[] | Hx]. exact Hx. }
    destruct Hf as [[-> ->] | [-> ->]]; simpl; now split.
Qed.

Lemma getExistingDataSourcesNames_answers (params : value) :
  exists k,
    then_ (getExistingDataSourcesNames (apiId params)) TNames
    = Call (ListDataSources (apiId params)) k
    /\ forall r, answers params (ListDataSources (apiId params)) r (k r).
Proof.
  eexists. split; [reflexivity |].
  intros r. destruct r as [c m | | | | |]; simpl;
    try (split; [intros ms E | intros E]; discriminate);
    [split; [intros ms E; discriminate | intros _; now exists c, m] | now split].
Qed.

Lemma audit_begin (params : value) (s : state) :
  audit params s -> audit params (begin params s).
Proof.
  intros H. destruct (top_error params) as [e |] eqn:Htop.
  - destruct (begin_invalid params s e Htop) as [-> Hr].
    apply audit_raise; [exact H | now left].
  - rewrite (begin_valid params s Htop).
    destruct (listResolvers_answers params "Query" TQuery) as [kq [-> Hq]]; [auto |].
    destruct (listResolvers_answers params "Mutation" TMutation) as [km [-> Hm]];
      [auto |].
    destruct (getExistingDataSourcesNames_answers params) as [kd [-> Hd]].
    apply audit_set_main; [| unfold seen; simpl; auto].
    simpl spawn.
    assert (Hp : forall s0, audit params s0 -> paused (trace s0) (attempt s0))
      by (intros s0 H0; apply H0).
    apply audit_issue; [| exact I | | exact Hd].
    + apply audit_issue; [| exact I | | exact Hm].
      * apply audit_issue; [exact H | exact I | now apply Hp | exact Hq].
      * apply (Hp (issue _ _ _ _ s)).
        apply audit_issue; [exact H | exact I | now apply Hp | exact Hq].
    + apply (Hp (issue _ _ _ _ (issue _ _ _ _ s))).
      apply audit_issue; [| exact I | | exact Hm].
      * apply audit_issue; [exact H | exact I | now apply Hp | exact Hq].
      * apply (Hp (issue _ _ _ _ s)).
        apply audit_issue; [exact H | exact I | now apply Hp | exact Hq].
Qed.

Lemma audit_next_attempt (params : value) (s : state) :
  audit params s -> main s = MSleep -> paused (trace s) (S (attempt s)) ->
  audit params
    {| attempt := S (attempt s); next_id := next_id s; trace := trace s;
       inflight := inflight s; main := main s |}.
Proof.
  intros [Htr [_ [Hfl _]]] Hm Hp.
  split; [exact Htr | split; [exact Hp | split; [exact Hfl |]]].
  unfold seen. simpl. now rewrite Hm.
Qed.

Lemma audit_settle (params : value) (s : state) (id : nat) (r : response)
    (rest : list call) :
  audit params s -> (forall c, In c rest -> In c (inflight s)) ->
  audit params (settle_state s id r rest).
Proof.
  intros [Htr [Hp [Hfl Hseen]]] Hsub.
  assert (Hin : forall x, In x (trace s) -> In x (trace (settle_state s id r rest)))
    by (intros x Hx; now right).
  split; [| split; [| split]].
  - simpl. now split.
  - now apply paused_mono with (trace s).
  - intros c Hc. apply in_flight_mono with (trace s); [exact Hin |].
    apply Hfl. now apply Hsub.
  - revert Hseen. apply seen_mono; simpl; auto.
Qed.

Lemma audited_in (params : value) (tr : list event) (e : event) :
  audited params tr -> In e tr ->
  exists older, event_ok params older e /\ forall x, In x older -> In x tr.
Proof.
  induction tr as [| x tr IH]; intros Ha Hin; [destruct Hin |].
  destruct Ha as [Ha Hx]. destruct Hin as [-> | Hin].
  - exists tr. split; [exact Hx | intros y Hy; now right].
  - destruct (IH Ha Hin) as [older [He Hsub]]. exists older.
    split; [exact He | intros y Hy; right; now apply Hsub].
Qed.

Lemma audit_step (cfg : config) (params : value) (s : state) (c : nat * response) :
  core s -> audit params s -> audit params (step cfg params s c).
Proof.
  intros Hcore H. destruct c as [id r]. unfold step.
  destruct (take id (inflight s)) as [[cl rest] |] eqn:T; [| exact H].
  destruct (negb (well_typed (c_op cl) r)); [exact H |].
  destruct (take_spec _ _ _ _ T) as [Hid [Hin [Hsub _]]].
  fold (settle_state s id r rest).
  pose proof (audit_settle params s id r rest H Hsub) as H1.
  destruct H as [Haud [_ [Hfl _]]]. destruct (Hfl cl Hin) as [Hissued [Hpaused Hans]].
  specialize (Hans r). rewrite Hid in Hissued.
  assert (Hrecv : forall a, a = c_attempt cl ->
            received (trace (settle_state s id r rest)) a (c_op cl) r).
  { intros a ->. exists id. simpl. split; [now right | now left]. }
  destruct (core_calls Hcore cl Hin) as [_ [Hph _]].
  set (s1 := settle_state s id r rest) in *.
  destruct (c_k cl r) as [v | e | o k].
  - destruct (awaited cl s1) eqn:Haw; [| exact H1].
    unfold awaited in Haw. apply andb_true_iff in Haw. destruct Haw as [Hatt Haw].
    apply Nat.eqb_eq in Hatt.
    unfold fulfilled. destruct (main s1) as [q m d | ex | | | res] eqn:Hmain.
    + cbv zeta.
      remember (match v with TQuery fs => Some fs | _ => q end) as q' eqn:Eq.
      remember (match v with TMutation fs => Some fs | _ => m end) as m' eqn:Em.
      remember (match v with TNames ns => Some ns | _ => d end) as d' eqn:Ed.
      pose proof (proj2 (proj2 (proj2 H1))) as Hseen. unfold seen in Hseen.
      rewrite Hmain in Hseen. destruct Hseen as [Sq [Sm Sd]].
      assert (Sq' : seen_part params s1 "Query" q').
      { subst q'. destruct v as [fs0 | fs0 | ns0 |]; auto. simpl in *.
        destruct Hans as [Eo Hl]. exists r. split; [| exact Hl].
        rewrite <- Eo. now apply Hrecv. }
      assert (Sm' : seen_part params s1 "Mutation" m').
      { subst m'. destruct v as [fs0 | fs0 | ns0 |]; auto. simpl in *.
        destruct Hans as [Eo Hl]. exists r. split; [| exact Hl].
        rewrite <- Eo. now apply Hrecv. }
      assert (Sd' : match d' with
                    | Some ns => seen_names params s1 ns
                    | None => True
                    end).
      { subst d'. destruct v as [fs0 | fs0 | ns0 |]; auto. simpl in *.
        destruct Hans as [Eo Er]. unfold seen_names. rewrite <- Eo, <- Er.
        now apply Hrecv. }
      clear Eq Em Ed.
      destruct q' as [fs |], m' as [gs |], d' as [ns |];
        first [ now apply audit_upsert_phase
              | apply audit_set_main; [exact H1 | unfold seen; simpl; auto] ].
    + destruct (pending PUpsert s1); [exact H1 |].
      pose proof (proj2 (proj2 (proj2 H1))) as Hseen. unfold seen in Hseen.
      rewrite Hmain in Hseen. destruct Hseen as [Hn Hdone].
      apply audit_delete_phase with s1; [exact Hdone | exact Hn |].
      now apply extends_refl.
    + destruct (pending PDelete s1); [exact H1 | now apply audit_finish].
    + unfold retry. apply audit_begin. apply audit_next_attempt; auto.
      destruct (c_phase cl); try discriminate.
      destruct (c_op cl) eqn:Eop; try discriminate.
      destruct (audited_in params (trace s) _ Haud Hissued) as [older [[[-> _] _] _]].
      exists r. split; [now apply Hrecv |].
      destruct v; simpl in Hans; try (destruct Hans as [Eo _]; discriminate).
      now apply (Hans 1000%Z).
    + exact H1.
  - destruct (awaited cl s1) eqn:Haw; [| exact H1].
    unfold awaited in Haw. apply andb_true_iff in Haw. destruct Haw as [Hatt Haw].
    apply Nat.eqb_eq in Hatt. simpl in Hans. destruct Hans as [Hsl Hre].
    assert (Hcaught : caught s1 e).
    { intros He. destruct (Hre He) as [c0 [m0 [-> ->]]].
      exists (c_op cl), c0, m0. split; [| reflexivity]. apply Hrecv.
      now symmetry. }
    unfold rejected. destruct (main s1) eqn:Hmain; try now apply audit_catch.
    apply audit_raise; [exact H1 |]. right.
    destruct (c_phase cl); try discriminate.
    destruct (c_op cl) eqn:Eop; try discriminate.
    destruct (Hsl ms eq_refl) as [c0 [m0 [-> ->]]].
    exists (c_attempt cl), ms, c0, m0. split; [| reflexivity]. now apply Hrecv.
  - simpl in Hans. destruct Hans as [Hfirst Hq].
    destruct (quiet_call _ _ _ Hq) as [Ho Hk].
    destruct (audited_in params (trace s) _ Haud Hissued) as [older [[Hop _] Hold]].
    apply later_op_done in Hop; [| exact Hfirst].
    apply audit_issue; [exact H1 | | |].
    + apply later_op_ok; [exact Ho |].
      apply snapshot_done_mono with older; [| exact Hop].
      intros x Hx. right. now apply Hold.
    + now apply paused_mono with (trace s); [intros x Hx; right |].
    + intros r'. apply quiet_answers; [exact Ho | apply Hk].
Qed.

Lemma audit_exec (cfg : config) (params : value) (cs : list (nat * response)) :
  audit params (exec cfg params cs).
Proof.
  assert (Hidle : audit params idle).
  { split; [exact I | split; [exact I | split; [intros c [] | exact I]]]. }
  destruct (top_error params) as [e |] eqn:Htop.
  - rewrite (exec_invalid cfg params e Htop).
    destruct (begin_invalid params idle e Htop) as [_ Hr].
    apply audit_raise; [exact Hidle | now left].
  - unfold exec.
    assert (H : forall s, inv cfg params s -> audit params s ->
                inv cfg params (fold_left (step cfg params) cs s)
                /\ audit params (fold_left (step cfg params) cs s)).
    { induction cs as [| c cs' IH]; intros s Hi Ha; simpl; [now split |].
      apply IH; [now apply inv_step | apply audit_step; [apply Hi | exact Ha]]. }
    apply H; [now apply inv_start | now apply audit_begin].
Qed.

Lemma audited_split (params : value) (newer older : list event) (e : event) :
  audited params (newer ++ e :: older) ->
  audited params older /\ event_ok params older e.
Proof.
  induction newer as [| x newer IH]; simpl; intros [Ha He]; [now split | now apply IH].
Qed.

Lemma received_rev (h : list event) (a : nat) (o : op) (r : response) :
  received (rev h) a o r ->
  exists id, In (Issue id a o) h /\ In (Settle id r) h.
Proof. intros [id [Hi Hs]]. exists id. split; now apply in_rev. Qed.

(** X12. A run deletes a resolver, or a data source, only after the
    same attempt has received from the matching list call a list that
    names it. *)
Theorem deletes_follow_the_snapshot (cfg : config) (params : value)
    (cs : list (nat * response)) (h1 h2 : list event) (id a : nat) :
  (forall v field type,
     history (exec cfg params cs)
     = h1 ++ Issue id a (DeleteResolver v field type) :: h2 ->
     exists id' fields,
       In (Issue id' a (ListResolvers (apiId params) type)) h1
       /\ In (Settle id' (Resolvers fields)) h1
       /\ In field fields)
  /\ (forall v name,
        history (exec cfg params cs)
        = h1 ++ Issue id a (DeleteDataSource v name) :: h2 ->
        exists id' names,
          In (Issue id' a (ListDataSources (apiId params))) h1
          /\ In (Settle id' (DataSources names)) h1
          /\ In name names).
Proof.
  pose proof (audit_exec cfg params cs) as [Htr _].
  split.
  - intros v field type H. rewrite (history_split _ _ _ _ H) in Htr.
    apply audited_split in Htr. destruct Htr as [_ [[_ [fields [Hr Hin]]] _]].
    destruct (received_rev _ _ _ _ Hr) as [id' [Hi Hs]].
    now exists id', fields.
  - intros v name H. rewrite (history_split _ _ _ _ H) in Htr.
    apply audited_split in Htr. destruct Htr as [_ [[_ [names [Hr Hin]]] _]].
    destruct (received_rev _ _ _ _ Hr) as [id' [Hi Hs]].
    now exists id', names.
Qed.

Lemma deletes_follow_the_snapshot_witness :
  exists id' names,
    In (Issue id' 0 (ListDataSources (apiId Scenario.redirect)))
      (firstn 16 (history (exec Example.cfg Scenario.redirect Scenario.redirect_run)))
    /\ In (Settle id' (DataSources names))
         (firstn 16
            (history (exec Example.cfg Scenario.redirect Scenario.redirect_run)))
    /\ In "oldDs" names.
Proof.
  apply (proj2 (deletes_follow_the_snapshot Example.cfg Scenario.redirect
                  Scenario.redirect_run
                  (firstn 16
                     (history (exec Example.cfg Scenario.redirect
                                 Scenario.redirect_run)))
                  [] 8 0) Example.api "oldDs").
  vm_compute. reflexivity.
Defined.

(** X13. The error a run ends with is never one its handler retries
    on (the schema conflict of lines 336-339), unless it is the failure
    of the pause of line 340 itself. *)
Theorem raised_error_is_not_a_conflict (cfg : config) (params : value)
    (cs : list (nat * response)) (e : error) :
  In (Raise e) (history (exec cfg params cs)) ->
  retryable e = false
  \/ exists id a ms c m,
       In (Issue id a (Sleep ms)) (history (exec cfg params cs))
       /\ In (Settle id (Failed c m)) (history (exec cfg params cs))
       /\ e = ServiceError c m.
Proof.
  intros H. pose proof (audit_exec cfg params cs) as [Htr _].
  unfold history in *. apply in_rev in H.
  destruct (in_split _ _ H) as [newer [older E]].
  rewrite E in Htr. apply audited_split in Htr. destruct Htr as [_ Htr].
  simpl in Htr.
  destruct Htr as [Hr | [a [ms [c [m [[id [Hi Hs]] ->]]]]]]; [now left |].
  right. exists id, a, ms, c, m. rewrite <- !in_rev, E.
  repeat split; apply in_or_app; right; now right.
Qed.

Lemma raised_error_is_not_a_conflict_witness :
  retryable Example.access_denied = false
  \/ exists id a ms c m,
       In (Issue id a (Sleep ms))
         (history (exec Example.cfg Example.one
                     [(0, Failed "AccessDeniedException" "denied")]))
       /\ In (Settle id (Failed c m))
            (history (exec Example.cfg Example.one
                        [(0, Failed "AccessDeniedException" "denied")]))
       /\ Example.access_denied = ServiceError c m.
Proof.
  apply (raised_error_is_not_a_conflict Example.cfg Example.one
           [(0, Failed "AccessDeniedException" "denied")] Example.access_denied).
  in_list.
Defined.

(** X14. A further attempt is started only after a call of the attempt
    before it was rejected with the schema conflict, and after the pause
    of one second that followed has ended. *)
Theorem attempt_follows_conflict_and_pause (cfg : config) (params : value)
    (cs : list (nat * response)) (h1 h2 : list event) (id a : nat) (o : op) :
  history (exec cfg params cs) = h1 ++ Issue id (S a) o :: h2 ->
  (exists id1 o1 m,
     In (Issue id1 a o1) h1
     /\ In (Settle id1 (Failed "ConcurrentModificationException" m)) h1
     /\ includes "Schema is currently being altered" m = true)
  /\ (exists id2 r,
        In (Issue id2 a (Sleep 1000)) h1
        /\ In (Settle id2 r) h1
        /\ forall c m, r <> Failed c m).
Proof.
  intros H. pose proof (audit_exec cfg params cs) as [Htr _].
  rewrite (history_split _ _ _ _ H) in Htr.
  apply audited_split in Htr. destruct Htr as [Hold [_ [r [Hr Hf]]]].
  destruct Hr as [id2 [Hi Hs]].
  destruct (audited_in params _ _ Hold Hi) as [older [[[_ Hc] _] Hsub]].
  destruct Hc as [o1 [c [m [[id1 [Hi1 Hs1]] Hre]]]].
  unfold retryable in Hre. simpl in Hre. apply andb_true_iff in Hre.
  destruct Hre as [Hcode Hmsg]. apply String.eqb_eq in Hcode. subst c.
  split.
  - exists id1, o1, m. repeat split; [| | exact Hmsg]; apply in_rev; now apply Hsub.
  - exists id2, r. repeat split; [now apply in_rev | now apply in_rev | exact Hf].
Qed.

Lemma attempt_follows_conflict_and_pause_witness :
  (exists id1 o1 m,
     In (Issue id1 0 o1)
       (firstn 11 (history (exec Example.cfg Example.one Example.locked_run)))
     /\ In (Settle id1 (Failed "ConcurrentModificationException" m))
          (firstn 11 (history (exec Example.cfg Example.one Example.locked_run)))
     /\ includes "Schema is currently being altered" m = true)
  /\ (exists id2 r,
        In (Issue id2 0 (Sleep 1000))
          (firstn 11 (history (exec Example.cfg Example.one Example.locked_run)))
        /\ In (Settle id2 r)
             (firstn 11 (history (exec Example.cfg Example.one Example.locked_run)))
        /\ forall c m, r <> Failed c m).
Proof.
  apply (attempt_follows_conflict_and_pause Example.cfg Example.one
           Example.locked_run
           (firstn 11 (history (exec Example.cfg Example.one Example.locked_run)))
           (skipn 12 (history (exec Example.cfg Example.one Example.locked_run)))
           6 0 (ListResolvers Example.api "Query")).
  vm_compute. reflexivity.
Defined.

Lemma deltaSync_only_truthy_members_witness :
  deltaSync_of [("table", VStr "users"); ("ttl", VNum 3600)] <> None
  /\ forall d,
       deltaSync_of [("table", VStr "users"); ("ttl", VNum 3600)] = Some d ->
       baseTableTTL d = Some (VNum 3600)
       /\ deltaSyncTableName d = None
       /\ deltaSyncTableTTL d = None.
Proof.
  split.
  - intros H.
    apply (proj1 (deltaSync_only_truthy_members
                    [("table", VStr "users"); ("ttl", VNum 3600)])) in H.
    destruct H as [H _]. discriminate.
  - exact (proj2 (deltaSync_only_truthy_members
                    [("table", VStr "users"); ("ttl", VNum 3600)])).
Defined.

(** X15. An attempt issues a call other than its three list calls and
    the pause only after it has received the answers of the three list
    calls: the existing resolvers of [Query] and of [Mutation] (a list,
    or the [NotFoundException] that stands for none) and the list of
    the existing data sources. *)
Theorem calls_follow_the_three_lists (cfg : config) (params : value)
    (cs : list (nat * response)) (h1 h2 : list event) (id a : nat) (o : op) :
  history (exec cfg params cs) = h1 ++ Issue id a o :: h2 ->
  acts o = true ->
  let answered (r : response) :=
    (exists fields, r = Resolvers fields)
    \/ (exists m, r = Failed "NotFoundException" m) in
  exists iq rq im rm ids names,
    (In (Issue iq a (ListResolvers (apiId params) "Query")) h1
     /\ In (Settle iq rq) h1 /\ answered rq)
    /\ (In (Issue im a (ListResolvers (apiId params) "Mutation")) h1
        /\ In (Settle im rm) h1 /\ answered rm)
    /\ (In (Issue ids a (ListDataSources (apiId params))) h1
        /\ In (Settle ids (DataSources names)) h1).
Proof.
  intros H Hacts answered.
  pose proof (audit_exec cfg params cs) as [Htr _].
  rewrite (history_split _ _ _ _ H) in Htr.
  apply audited_split in Htr. destruct Htr as [_ [Hop _]].
  assert (Hdone : snapshot_done params (rev h1) a).
  { destruct o; simpl in Hop, Hacts; try discriminate; tauto. }
  destruct Hdone as [rq [q [rm [m [ns [Hq [Lq [Hm [Lm Hd]]]]]]]]].
  destruct (received_rev _ _ _ _ Hq) as [iq [Iq Sq]].
  destruct (received_rev _ _ _ _ Hm) as [im [Im Sm]].
  destruct (received_rev _ _ _ _ Hd) as [ids [Id Sd]].
  assert (Ha : forall r fs, lists r fs -> answered r).
  { intros r fs [[fields [-> _]] | [msg [-> _]]]; [left | right]; eauto. }
  exists iq, rq, im, rm, ids, ns.
  split; [| split]; repeat split; eauto.
Qed.

Lemma calls_follow_the_three_lists_witness :
  exists iq rq im rm ids names,
    (In (Issue iq 0 (ListResolvers (apiId Scenario.redirect) "Query"))
       (firstn 11 (history (exec Example.cfg Scenario.redirect Scenario.redirect_run)))
     /\ In (Settle iq rq)
          (firstn 11
             (history (exec Example.cfg Scenario.redirect Scenario.redirect_run)))
     /\ ((exists fields, rq = Resolvers fields)
         \/ (exists m, rq = Failed "NotFoundException" m)))
    /\ (In (Issue im 0 (ListResolvers (apiId Scenario.redirect) "Mutation"))
          (firstn 11
             (history (exec Example.cfg Scenario.redirect Scenario.redirect_run)))
        /\ In (Settle im rm)
             (firstn 11
                (history (exec Example.cfg Scenario.redirect Scenario.redirect_run)))
        /\ ((exists fields, rm = Resolvers fields)
            \/ (exists m, rm = Failed "NotFoundException" m)))
    /\ (In (Issue ids 0 (ListDataSources (apiId Scenario.redirect)))
          (firstn 11
             (history (exec Example.cfg Scenario.redirect Scenario.redirect_run)))
        /\ In (Settle ids (DataSources names))
             (firstn 11
                (history (exec Example.cfg Scenario.redirect Scenario.redirect_run)))).
Proof.
  apply (calls_follow_the_three_lists Example.cfg Scenario.redirect
           Scenario.redirect_run
           (firstn 11
              (history (exec Example.cfg Scenario.redirect Scenario.redirect_run)))
           (skipn 12
              (history (exec Example.cfg Scenario.redirect Scenario.redirect_run)))
           6 0 (UpdateDataSource Example.usersFn)).
  - vm_compute. reflexivity.
  - reflexivity.
Defined.

(** ** What is in flight when the run returns *)

Lemma take_split (id : nat) (l : list call) :
  forall c rest,
    take id l = Some (c, rest) ->
    exists l1 l2, l = l1 ++ c :: l2 /\ rest = l1 ++ l2 /\ c_id c = id.
Proof.
  induction l as [| c0 l IH]; intros c rest H; simpl in H; [discriminate |].
  destruct (Nat.eqb_spec (c_id c0) id) as [E | E].
  - inversion H; subst. now exists [], rest.
  - destruct (take id l) as [[c' rest'] |] eqn:T; [| discriminate].
    inversion H; subst. destruct (IH c rest' eq_refl) as [l1 [l2 [-> [-> Hid]]]].
    now exists (c0 :: l1), l2.
Qed.

Lemma tidy_issue (s : state) (a : nat) (ph : phase) (o : op)
    (k : response -> task tval) :
  tidy s -> a <= attempt s -> tidy (issue a ph o k s).
Proof.
  intros [Hnd [Hb Htr]] Ha. split; [| split].
  - simpl. rewrite map_app. simpl. apply NoDup_app; [exact Hnd | |].
    + constructor; [intros [] | constructor].
    + intros x Hx [<- | []]. apply in_map_iff in Hx. destruct Hx as [c [E Hc]].
      destruct (Hb c Hc) as [Hlt _]. lia.
  - intros c Hc. simpl in Hc. apply in_app_iff in Hc. simpl.
    destruct Hc as [Hc | [<- | []]]; [destruct (Hb c Hc); lia | simpl; lia].
  - intros id a' o' [E | H]; simpl.
    + inversion E; subst. right. eexists. split; [apply in_or_app; right; now left |].
      simpl. auto.
    + destruct (Htr id a' o' H) as [[r Hr] | [c [Hc Hid]]].
      * left. exists r. now right.
      * right. exists c. split; [apply in_or_app; now left | exact Hid].
Qed.

Lemma tidy_emit (e : event) (s : state) :
  (forall id a o, e <> Issue id a o) -> tidy s -> tidy (emit e s).
Proof.
  intros He [Hnd [Hb Htr]]. split; [exact Hnd | split; [exact Hb |]].
  intros id a o [E | H]; simpl; [now destruct (He id a o) |].
  destruct (Htr id a o H) as [[r Hr] | Hc]; [left; exists r; now right | now right].
Qed.

Lemma tidy_settle (s : state) (id : nat) (r : response) (cl : call)
    (rest : list call) :
  tidy s -> take id (inflight s) = Some (cl, rest) ->
  tidy (settle_state s id r rest) /\ forall x, In x rest -> c_id x <> id.
Proof.
  intros [Hnd [Hb Htr]] T.
  destruct (take_split _ _ _ _ T) as [l1 [l2 [El [-> Hid]]]].
  rewrite El, map_app in Hnd. simpl in Hnd. apply NoDup_remove in Hnd.
  destruct Hnd as [Hnd Hnot]. rewrite <- map_app in Hnd, Hnot.
  assert (Hsub : forall x, In x (l1 ++ l2) -> In x (inflight s)).
  { intros x Hx. rewrite El. apply in_app_iff in Hx. apply in_or_app.
    destruct Hx; [now left | right; now right]. }
  split; [split; [exact Hnd | split] |].
  - intros c Hc. simpl. apply Hb. now apply Hsub.
  - intros id' a o [E | H]; simpl; [discriminate |].
    destruct (Htr id' a o H) as [[r' Hr] | [c [Hc [Hcid Hca]]]].
    + left. exists r'. now right.
    + rewrite El in Hc. apply in_app_iff in Hc.
      destruct Hc as [Hc | [<- | Hc]].
      * right. exists c. split; [apply in_or_app; now left | auto].
      * left. exists r. left. congruence.
      * right. exists c. split; [apply in_or_app; now right | auto].
  - intros x Hx E. apply Hnot. rewrite Hid, <- E. now apply in_map.
Qed.

Lemma tidy_next_attempt (s : state) :
  tidy s ->
  tidy {| attempt := S (attempt s); next_id := next_id s; trace := trace s;
          inflight := inflight s; main := main s |}.
Proof.
  intros [Hnd [Hb Htr]]. split; [exact Hnd | split; [| exact Htr]].
  intros c Hc. simpl. destruct (Hb c Hc). lia.
Qed.

Lemma none_current_in_phase (ph : phase) (s : state) :
  none_current s -> in_phase ph s.
Proof. intros H c Hc Ha. now destruct (H c Hc). Qed.

Lemma in_phase_none_current (ph : phase) (s : state) :
  in_phase ph s -> pending ph s = false -> none_current s.
Proof.
  intros Hin Hp c Hc Ha. apply (pending_false ph s Hp c Hc Ha). now apply Hin.
Qed.

Lemma spawning_spawn (ph : phase) (s s' : state) (t : task tval) :
  spawning ph s s' -> spawning ph s (spawn ph t s').
Proof.
  intros H. destruct t as [v | e | o k]; try exact H.
  destruct H as [Ht [Ha [Hm [Hin Hret]]]]. simpl.
  split; [| split; [| split; [| split]]]; auto.
  - apply tidy_issue; [exact Ht | lia].
  - intros c Hc Hc'. simpl in Hc. apply in_app_iff in Hc.
    destruct Hc as [Hc | [<- | []]]; [now apply Hin | reflexivity].
  - simpl. intros [E | Hr]; [discriminate | now apply Hret].
Qed.

Lemma spawning_all (ph : phase) (ts : list (task tval)) (s s' : state) :
  spawning ph s s' -> spawning ph s (spawn_all ph ts s').
Proof.
  intros H.
  apply (spawn_all_ind ph (spawning ph s) (fun _ => True)); [| | exact H].
  - intros t s0 _. apply spawning_spawn.
  - apply Forall_forall. auto.
Qed.

Lemma spawning_start (ph : phase) (s : state) :
  tidy s -> none_current s -> spawning ph s s.
Proof.
  intros Ht Hn. split; [exact Ht |]. repeat split; auto.
  now apply none_current_in_phase.
Qed.

Lemma discipline_raise (params : value) (e : error) (s : state) :
  tidy s -> ~ In Return (trace s) -> discipline params (raise e s).
Proof.
  intros Ht Hr. unfold raise. split; [| split].
  - apply tidy_emit; [discriminate | exact Ht].
  - exact I.
  - simpl. intros [E | H]; [discriminate | contradiction].
Qed.

Lemma discipline_catch (params : value) (e : error) (s : state) :
  tidy s -> ~ In Return (trace s) -> discipline params (catch e s).
Proof.
  intros Ht Hr. unfold catch. destruct (retryable e); [| now apply discipline_raise].
  unfold sleep, then_, await. simpl. split; [| split].
  - apply tidy_issue; [exact Ht | lia].
  - exact I.
  - simpl. intros [E | H]; [discriminate | contradiction].
Qed.

Lemma discipline_finish (params : value) (s : state) :
  tidy s -> none_current s -> discipline params (finish s).
Proof.
  intros Ht Hn. unfold finish. split; [| split].
  - apply tidy_emit; [discriminate | exact Ht].
  - exact Hn.
  - reflexivity.
Qed.

Lemma spawning_catch (params : value) (ph : phase) (e : error) (s s' : state) :
  spawning ph s s' -> ~ In Return (trace s) -> discipline params (catch e s').
Proof.
  intros [Ht [_ [_ [_ Hret]]]] Hr. apply discipline_catch; [exact Ht |].
  intros H. apply Hr. now apply Hret.
Qed.

Lemma discipline_delete_phase (params : value) (existing : list string) (s : state) :
  tidy s -> none_current s -> ~ In Return (trace s) ->
  discipline params (delete_phase params existing s).
Proof.
  intros Ht Hn Hr. unfold delete_phase.
  destruct (getDataSourcesNames (resolvers params)) as [dsn | e];
    [| now apply discipline_catch].
  rewrite removeOutdatedDataSources_plan.
  pose proof (spawning_all PDelete
                (map (deleteDataSource (apiId params)) (outdated existing dsn))
                s s (spawning_start PDelete s Ht Hn)) as H.
  set (s1 := spawn_all PDelete _ s) in *.
  destruct H as [Ht1 [Ha [Hm [Hin Hret]]]].
  unfold await_deletes. destruct (pending PDelete s1) eqn:Hp.
  - split; [exact Ht1 | split; [exact Hin |]].
    simpl. intros H. destruct (Hr (Hret H)).
  - apply discipline_finish; [exact Ht1 |]. now apply in_phase_none_current with PDelete.
Qed.

Lemma discipline_upsert_phase (cfg : config) (params : value)
    (q m existing : list string) (s : state) :
  tidy s -> none_current s -> ~ In Return (trace s) ->
  discipline params (upsert_phase cfg params q m existing s).
Proof.
  intros Ht Hn Hr. unfold upsert_phase. rewrite upsert_types_plan.
  pose proof (spawning_all PUpsert
                (fst (upsert_plan cfg params (props_of (resolvers params))))
                s s (spawning_start PUpsert s Ht Hn)) as H1.
  set (s1 := spawn_all PUpsert _ s) in *.
  destruct (snd (upsert_plan cfg params (props_of (resolvers params)))) as [e |].
  { now apply spawning_catch with PUpsert s. }
  rewrite delete_fields_plan.
  pose proof (spawning_all PUpsert (fst (delete_plan params "Query" q)) s s1 H1) as H2.
  set (s2 := spawn_all PUpsert _ s1) in *.
  destruct (snd (delete_plan params "Query" q)) as [e |].
  { now apply spawning_catch with PUpsert s. }
  rewrite delete_fields_plan.
  pose proof (spawning_all PUpsert (fst (delete_plan params "Mutation" m)) s s2 H2)
    as H3.
  set (s3 := spawn_all PUpsert _ s2) in *.
  destruct (snd (delete_plan params "Mutation" m)) as [e |].
  { now apply spawning_catch with PUpsert s. }
  destruct H3 as [Ht3 [Ha [Hm [Hin Hret]]]].
  unfold await_upserts. destruct (pending PUpsert s3) eqn:Hp.
  - split; [exact Ht3 | split; [exact Hin |]].
    simpl. intros H. destruct (Hr (Hret H)).
  - apply discipline_delete_phase; [exact Ht3 | |].
    + now apply in_phase_none_current with PUpsert.
    + intros H. apply Hr. now apply Hret.
Qed.

Lemma listResolvers_single (a : value) (type : string) (f : list string -> tval) :
  exists k,
    then_ (listResolvers a type) f = Call (ListResolvers a type) k
    /\ forall r, match k r with Call _ _ => False | _ => True end.
Proof.
  eexists. split; [reflexivity |].
  intros r. destruct r as [c m | | | | |]; simpl; auto.
  destruct (c =? "NotFoundException"); simpl; auto.
Qed.

Lemma getExistingDataSourcesNames_single (a : value) :
  exists k,
    then_ (getExistingDataSourcesNames a) TNames = Call (ListDataSources a) k
    /\ forall r, match k r with Call _ _ => False | _ => True end.
Proof.
  eexists. split; [reflexivity |]. intros r. destruct r; simpl; auto.
Qed.

Lemma discipline_begin (params : value) (s : state) :
  tidy s -> none_current s -> ~ In Return (trace s) ->
  discipline params (begin params s).
Proof.
  intros Ht Hn Hr. destruct (top_error params) as [e |] eqn:Htop.
  { destruct (begin_invalid params s e Htop) as [-> _]. now apply discipline_raise. }
  rewrite (begin_valid params s Htop).
  destruct (listResolvers_single (apiId params) "Query" TQuery) as [kq [-> Hq]].
  destruct (listResolvers_single (apiId params) "Mutation" TMutation) as [km [-> Hm]].
  destruct (getExistingDataSourcesNames_single (apiId params)) as [kd [-> Hd]].
  simpl spawn.
  set (s1 := issue (attempt s) PSnapshot (ListResolvers (apiId params) "Query") kq s).
  set (s2 := issue (attempt s1) PSnapshot
               (ListResolvers (apiId params) "Mutation") km s1).
  set (s3 := issue (attempt s2) PSnapshot (ListDataSources (apiId params)) kd s2).
  assert (Ht1 : tidy s1) by (apply tidy_issue; [exact Ht | lia]).
  assert (Ht2 : tidy s2) by (apply tidy_issue; [exact Ht1 | lia]).
  assert (Ht3 : tidy s3) by (apply tidy_issue; [exact Ht2 | lia]).
  split; [exact Ht3 | split].
  - simpl. exists (next_id s). intros c Hc Ha.
    unfold s3, s2, s1 in Hc, Ha. simpl in Hc, Ha.
    rewrite !in_app_iff in Hc. simpl in Hc.
    destruct Hc as [[[Hc | [<- | []]] | [<- | []]] | [<- | []]].
    + now destruct (Hn c Hc).
    + split; [exact Hq | left; auto].
    + split; [exact Hm | right; left; auto].
    + split; [exact Hd | right; right; auto].
  - simpl. intros [E | [E | [E | H]]]; try discriminate. contradiction.
Qed.

Lemma placed_rest (params : value) (s s' : state) :
  (forall x, In x (inflight s') -> In x (inflight s)) ->
  attempt s' = attempt s -> main s' = main s ->
  placed params s -> placed params s'.
Proof.
  intros Hsub Ha Hm. unfold placed. rewrite Hm.
  destruct (main s) as [q m d | ex | | | [e |]]; auto.
  - intros [n Hf]. exists n. intros c Hc Hc'. apply Hf; [now apply Hsub | congruence].
  - intros H c Hc Hc'. apply H; [now apply Hsub | congruence].
  - intros H c Hc Hc'. apply H; [now apply Hsub | congruence].
  - intros H c Hc Hc'. apply (H c); [now apply Hsub | congruence].
Qed.

Lemma fills_other (params : value) (n : nat) (q m d q' m' d' : option (list string))
    (cl x : call) :
  fills params n q m d cl -> fills params n q m d x -> c_id x <> c_id cl ->
  (c_op cl <> ListResolvers (apiId params) "Query" -> q' = q) ->
  (c_op cl <> ListResolvers (apiId params) "Mutation" -> m' = m) ->
  (c_op cl <> ListDataSources (apiId params) -> d' = d) ->
  fills params n q' m' d' x.
Proof.
  intros [_ Hcl] [Hs Hx] Hne Hq Hm Hd. split; [exact Hs |].
  destruct Hcl as [[Ic [Oc _]] | [[Ic [Oc _]] | [Ic [Oc _]]]];
    destruct Hx as [[Ix [Ox Nx]] | [[Ix [Ox Nx]] | [Ix [Ox Nx]]]];
    try (exfalso; apply Hne; congruence).
  - right. left. repeat split; auto. rewrite Hm; [exact Nx | rewrite Oc; discriminate].
  - right. right. repeat split; auto. rewrite Hd; [exact Nx | rewrite Oc; discriminate].
  - left. repeat split; auto. rewrite Hq; [exact Nx | rewrite Oc; discriminate].
  - right. right. repeat split; auto. rewrite Hd; [exact Nx | rewrite Oc; discriminate].
  - left. repeat split; auto. rewrite Hq; [exact Nx | rewrite Oc; discriminate].
  - right. left. repeat split; auto. rewrite Hm; [exact Nx | rewrite Oc; discriminate].
Qed.

Lemma discipline_step (cfg : config) (params : value) (s : state)
    (c : nat * response) :
  audit params s -> discipline params s -> discipline params (step cfg params s c).
Proof.
  intros Haudit Hd. pose proof Hd as [Ht [Hpl Hret]].
  destruct c as [id r]. unfold step.
  destruct (take id (inflight s)) as [[cl rest] |] eqn:T; [| exact Hd].
  destruct (negb (well_typed (c_op cl) r)); [exact Hd |].
  destruct (take_spec _ _ _ _ T) as [Hid [Hin [Hsub _]]].
  destruct (tidy_settle s id r cl rest Ht T) as [Ht1 Hfresh].
  fold (settle_state s id r rest).
  destruct Haudit as [_ [_ [Hfl _]]]. destruct (Hfl cl Hin) as [_ [_ Hans]].
  specialize (Hans r).
  assert (Hpl1 : placed params (settle_state s id r rest)).
  { revert Hpl. apply placed_rest; auto. }
  assert (Hret1 : In Return (trace (settle_state s id r rest)) -> main s = MDone None).
  { simpl. intros [E | H]; [discriminate | now apply Hret]. }
  assert (Hd1 : discipline params (settle_state s id r rest)).
  { split; [exact Ht1 | split; [exact Hpl1 | exact Hret1]]. }
  assert (Hle : c_attempt cl <= attempt s) by (apply Ht; exact Hin).
  set (s1 := settle_state s id r rest) in *.
  assert (Hnot : forall q m d, main s = MSnapshot q m d -> ~ In Return (trace s1)).
  { intros q m d Hm H. rewrite (Hret1 H) in Hm. discriminate. }
  destruct (c_k cl r) as [v | e | o k] eqn:Ek.
  - destruct (awaited cl s1) eqn:Haw; [| exact Hd1].
    unfold awaited in Haw. apply andb_true_iff in Haw. destruct Haw as [Hatt Haw].
    apply Nat.eqb_eq in Hatt. change (attempt s1) with (attempt s) in Hatt.
    change (main s1) with (main s) in Haw.
    unfold fulfilled. change (main s1) with (main s).
    destruct (main s) as [q m d | ex | | | res] eqn:Hmain.
    + cbv zeta.
      remember (match v with TQuery fs => Some fs | _ => q end) as q' eqn:Eq.
      remember (match v with TMutation fs => Some fs | _ => m end) as m' eqn:Em.
      remember (match v with TNames ns => Some ns | _ => d end) as d' eqn:Ed.
      unfold placed in Hpl. rewrite Hmain in Hpl. destruct Hpl as [n Hf].
      assert (Hf' : forall x, In x rest -> c_attempt x = attempt s ->
                    fills params n q' m' d' x).
      { intros x Hx Hxa.
        apply (fills_other params n q m d q' m' d' cl x);
          [now apply Hf | apply Hf; [now apply Hsub | exact Hxa]
          | rewrite Hid; now apply Hfresh | | |];
          intros Hop; subst; destruct v; simpl in Hans; try reflexivity;
          destruct Hans as [Eo _]; now destruct Hop. }
      clear Eq Em Ed.
      assert (Hr1 : ~ In Return (trace s1)) by now apply (Hnot q m d).
      destruct q' as [fs |], m' as [gs |], d' as [ns |];
        try (split; [exact Ht1 | split; [exists n; exact Hf' |]];
             simpl; intros H; now destruct (Hr1 H)).
      apply discipline_upsert_phase; [exact Ht1 | | exact Hr1].
      intros x Hx Hxa. destruct (Hf' x Hx Hxa) as [_ [H | [H | H]]];
        destruct H as [_ [_ H]]; discriminate.
    + assert (Hr1 : ~ In Return (trace s1)).
      { intros H. pose proof (Hret1 H) as E. congruence. }
      destruct (pending PUpsert s1) eqn:Hp; [exact Hd1 |].
      apply discipline_delete_phase; [exact Ht1 | | exact Hr1].
      apply in_phase_none_current with PUpsert; [| exact Hp].
      unfold placed in Hpl1. change (main s1) with (main s) in Hpl1.
      now rewrite Hmain in Hpl1.
    + destruct (pending PDelete s1) eqn:Hp; [exact Hd1 |].
      apply discipline_finish; [exact Ht1 |].
      apply in_phase_none_current with PDelete; [| exact Hp].
      unfold placed in Hpl1. change (main s1) with (main s) in Hpl1.
      now rewrite Hmain in Hpl1.
    + unfold retry. apply discipline_begin.
      * now apply tidy_next_attempt.
      * intros x Hx. simpl. simpl in Hx.
        assert (c_attempt x <= attempt s) by (apply Ht; now apply Hsub). lia.
      * simpl. intros [E | H]; [discriminate |].
        pose proof (Hret H) as E. congruence.
    + exact Hd1.
  - destruct (awaited cl s1) eqn:Haw; [| exact Hd1].
    unfold awaited in Haw. apply andb_true_iff in Haw. destruct Haw as [Hatt Haw].
    change (main s1) with (main s) in Haw.
    assert (Hr1 : ~ In Return (trace s1)).
    { intros H. rewrite (Hret1 H) in Haw. discriminate. }
    unfold rejected. destruct (main s1);
      [now apply discipline_catch .. | now apply discipline_raise
      | now apply discipline_catch].
  - split; [| split].
    + apply tidy_issue; [exact Ht1 | exact Hle].
    + unfold placed. change (main (issue _ _ _ _ s1)) with (main s).
      unfold placed in Hpl, Hpl1. change (main s1) with (main s) in Hpl1.
      destruct (main s) as [q m d | ex | | | [e |]] eqn:Hmain; auto.
      * destruct Hpl as [n Hf]. destruct Hpl1 as [n1 Hf1]. exists n1.
        intros x Hx Hxa. simpl in Hx. apply in_app_iff in Hx.
        destruct Hx as [Hx | [<- | []]]; [now apply Hf1 |].
        simpl in Hxa. destruct (Hf cl Hin Hxa) as [Hs _].
        specialize (Hs r). rewrite Ek in Hs. destruct Hs.
      * intros x Hx Hxa. simpl in Hx. apply in_app_iff in Hx.
        destruct Hx as [Hx | [<- | []]]; [now apply Hpl1 |].
        simpl in *. now apply Hpl.
      * intros x Hx Hxa. simpl in Hx. apply in_app_iff in Hx.
        destruct Hx as [Hx | [<- | []]]; [now apply Hpl1 |].
        simpl in *. now apply Hpl.
      * intros x Hx. simpl in Hx. apply in_app_iff in Hx.
        destruct Hx as [Hx | [<- | []]]; [now apply Hpl1 |].
        simpl. now apply Hpl.
    + simpl. intros [E | [E | H]]; try discriminate. now apply Hret.
Qed.

Lemma discipline_exec (cfg : config) (params : value) (cs : list (nat * response)) :
  discipline params (exec cfg params cs).
Proof.
  assert (Ht : tidy idle).
  { split; [constructor | split; [intros c [] | intros id a o []]]. }
  assert (Hn : none_current idle) by (intros c []).
  assert (Hr : ~ In Return (trace idle)) by (intros []).
  destruct (top_error params) as [e |] eqn:Htop.
  - rewrite (exec_invalid cfg params e Htop). now apply discipline_raise.
  - unfold exec.
    assert (H : forall s, inv cfg params s -> audit params s -> discipline params s ->
                discipline params (fold_left (step cfg params) cs s)).
    { induction cs as [| c cs' IH]; intros s Hi Ha Hd; simpl; [exact Hd |].
      apply IH; [now apply inv_step | | now apply discipline_step].
      apply audit_step; [apply Hi | exact Ha]. }
    apply H; [now apply inv_start | | now apply discipline_begin].
    apply audit_begin.
    split; [exact I | split; [exact I | split; [intros c [] | exact I]]].
Qed.

(** X16. When a run returns, every call issued by the attempt that
    returns has settled: what can still be in flight belongs to earlier
    attempts. *)
Theorem return_after_the_calls_of_the_attempt (cfg : config) (params : value)
    (cs : list (nat * response)) :
  In Return (history (exec cfg params cs)) ->
  forall id o,
    In (Issue id (attempt (exec cfg params cs)) o) (history (exec cfg params cs)) ->
    exists r, In (Settle id r) (history (exec cfg params cs)).
Proof.
  intros Hret id o Hissue.
  destruct (discipline_exec cfg params cs) as [[_ [_ Htr]] [Hpl Hdone]].
  unfold history in *. apply in_rev in Hret. apply in_rev in Hissue.
  unfold placed in Hpl. rewrite (Hdone Hret) in Hpl.
  destruct (Htr _ _ _ Hissue) as [[r Hr] | [c [Hc [_ Ha]]]].
  - exists r. now apply in_rev in Hr.
  - now destruct (Hpl c Hc).
Qed.

Lemma return_after_the_calls_of_the_attempt_witness :
  exists r,
    In (Settle 3 r) (history (exec Example.cfg Example.shared Example.shared_run)).
Proof.
  apply (return_after_the_calls_of_the_attempt Example.cfg Example.shared
           Example.shared_run) with (o := GetRoleArn (VStr "role")).
  - in_list.
  - in_list.
Defined.

(** ** An API that is not found *)

Lemma begin_snapshot (params : value) (s0 : state) :
  top_error params = None ->
  exists kq km kd,
    begin params s0
    = {| attempt := attempt s0;
         next_id := 3 + next_id s0;
         trace := Issue (2 + next_id s0) (attempt s0) (ListDataSources (apiId params))
                  :: Issue (1 + next_id s0) (attempt s0)
                       (ListResolvers (apiId params) "Mutation")
                  :: Issue (next_id s0) (attempt s0)
                       (ListResolvers (apiId params) "Query")
                  :: trace s0;
         inflight := inflight s0 ++
           [ snapshot_call (next_id s0) (attempt s0)
               (ListResolvers (apiId params) "Query") kq;
             snapshot_call (1 + next_id s0) (attempt s0)
               (ListResolvers (apiId params) "Mutation") km;
             snapshot_call (2 + next_id s0) (attempt s0)
               (ListDataSources (apiId params)) kd ];
         main := MSnapshot None None None |}
    /\ (forall r, kq r = after_listResolvers TQuery r)
    /\ (forall r, km r = after_listResolvers TMutation r)
    /\ (forall r, kd r = after_listDataSources r).
Proof.
  intros Htop. rewrite (begin_valid params s0 Htop). simpl.
  unfold set_main, issue. simpl.
  rewrite <- !app_assoc. simpl. eexists _, _, _.
  split; [reflexivity |].
  repeat split; intros r; destruct r as [c m | | | | |]; simpl; try reflexivity;
    destruct (c =? "NotFoundException"); reflexivity.
Qed.

(** X17. [NotFoundException] is not treated alike by the two halves of
    the snapshot: from the list calls of resolvers it stands for no
    resolver and the run goes on; from the list call of data sources it,
    like any rejection the handler does not retry on, ends the run with
    that error before any other call is issued. *)
Theorem data_sources_not_found_ends_the_run (cfg : config) (params : value)
    (rq rm : response) (c m : string) :
  well_formed params ->
  no_resolvers rq -> no_resolvers rm ->
  retryable (ServiceError c m) = false ->
  let s := exec cfg params [(0, rq); (1, rm); (2, Failed c m)] in
  history s
  = [ Issue 0 0 (ListResolvers (apiId params) "Query");
      Issue 1 0 (ListResolvers (apiId params) "Mutation");
      Issue 2 0 (ListDataSources (apiId params));
      Settle 0 rq; Settle 1 rm; Settle 2 (Failed c m);
      Raise (ServiceError c m) ]
  /\ main s = MDone (Some (ServiceError c m)).
Proof.
  intros Hwf Hq Hm Hre s. subst s.
  pose proof (well_formed_top params Hwf) as Htop.
  assert (Hret : forall f r, no_resolvers r -> after_listResolvers f r = Ret (f [])).
  { intros f r [-> | [msg ->]]; reflexivity. }
  unfold exec, start.
  destruct (begin_snapshot params idle Htop) as [kq [km [kd [-> [Hkq [Hkm Hkd]]]]]].
  cbn [fold_left].
  match goal with
  | |- context [step cfg params ?s (0, rq)] => set (s0 := s)
  end.
  simpl in s0.
  assert (E1 : step cfg params s0 (0, rq)
               = {| attempt := 0; next_id := 3;
                    trace := Settle 0 rq :: trace s0;
                    inflight :=
                      [ snapshot_call 1 0 (ListResolvers (apiId params) "Mutation") km;
                        snapshot_call 2 0 (ListDataSources (apiId params)) kd ];
                    main := MSnapshot (Some []) None None |}).
  { unfold step. simpl.
    rewrite well_typed_no_resolvers, Hkq, Hret by assumption. reflexivity. }
  rewrite E1. clear E1.
  match goal with
  | |- context [step cfg params ?s (1, rm)] => set (s1 := s)
  end.
  assert (E2 : step cfg params s1 (1, rm)
               = {| attempt := 0; next_id := 3;
                    trace := Settle 1 rm :: trace s1;
                    inflight :=
                      [ snapshot_call 2 0 (ListDataSources (apiId params)) kd ];
                    main := MSnapshot (Some []) (Some []) None |}).
  { unfold step. simpl.
    rewrite well_typed_no_resolvers, Hkm, Hret by assumption. reflexivity. }
  rewrite E2. clear E2.
  unfold step. simpl. rewrite Hkd. simpl.
  unfold rejected, catch. simpl. rewrite Hre.
  split; reflexivity.
Qed.

Lemma data_sources_not_found_ends_the_run_witness :
  let s := exec Example.cfg Example.one
             [ (0, Failed "NotFoundException" "no api");
               (1, Failed "NotFoundException" "no api");
               (2, Failed "NotFoundException" "no api") ] in
  history s
  = [ Issue 0 0 (ListResolvers (apiId Example.one) "Query");
      Issue 1 0 (ListResolvers (apiId Example.one) "Mutation");
      Issue 2 0 (ListDataSources (apiId Example.one));
      Settle 0 (Failed "NotFoundException" "no api");
      Settle 1 (Failed "NotFoundException" "no api");
      Settle 2 (Failed "NotFoundException" "no api");
      Raise (ServiceError "NotFoundException" "no api") ]
  /\ main s = MDone (Some (ServiceError "NotFoundException" "no api")).
Proof.
  apply (data_sources_not_found_ends_the_run Example.cfg Example.one
           (Failed "NotFoundException" "no api")
           (Failed "NotFoundException" "no api") "NotFoundException" "no api").
  - repeat split; reflexivity.
  - right. now exists "no api".
  - right. now exists "no api".
  - reflexivity.
Defined.

(** ** What a run starts once it has its snapshot *)

Lemma deployments_spawn_all (ph : phase) (ts : list (task tval)) :
  forall s,
    (Forall starts_deployment ts ->
     deployments (trace (spawn_all ph ts s)) = length ts + deployments (trace s))
    /\ (Forall starts_other ts ->
        deployments (trace (spawn_all ph ts s)) = deployments (trace s)).
Proof.
  induction ts as [| t ts IH]; intros s; simpl; [split; reflexivity |].
  destruct (IH (spawn ph t s)) as [IH1 IH2]. split; intros H; inversion H; subst.
  - rewrite IH1 by assumption.
    match goal with Ht : starts_deployment t |- _ => destruct Ht as [v [k ->]] end.
    unfold deployments. simpl. lia.
  - rewrite IH2 by assumption.
    destruct t as [v | e | o k]; try reflexivity.
    destruct o; try reflexivity.
    match goal with Ht : starts_other _ |- _ => destruct Ht end.
Qed.

Lemma deployments_catch (e : error) (s : state) :
  deployments (trace (catch e s)) = deployments (trace s).
Proof. unfold catch. destruct (retryable e); reflexivity. Qed.

Lemma trace_catch (e : error) (s : state) (x : event) :
  In x (trace s) -> In x (trace (catch e s)).
Proof. unfold catch. destruct (retryable e); simpl; auto. Qed.

Lemma delete_phase_keeps (params : value) (existing : list string) (s : state) :
  (forall x, In x (trace s) -> In x (trace (delete_phase params existing s)))
  /\ deployments (trace (delete_phase params existing s)) = deployments (trace s).
Proof.
  unfold delete_phase.
  destruct (getDataSourcesNames (resolvers params)) as [dsn | e].
  - rewrite removeOutdatedDataSources_plan.
    destruct (spawn_all_trace PDelete
                (map (deleteDataSource (apiId params)) (outdated existing dsn)) s)
      as [Hmono _].
    assert (Hd : deployments
                   (trace (spawn_all PDelete
                      (map (deleteDataSource (apiId params)) (outdated existing dsn))
                      s))
                 = deployments (trace s)).
    { apply deployments_spawn_all. apply Forall_forall. intros t Ht.
      apply in_map_iff in Ht. destruct Ht as [n [<- _]]. exact I. }
    unfold await_deletes. destruct (pending PDelete _); simpl.
    + split; [exact Hmono | exact Hd].
    + split; [intros x Hx; right; now apply Hmono | exact Hd].
  - split; [intros x; apply trace_catch | apply deployments_catch].
Qed.

Lemma upsert_plan_fields_starts (cfg : config) (params : value) (type : string) :
  forall fields,
    Forall starts_deployment (fst (upsert_plan_fields cfg params type fields))
    /\ (snd (upsert_plan_fields cfg params type fields) = None ->
        length (fst (upsert_plan_fields cfg params type fields)) = length fields).
Proof.
  induction fields as [| [field spec] rest [IH1 IH2]]; simpl;
    [split; [constructor | reflexivity] |].
  destruct (negb (typeof spec =? "object")); [split; [constructor | discriminate] |].
  destruct (upsert_plan_fields cfg params type rest) as [ts e]. simpl in *.
  split.
  - constructor; [| exact IH1].
    destruct (deployAppSyncResolver_head cfg (spec_params params spec type field)
                (fun _ => TVoid)) as [k [E _]].
    now exists (lookup "roleName" (spec_params params spec type field)), k.
  - intros He. now rewrite IH2.
Qed.

Lemma upsert_plan_starts (cfg : config) (params : value) :
  forall types,
    Forall starts_deployment (fst (upsert_plan cfg params types))
    /\ (snd (upsert_plan cfg params types) = None ->
        length (fst (upsert_plan cfg params types)) = length (entries (VObj types))).
Proof.
  unfold entries. simpl.
  induction types as [| [type fields] rest [IH1 IH2]]; simpl;
    [split; [constructor | reflexivity] |].
  destruct (negb (typeof fields =? "object")); [split; [constructor | discriminate] |].
  destruct (upsert_plan_fields_starts cfg params type (props_of fields)) as [Hf1 Hf2].
  destruct (upsert_plan_fields cfg params type (props_of fields)) as [ts [e |]];
    simpl in *; [split; [exact Hf1 | discriminate] |].
  destruct (upsert_plan cfg params rest) as [ts' e']. simpl in *.
  split.
  - apply Forall_app. now split.
  - intros He. rewrite !length_app, length_map, Hf2, IH2; auto.
Qed.

Lemma delete_plan_starts (params : value) (type : string) (fields : list string) :
  Forall starts_other (fst (delete_plan params type fields)).
Proof.
  pose proof (delete_plan_shape params type fields) as H.
  revert H. apply Forall_impl. intros t [f [_ ->]]. exact I.
Qed.

Lemma absent_total (params : value) (type field type' field' : string) (b : bool) :
  absent params type field = Ok b -> exists b', absent params type' field' = Ok b'.
Proof.
  unfold absent. destruct (resolvers params); try discriminate; intros _;
    destruct (negb (truthy _)); eauto.
Qed.

Lemma delete_plan_complete (params : value) (type : string) (b0 : bool)
    (type0 field0 : string) :
  absent params type0 field0 = Ok b0 ->
  forall fields,
    snd (delete_plan params type fields) = None
    /\ forall f, In f fields -> absent params type f = Ok true ->
         In (deleteResolver (apiId params) f type) (fst (delete_plan params type fields)).
Proof.
  intros H0. induction fields as [| field rest [IH1 IH2]]; simpl;
    [split; [reflexivity | intros f []] |].
  destruct (absent_total params type0 field0 type field b0 H0) as [b Hb].
  rewrite Hb. destruct (delete_plan params type rest) as [ts e]. simpl in *.
  split; [exact IH1 |].
  intros f [<- | Hin] Hf.
  - rewrite Hb in Hf. inversion Hf; subst. now left.
  - apply in_or_app. right. now apply IH2.
Qed.

Lemma spawn_all_attempt (ph : phase) (ts : list (task tval)) (s : state) :
  attempt (spawn_all ph ts s) = attempt s.
Proof.
  apply (spawn_all_ind ph (fun s' => attempt s' = attempt s) (fun _ => True));
    [| apply Forall_forall; auto | reflexivity].
  intros t s0 _ H. now rewrite (proj1 (spawn_frame ph t s0)).
Qed.

Lemma await_upserts_keeps (params : value) (existing : list string) (s : state) :
  (forall x, In x (trace s) -> In x (trace (await_upserts params existing s)))
  /\ deployments (trace (await_upserts params existing s)) = deployments (trace s).
Proof.
  unfold await_upserts. destruct (pending PUpsert s); [split; auto |].
  apply delete_phase_keeps.
Qed.

Lemma upsert_phase_complete (cfg : config) (params : value)
    (q m existing : list string) (s : state) :
  plan_error cfg params = None ->
  (forall x, In x (trace s) ->
     In x (trace (upsert_phase cfg params q m existing s)))
  /\ deployments (trace (upsert_phase cfg params q m existing s))
     = length (entries (resolvers params)) + deployments (trace s)
  /\ forall b0 type0 field0,
       absent params type0 field0 = Ok b0 ->
       (forall f, In f q -> absent params "Query" f = Ok true ->
          exists id,
            In (Issue id (attempt s) (DeleteResolver (apiId params) f "Query"))
              (trace (upsert_phase cfg params q m existing s)))
       /\ (forall f, In f m -> absent params "Mutation" f = Ok true ->
             exists id,
               In (Issue id (attempt s) (DeleteResolver (apiId params) f "Mutation"))
                 (trace (upsert_phase cfg params q m existing s))).
Proof.
  intros Hplan. unfold plan_error in Hplan.
  unfold upsert_phase. rewrite upsert_types_plan, Hplan.
  destruct (upsert_plan_starts cfg params (props_of (resolvers params))) as [Hst Hlen].
  specialize (Hlen Hplan).
  assert (Ev : entries (VObj (props_of (resolvers params))) = entries (resolvers params))
    by now destruct (resolvers params).
  rewrite Ev in Hlen.
  set (ups := fst (upsert_plan cfg params (props_of (resolvers params)))) in *.
  destruct (spawn_all_trace PUpsert ups s) as [M1 _].
  pose proof (proj1 (deployments_spawn_all PUpsert ups s) Hst) as D1.
  rewrite Hlen in D1.
  set (s1 := spawn_all PUpsert ups s) in *.
  rewrite delete_fields_plan.
  destruct (spawn_all_trace PUpsert (fst (delete_plan params "Query" q)) s1)
    as [M2 [_ I2]].
  pose proof (proj2 (deployments_spawn_all PUpsert _ s1)
                (delete_plan_starts params "Query" q)) as D2.
  assert (A2 : attempt s1 = attempt s) by apply spawn_all_attempt.
  set (s2 := spawn_all PUpsert (fst (delete_plan params "Query" q)) s1) in *.
  assert (Hnull : forall type fs e,
            snd (delete_plan params type fs) = Some e ->
            forall b0 type0 field0, absent params type0 field0 <> Ok b0).
  { intros type fs e He b0 type0 field0 H0.
    destruct (delete_plan_complete params type b0 type0 field0 H0 fs) as [Hn _].
    congruence. }
  destruct (snd (delete_plan params "Query" q)) as [e |] eqn:Eq.
  { split; [intros x Hx; apply trace_catch; auto | split].
    - rewrite deployments_catch. lia.
    - intros b0 type0 field0 H0. now destruct (Hnull _ _ _ Eq b0 type0 field0). }
  rewrite delete_fields_plan.
  destruct (spawn_all_trace PUpsert (fst (delete_plan params "Mutation" m)) s2)
    as [M3 [_ I3]].
  pose proof (proj2 (deployments_spawn_all PUpsert _ s2)
                (delete_plan_starts params "Mutation" m)) as D3.
  assert (A3 : attempt s2 = attempt s).
  { unfold s2. now rewrite spawn_all_attempt. }
  set (s3 := spawn_all PUpsert (fst (delete_plan params "Mutation" m)) s2) in *.
  destruct (snd (delete_plan params "Mutation" m)) as [e |] eqn:Em.
  { split; [intros x Hx; apply trace_catch; auto | split].
    - rewrite deployments_catch. lia.
    - intros b0 type0 field0 H0. now destruct (Hnull _ _ _ Em b0 type0 field0). }
  destruct (await_upserts_keeps params existing s3) as [M4 D4].
  split; [intros x Hx; auto | split; [lia |]].
  intros b0 type0 field0 H0. split; intros f Hin Hf.
  - destruct (delete_plan_complete params "Query" b0 type0 field0 H0 q) as [_ Hc].
    specialize (Hc f Hin Hf). unfold deleteResolver, then_, await in Hc. simpl in Hc.
    destruct (I2 _ _ Hc) as [id Hid]. exists id. rewrite <- A2. auto.
  - destruct (delete_plan_complete params "Mutation" b0 type0 field0 H0 m) as [_ Hc].
    specialize (Hc f Hin Hf). unfold deleteResolver, then_, await in Hc. simpl in Hc.
    destruct (I3 _ _ Hc) as [id Hid]. exists id. rewrite <- A3. auto.
Qed.

Lemma deployments_rev (h : list event) : deployments (rev h) = deployments h.
Proof.
  unfold deployments. induction h as [| e h IH]; [reflexivity |].
  simpl. rewrite filter_app, length_app, IH. simpl.
  destruct (is_role_lookup e); simpl; lia.
Qed.

(** X18. Once the three list calls of the first attempt have answered,
    a run whose desired state passes the shape checks starts one
    deployment per entry of the desired state, and issues the delete of
    every existing resolver of [Query] and of [Mutation] that the
    desired state lacks. *)
Theorem snapshot_starts_every_change (cfg : config) (params : value)
    (q m names : list string) :
  well_formed params -> plan_error cfg params = None ->
  let h := history (exec cfg params
                      [(0, Resolvers q); (1, Resolvers m); (2, DataSources names)]) in
  deployments h = length (entries (resolvers params))
  /\ (forall f, In f q -> absent params "Query" f = Ok true ->
        exists id, In (Issue id 0 (DeleteResolver (apiId params) f "Query")) h)
  /\ (forall f, In f m -> absent params "Mutation" f = Ok true ->
        exists id, In (Issue id 0 (DeleteResolver (apiId params) f "Mutation")) h).
Proof.
  intros Hwf Hplan h. subst h.
  pose proof (well_formed_top params Hwf) as Htop.
  unfold exec, start.
  destruct (begin_snapshot params idle Htop) as [kq [km [kd [-> [Hkq [Hkm Hkd]]]]]].
  cbn [fold_left].
  match goal with
  | |- context [step cfg params ?s (0, Resolvers q)] => set (s0 := s)
  end.
  simpl in s0.
  assert (E1 : step cfg params s0 (0, Resolvers q)
               = {| attempt := 0; next_id := 3;
                    trace := Settle 0 (Resolvers q) :: trace s0;
                    inflight :=
                      [ snapshot_call 1 0 (ListResolvers (apiId params) "Mutation") km;
                        snapshot_call 2 0 (ListDataSources (apiId params)) kd ];
                    main := MSnapshot (Some (fold_left add_key q [])) None None |}).
  { unfold step. simpl. rewrite Hkq. reflexivity. }
  rewrite E1. clear E1.
  match goal with
  | |- context [step cfg params ?s (1, Resolvers m)] => set (s1 := s)
  end.
  assert (E2 : step cfg params s1 (1, Resolvers m)
               = {| attempt := 0; next_id := 3;
                    trace := Settle 1 (Resolvers m) :: trace s1;
                    inflight :=
                      [ snapshot_call 2 0 (ListDataSources (apiId params)) kd ];
                    main := MSnapshot (Some (fold_left add_key q []))
                              (Some (fold_left add_key m [])) None |}).
  { unfold step. simpl. rewrite Hkm. reflexivity. }
  rewrite E2. clear E2.
  match goal with
  | |- context [step cfg params ?s (2, DataSources names)] => set (s2 := s)
  end.
  assert (E3 : step cfg params s2 (2, DataSources names)
               = upsert_phase cfg params (fold_left add_key q [])
                   (fold_left add_key m []) names
                   (settle_state s2 2 (DataSources names) [])).
  { unfold step. simpl. rewrite Hkd. reflexivity. }
  rewrite E3. clear E3.
  set (s3 := settle_state s2 2 (DataSources names) []).
  destruct (upsert_phase_complete cfg params (fold_left add_key q [])
              (fold_left add_key m []) names s3 Hplan) as [_ [Hd Hdel]].
  unfold history. split; [| split].
  - rewrite deployments_rev, Hd.
    assert (H0 : deployments (trace s3) = 0) by reflexivity. lia.
  - intros f Hin Hf. destruct (Hdel true "Query" f Hf) as [Hq _].
    destruct (Hq f) as [id Hid]; [| exact Hf |].
    + apply (proj2 (fold_add_key q [] (NoDup_nil _))). now right.
    + exists id. now apply -> in_rev.
  - intros f Hin Hf. destruct (Hdel true "Mutation" f Hf) as [_ Hm].
    destruct (Hm f) as [id Hid]; [| exact Hf |].
    + apply (proj2 (fold_add_key m [] (NoDup_nil _))). now right.
    + exists id. now apply -> in_rev.
Qed.

Lemma snapshot_starts_every_change_witness :
  deployments
    (history (exec Example.cfg Example.shared
                [(0, Resolvers ["oldField"]); (1, Resolvers []); (2, DataSources [])]))
  = 2
  /\ exists id,
       In (Issue id 0 (DeleteResolver (apiId Example.shared) "oldField" "Query"))
         (history (exec Example.cfg Example.shared
                     [(0, Resolvers ["oldField"]); (1, Resolvers []);
                      (2, DataSources [])])).
Proof.
  destruct (snapshot_starts_every_change Example.cfg Example.shared
              ["oldField"] [] []) as [Hd [Hq _]].
  - repeat split; reflexivity.
  - reflexivity.
  - split; [exact Hd |]. apply Hq; [now left | reflexivity].
Defined.

(** ** The key of the memoized [deployAppSyncDataSourceCached] *)

Lemma omit_obj_set_in (keys : list string) (k : string) (v : value) (o : obj) :
  mem k keys = true -> omit keys (obj_set k v o) = omit keys o.
Proof.
  intros Hk. unfold omit. induction o as [| [k' v'] o IH]; simpl.
  - now rewrite Hk.
  - destruct (String.eqb_spec k' k) as [-> | Hne]; simpl.
    + now rewrite Hk.
    + now rewrite IH.
Qed.

Lemma omit_obj_set_out (keys : list string) (k : string) (v : value) (o : obj) :
  mem k keys = false -> omit keys (obj_set k v o) = obj_set k v (omit keys o).
Proof.
  intros Hk. unfold omit. induction o as [| [k' v'] o IH]; simpl.
  - now rewrite Hk.
  - destruct (String.eqb_spec k' k) as [-> | Hne]; simpl.
    + rewrite Hk. simpl. now rewrite String.eqb_refl.
    + rewrite IH. destruct (negb (mem k' keys)); simpl; [| reflexivity].
      destruct (String.eqb_spec k' k) as [E | _]; [now destruct Hne | reflexivity].
Qed.

(** X19. The key under which [deployAppSyncDataSourceCached] would
    memoize a resolver's data source depends neither on the type and
    the field of the resolver nor on the templates of its spec: two
    resolvers that differ in nothing else get the same key. *)
Theorem cacheKey_ignores_resolver_and_templates (params : value) (spec : obj)
    (type field type' field' : string) (request response : value) :
  cacheKey (spec_params params
              (VObj (obj_set "response" response (obj_set "request" request spec)))
              type field)
  = cacheKey (spec_params params (VObj spec) type' field').
Proof.
  unfold cacheKey, spec_params. simpl props_of.
  rewrite !(omit_obj_set_in _ "field"), !(omit_obj_set_in _ "type") by reflexivity.
  rewrite !(omit_obj_set_out _ "roleName"), !(omit_obj_set_out _ "apiId") by reflexivity.
  rewrite (omit_obj_set_in _ "response"), (omit_obj_set_in _ "request") by reflexivity.
  reflexivity.
Qed.

(** * Properties of [deployCertificate.js] *)

Section CertificateFacts.

Import Certificate.

Variable getNakedDomain : value -> string.

Lemma then_do_inv {A B : Type} (p : proc A) (f : A -> proc B) (rs : list answer)
    (ops : list request) (out : outcome B) :
  then_do p f rs = (ops, out) ->
  (exists ops1 a rest ops2,
     p rs = (ops1, Returned a rest) /\ f a rest = (ops2, out) /\ ops = ops1 ++ ops2)
  \/ (p rs = (ops, Waiting) /\ out = Waiting)
  \/ (exists e, p rs = (ops, Thrown e) /\ out = Thrown e).
Proof.
  unfold then_do. destruct (p rs) as [ops1 [| a rest | e]].
  - intros E. inversion E; subst. right. left. now split.
  - destruct (f a rest) as [ops2 out2] eqn:Ef. intros E. inversion E; subst.
    left. now exists ops1, a, rest, ops2.
  - intros E. inversion E; subst. right. right. now exists e.
Qed.

Lemma call_inv (o : request) (rs : list answer) (ops : list request)
    (out : outcome answer) :
  call o rs = (ops, out) ->
  ops = [o]
  /\ match out with
     | Returned r rest => rs = r :: rest /\ forall c m, r <> Rejected c m
     | Waiting => rs = []
     | Thrown e => exists c m rest, rs = Rejected c m :: rest /\ e = ServiceError c m
     end.
Proof.
  unfold call. destruct rs as [| r rest].
  - intros E. inversion E; subst. now split.
  - destruct r as [c0 m0 | | | | |]; intros E; inversion E; subst; split;
      try reflexivity; try (split; [reflexivity | intros c m; discriminate]).
    now exists c0, m0, rest.
Qed.

Lemma find_first {A : Type} (f : A -> bool) (l1 l2 : list A) (x : A) :
  (forall y, In y l1 -> f y = false) -> f x = true ->
  find f (l1 ++ x :: l2) = Some x.
Proof.
  intros H Hx. induction l1 as [| y l1 IH]; simpl.
  - now rewrite Hx.
  - rewrite (H y) by now left. apply IH. intros z Hz. apply H. now right.
Qed.

Lemma find_none {A : Type} (f : A -> bool) (l : list A) :
  (forall y, In y l -> f y = false) -> find f l = None.
Proof.
  intros H. induction l as [| y l IH]; simpl; [reflexivity |].
  rewrite (H y) by now left. apply IH. intros z Hz. apply H. now right.
Qed.

(** X20. [getCertificateArnByDomain] looks at the first certificate
    of the list whose [DomainName] is the domain, and at no other:
    its ARN is the result when it is truthy, [null] is the result when
    it is not, whatever certificates follow; without such a
    certificate the result is [null]. *)
Theorem first_certificate_of_the_domain_decides (domain : string)
    (l : list summary) (rest : list answer) :
  (forall l1 c l2,
     l = l1 ++ c :: l2 ->
     (forall x, In x l1 -> same (s_DomainName x) domain = false) ->
     same (s_DomainName c) domain = true ->
     getCertificateArnByDomain domain (Summaries l :: rest)
     = ([ListCertificates],
        Returned (if truthy (s_CertificateArn c) then s_CertificateArn c else VNull)
          rest))
  /\ ((forall x, In x l -> same (s_DomainName x) domain = false) ->
      getCertificateArnByDomain domain (Summaries l :: rest)
      = ([ListCertificates], Returned VNull rest)).
Proof.
  unfold getCertificateArnByDomain, then_do, call. split.
  - intros l1 c l2 -> H1 Hc.
    rewrite (find_first (fun cert => same (s_DomainName cert) domain) l1 l2 c H1 Hc).
    reflexivity.
  - intros H.
    rewrite (find_none (fun cert => same (s_DomainName cert) domain) l H).
    reflexivity.
Qed.

Lemma describe_spec (arn : value) (domain : string) :
  forall k rs ops c rest,
    length rs <= k ->
    describeCertificateByArn arn domain rs = (ops, Returned c rest) ->
    usable c domain
    /\ In (Described (Some c)) rs
    /\ exists n,
         ops = DescribeCertificate arn :: rounds arn n
         /\ length rs = 2 * n + 1 + length rest.
Proof.
  induction k as [| k IH]; intros rs ops c rest Hlen H.
  - destruct rs; [discriminate | simpl in Hlen; lia].
  - destruct rs as [| r rs1]; [discriminate |]. simpl in H.
    destruct r as [code msg | | | | [c0 |] |]; try discriminate.
    destruct (same (Status c0) "PENDING_VALIDATION") eqn:Hp.
    + destruct (getCertificateValidationRecord c0 domain) as [[rec |] | e] eqn:Hr;
        try discriminate.
      * inversion H; subst. split; [right; now exists rec |].
        split; [now left |].
        exists 0. split; [reflexivity | simpl; lia].
      * destruct rs1 as [| r1 rs2]; [discriminate |].
        assert (Hgo : exists ops',
                  describeCertificateByArn arn domain rs2 = (ops', Returned c rest)
                  /\ ops = DescribeCertificate arn :: Pause 1000 :: ops').
        { destruct r1; try discriminate;
            destruct (describeCertificateByArn arn domain rs2) as [ops' out];
            inversion H; subst; now exists ops'. }
        destruct Hgo as [ops' [Hd ->]].
        destruct (IH rs2 ops' c rest) as [Hu [Hin [n [-> Hn]]]];
          [simpl in Hlen; lia | exact Hd |].
        split; [exact Hu |]. split; [right; now right |].
        exists (S n). split; [reflexivity | simpl; lia].
    + inversion H; subst. split; [now left |]. split; [now left |].
      exists 0. split; [reflexivity | simpl; lia].
Qed.

(** X21. [describeCertificateByArn] never hands back a certificate
    that is pending without the record that validates the domain; up to
    there it has described the certificate once, and once more after a
    pause of one second for every earlier answer that was not usable. *)
Theorem describeCertificateByArn_returns_usable (arn : value) (domain : string)
    (rs : list answer) (ops : list request) (c : certificate) (rest : list answer) :
  describeCertificateByArn arn domain rs = (ops, Returned c rest) ->
  usable c domain
  /\ In (Described (Some c)) rs
  /\ exists n,
       ops = DescribeCertificate arn :: rounds arn n
       /\ length rs = 2 * n + 1 + length rest.
Proof. apply (describe_spec arn domain (length rs)). lia. Qed.

(** X22. [describeCertificateByArn] has no bound on its rounds: as
    long as the certificate is described as pending without the record
    of the domain, it pauses for a second and describes it again. *)
Theorem describeCertificateByArn_keeps_polling (arn : value) (domain : string)
    (c : certificate) (n : nat) :
  same (Status c) "PENDING_VALIDATION" = true ->
  getCertificateValidationRecord c domain = Ok None ->
  describeCertificateByArn arn domain (still_pending c n)
  = (DescribeCertificate arn :: rounds arn n, Waiting).
Proof.
  intros Hp Hr. induction n as [| n IH]; [reflexivity |].
  simpl. rewrite Hp, Hr, IH. reflexivity.
Qed.


(** *** The calls of the exported function *)

Lemma then_do_all {A B : Type} (Q : request -> Prop) (p : proc A) (f : A -> proc B)
    (rs : list answer) :
  Forall Q (fst (p rs)) ->
  (forall a rest, snd (p rs) = Returned a rest -> Forall Q (fst (f a rest))) ->
  Forall Q (fst (then_do p f rs)).
Proof.
  unfold then_do. destruct (p rs) as [ops [| a rest | e]]; simpl; auto.
  intros Hp Hf. specialize (Hf a rest eq_refl).
  destruct (f a rest) as [ops' out]. simpl in *. apply Forall_app. now split.
Qed.

Lemma call_ops (o : request) (rs : list answer) : fst (call o rs) = [o].
Proof. destruct rs as [| [] rest]; reflexivity. Qed.

Lemma call_returned (o : request) (rs : list answer) (r : answer)
    (rest : list answer) :
  snd (call o rs) = Returned r rest -> rs = r :: rest.
Proof.
  destruct rs as [| [] rs']; simpl; intros E; inversion E; reflexivity.
Qed.

Lemma getCertificateArnByDomain_ops (domain : string) (rs : list answer) :
  fst (getCertificateArnByDomain domain rs) = [ListCertificates].
Proof.
  unfold getCertificateArnByDomain, then_do, call.
  destruct rs as [| [c m | z | l | a | c |] rest]; try reflexivity.
  simpl. destruct (find _ l); reflexivity.
Qed.

Lemma getCertificateArnByDomain_returned (domain : string) (rs : list answer)
    (v : value) (rest : list answer) :
  snd (getCertificateArnByDomain domain rs) = Returned v rest ->
  exists l, rs = Summaries l :: rest /\ v = arn_of l domain.
Proof.
  unfold getCertificateArnByDomain, then_do, call, arn_of, ret, throw.
  destruct rs as [| [c m | z | l | a | c |] rs']; simpl; try discriminate.
  destruct (find _ l) eqn:Ef; simpl; intros E; inversion E; subst; exists l;
    rewrite Ef; split; reflexivity.
Qed.

Lemma describe_ops (arn : value) (domain : string) :
  forall k rs,
    length rs <= k ->
    Forall (fun o => o = DescribeCertificate arn \/ o = Pause 1000)
      (fst (describeCertificateByArn arn domain rs)).
Proof.
  assert (H1 : Forall (fun o => o = DescribeCertificate arn \/ o = Pause 1000)
                 [DescribeCertificate arn]) by (repeat constructor).
  assert (H2 : Forall (fun o => o = DescribeCertificate arn \/ o = Pause 1000)
                 [DescribeCertificate arn; Pause 1000]).
  { constructor; [now left |]. constructor; [now right | constructor]. }
  induction k as [| k IH]; intros rs Hlen.
  - destruct rs; [exact H1 | simpl in Hlen; lia].
  - destruct rs as [| r rs1]; [exact H1 |]. simpl.
    destruct r as [code msg | | | | [c0 |] |]; try exact H1.
    destruct (same (Status c0) "PENDING_VALIDATION"); [| exact H1].
    destruct (getCertificateValidationRecord c0 domain) as [[rec |] | e];
      try exact H1.
    destruct rs1 as [| r1 rs2]; [exact H2 |].
    assert (Hrec : Forall (fun o => o = DescribeCertificate arn \/ o = Pause 1000)
                     (fst (describeCertificateByArn arn domain rs2))).
    { apply IH. simpl in Hlen. lia. }
    destruct r1; try exact H2;
      destruct (describeCertificateByArn arn domain rs2) as [ops' out]; simpl in *;
      (constructor; [now left |]); (constructor; [now right | exact Hrec]).
Qed.

Lemma validate_ops (zone : value) (c : certificate) (domain : string)
    (rs : list answer) (o : request) :
  In o (fst (validate zone c domain rs)) ->
  truthy zone = true
  /\ same (Status c) "PENDING_VALIDATION" = true
  /\ exists record,
       getCertificateValidationRecord c domain = Ok (Some record)
       /\ o = ChangeResourceRecordSets zone "UPSERT" (rr_Name record)
                (rr_Type record) 300 (rr_Value record).
Proof.
  unfold validate. destruct (same (Status c) "PENDING_VALIDATION"); [| intros []].
  destruct (getCertificateValidationRecord c domain) as [[rec |] | e];
    try (intros []).
  destruct (truthy zone); [| intros []].
  unfold then_do. rewrite (surjective_pairing (call _ rs)), call_ops.
  intros H.
  assert (Ho : o = ChangeResourceRecordSets zone "UPSERT" (rr_Name rec)
                     (rr_Type rec) 300 (rr_Value rec)).
  { destruct (snd (call _ rs)); simpl in H; destruct H as [H | H]; auto;
      destruct H. }
  repeat split; auto. now exists rec.
Qed.

(** X23. The exported function requests a certificate only when the
    list of certificates gave no ARN for the domain: the request is for
    the naked domain, with the naked domain and its wildcard as
    alternative names, validated through DNS. *)
Theorem certificate_is_requested_only_when_missing (params : value)
    (rs : list answer) (dn : string) (sans : list string) (vm : string) :
  In (RequestCertificate dn sans vm)
    (fst (deployCertificate getNakedDomain params rs)) ->
  let domain := getNakedDomain (get params "domain") in
  dn = domain /\ sans = [domain; ("*." ++ domain)%string] /\ vm = "DNS"
  /\ exists zoneRes l rest,
       rs = zoneRes :: Summaries l :: rest /\ truthy (arn_of l domain) = false.
Proof.
  intros Hin domain.
  set (Q := fun o =>
    match o with
    | RequestCertificate dn sans vm =>
        dn = domain /\ sans = [domain; ("*." ++ domain)%string] /\ vm = "DNS"
        /\ exists zoneRes l rest,
             rs = zoneRes :: Summaries l :: rest /\ truthy (arn_of l domain) = false
    | _ => True
    end).
  assert (H : Forall Q (fst (deployCertificate getNakedDomain params rs))).
  { unfold deployCertificate. fold domain. apply then_do_all.
    { rewrite call_ops. repeat constructor. }
    intros zr rest1 Hz. apply call_returned in Hz. apply then_do_all.
    { rewrite getCertificateArnByDomain_ops. repeat constructor. }
    intros found rest2 Hf.
    apply getCertificateArnByDomain_returned in Hf. destruct Hf as [l [-> ->]].
    apply then_do_all.
    { destruct (truthy (arn_of l domain)) eqn:Et; simpl; [constructor |].
      apply then_do_all; [| intros; constructor].
      rewrite call_ops. constructor; [| constructor].
      simpl. repeat split. now exists zr, l, rest2. }
    intros arn rest3 _. apply then_do_all.
    { pose proof (describe_ops arn domain (length rest3) rest3 (le_n _)) as Hd.
      revert Hd. apply Forall_impl. intros o [-> | ->]; exact I. }
    intros c rest4 _. apply then_do_all; [| intros; constructor].
    apply Forall_forall. intros o Ho. apply validate_ops in Ho.
    destruct Ho as [_ [_ [record [_ ->]]]]. exact I. }
  rewrite Forall_forall in H. exact (H _ Hin).
Qed.

(** X24. The exported function changes a DNS record only for a
    certificate it has just been given as pending validation, only in
    the hosted zone that [getDomainHostedZoneId] found, and only to
    upsert, with a TTL of 300, the record that validates the domain. *)
Theorem only_the_validation_record_is_upserted (params : value)
    (rs : list answer) (zone : value) (action : string) (name type : value)
    (ttl : Z) (v : value) :
  In (ChangeResourceRecordSets zone action name type ttl v)
    (fst (deployCertificate getNakedDomain params rs)) ->
  let domain := getNakedDomain (get params "domain") in
  action = "UPSERT" /\ ttl = 300%Z /\ truthy zone = true
  /\ (exists rest, rs = HostedZone zone :: rest)
  /\ exists c record,
       In (Described (Some c)) rs
       /\ same (Status c) "PENDING_VALIDATION" = true
       /\ getCertificateValidationRecord c domain = Ok (Some record)
       /\ name = rr_Name record /\ type = rr_Type record /\ v = rr_Value record.
Proof.
  intros Hin domain.
  set (Q := fun o =>
    match o with
    | ChangeResourceRecordSets zone action name type ttl v =>
        action = "UPSERT" /\ ttl = 300%Z /\ truthy zone = true
        /\ (exists rest, rs = HostedZone zone :: rest)
        /\ exists c record,
             In (Described (Some c)) rs
             /\ same (Status c) "PENDING_VALIDATION" = true
             /\ getCertificateValidationRecord c domain = Ok (Some record)
             /\ name = rr_Name record /\ type = rr_Type record
             /\ v = rr_Value record
    | _ => True
    end).
  assert (H : Forall Q (fst (deployCertificate getNakedDomain params rs))).
  { unfold deployCertificate. fold domain. apply then_do_all.
    { rewrite call_ops. repeat constructor. }
    intros zr rest1 Hz. apply call_returned in Hz. apply then_do_all.
    { rewrite getCertificateArnByDomain_ops. repeat constructor. }
    intros found rest2 Hf.
    apply getCertificateArnByDomain_returned in Hf. destruct Hf as [l [-> ->]].
    apply then_do_all.
    { destruct (truthy (arn_of l domain)); simpl; [constructor |].
      apply then_do_all; [| intros; constructor].
      rewrite call_ops. repeat constructor. }
    intros arn rest3 Ha.
    assert (Hsub : forall x, In x rest3 -> In x rs).
    { intros x Hx. subst rs. right. right.
      destruct (truthy (arn_of l domain)); simpl in Ha.
      - inversion Ha; subst. exact Hx.
      - unfold then_do in Ha. rewrite (surjective_pairing (call _ rest2)) in Ha.
        destruct (snd (call _ rest2)) as [| r rest' |] eqn:Ec; try discriminate.
        apply call_returned in Ec. simpl in Ha. inversion Ha; subst. now right. }
    apply then_do_all.
    { pose proof (describe_ops arn domain (length rest3) rest3 (le_n _)) as Hd.
      revert Hd. apply Forall_impl. intros o [-> | ->]; exact I. }
    intros c rest4 Hc.
    assert (Hin' : In (Described (Some c)) rest3).
    { destruct (describeCertificateByArn arn domain rest3) as [ops' out'] eqn:Ed.
      simpl in Hc. subst out'.
      now destruct (describe_spec arn domain _ _ _ _ _ (le_n _) Ed) as [_ [Hi _]]. }
    apply then_do_all; [| intros; constructor].
    apply Forall_forall. intros o Ho. apply validate_ops in Ho.
    destruct Ho as [Hz' [Hp [record [Hr ->]]]]. simpl.
    repeat split; auto.
    - destruct zr; simpl in Hz'; try discriminate. eexists. exact Hz.
    - exists c, record. repeat split; auto. }
  rewrite Forall_forall in H. exact (H _ Hin).
Qed.

Lemma then_do_returned {A B : Type} (p : proc A) (f : A -> proc B) (rs : list answer)
    (ops : list request) (b : B) (rest : list answer) :
  then_do p f rs = (ops, Returned b rest) ->
  exists ops1 a rest1 ops2,
    p rs = (ops1, Returned a rest1) /\ f a rest1 = (ops2, Returned b rest)
    /\ ops = ops1 ++ ops2.
Proof.
  intros H. apply then_do_inv in H.
  destruct H as [H | [[_ E] | [e [_ E]]]]; [exact H | discriminate | discriminate].
Qed.

Lemma validate_returned (zone : value) (c : certificate) (domain : string)
    (rs : list answer) (ops : list request) (rest : list answer) :
  validate zone c domain rs = (ops, Returned tt rest) ->
  same (Status c) "PENDING_VALIDATION" = true -> truthy zone = true ->
  exists record,
    getCertificateValidationRecord c domain = Ok (Some record)
    /\ ops = [ChangeResourceRecordSets zone "UPSERT" (rr_Name record)
                (rr_Type record) 300 (rr_Value record)].
Proof.
  unfold validate. intros H Hp Hz. rewrite Hp, Hz in H.
  destruct (getCertificateValidationRecord c domain) as [[record |] | e];
    try discriminate.
  exists record. split; [reflexivity |].
  apply then_do_returned in H.
  destruct H as [ops1 [a [rest1 [ops2 [Hc [Hr ->]]]]]].
  pose proof (call_ops (ChangeResourceRecordSets zone "UPSERT" (rr_Name record)
                          (rr_Type record) 300 (rr_Value record)) rs) as Ho.
  rewrite Hc in Ho. simpl in Ho. subst ops1.
  unfold ret in Hr. inversion Hr; subst. reflexivity.
Qed.

(** X25. When the exported function returns, the status it reports is
    that of a certificate it was given under the ARN it reports, and
    that certificate is not pending or has the record that validates the
    domain; the hosted zone it reports is the one that was found; and
    when the certificate is pending and a hosted zone was found, the
    upsert of the validation record was its last call. *)
Theorem deployCertificate_returns (params : value) (rs : list answer)
    (ops : list request) (out : deployed) (rest : list answer) :
  deployCertificate getNakedDomain params rs = (ops, Returned out rest) ->
  let domain := getNakedDomain (get params "domain") in
  exists zoneRes rest' c,
    rs = zoneRes :: rest'
    /\ domainHostedZoneId out
       = match zoneRes with HostedZone id => id | _ => VUndef end
    /\ In (Described (Some c)) rs
    /\ usable c domain
    /\ certificateStatus out = Status c
    /\ In (DescribeCertificate (certificateArn out)) ops
    /\ (same (Status c) "PENDING_VALIDATION" = true ->
        truthy (domainHostedZoneId out) = true ->
        exists record ops',
          getCertificateValidationRecord c domain = Ok (Some record)
          /\ ops = ops' ++ [ChangeResourceRecordSets (domainHostedZoneId out) "UPSERT"
                              (rr_Name record) (rr_Type record) 300
                              (rr_Value record)]).
Proof.
  intros H domain. unfold deployCertificate in H. fold domain in H.
  apply then_do_returned in H.
  destruct H as [ops0 [zr [rest1 [ops1 [Hz [H ->]]]]]].
  pose proof (call_returned _ _ _ _ (f_equal snd Hz)) as Ers.
  apply then_do_returned in H.
  destruct H as [ops2 [found [rest2 [ops3 [Hf [H ->]]]]]].
  apply then_do_returned in H.
  destruct H as [ops4 [arn [rest3 [ops5 [Ha [H ->]]]]]].
  apply then_do_returned in H.
  destruct H as [ops6 [c [rest4 [ops7 [Hd [H ->]]]]]].
  apply then_do_returned in H.
  destruct H as [ops8 [u [rest5 [ops9 [Hv [H ->]]]]]].
  unfold ret in H. inversion H; subst ops9 out rest5. clear H. simpl.
  destruct (describe_spec arn domain _ _ _ _ _ (le_n _) Hd) as [Hu [Hin [n [-> _]]]].
  assert (Hsub3 : forall x, In x rest3 -> In x rest2).
  { intros x Hx. destruct (negb (truthy found)).
    - apply then_do_returned in Ha.
      destruct Ha as [o1 [r [r1 [o2 [Hc [Hr _]]]]]].
      pose proof (call_returned _ _ _ _ (f_equal snd Hc)) as E.
      unfold ret in Hr. inversion Hr; subst. now right.
    - unfold ret in Ha. inversion Ha; subst. exact Hx. }
  assert (Hsub2 : forall x, In x rest2 -> In x rest1).
  { intros x Hx.
    destruct (getCertificateArnByDomain_returned _ _ _ _ (f_equal snd Hf))
      as [l [-> _]]. now right. }
  exists zr, rest1, c. repeat split; auto.
  - rewrite Ers. right. apply Hsub2. now apply Hsub3.
  - apply in_or_app. right. apply in_or_app. right. apply in_or_app. right.
    apply in_or_app. left. now left.
  - intros Hp Hzone. destruct u.
    destruct (validate_returned _ _ _ _ _ _ Hv Hp Hzone) as [record [Hr ->]].
    exists record. eexists. split; [exact Hr |].
    rewrite app_nil_r, !app_assoc. reflexivity.
Qed.

End CertificateFacts.

Lemma first_certificate_of_the_domain_decides_witness :
  Certificate.getCertificateArnByDomain "example.com"
    [Certificate.Summaries Certificate.shadowed]
  = ([Certificate.ListCertificates], Certificate.Returned VNull []).
Proof.
  apply (proj1 (first_certificate_of_the_domain_decides "example.com"
                  Certificate.shadowed [])
           [ {| Certificate.s_DomainName := VStr "other.org";
                Certificate.s_CertificateArn := VStr "arn:other" |} ]
           {| Certificate.s_DomainName := VStr "example.com";
              Certificate.s_CertificateArn := VUndef |}
           [ {| Certificate.s_DomainName := VStr "example.com";
                Certificate.s_CertificateArn := VStr "arn:cert" |} ]).
  - reflexivity.
  - intros x [<- | []]. reflexivity.
  - reflexivity.
Defined.

Lemma describeCertificateByArn_returns_usable_witness :
  Certificate.usable Certificate.pending "example.com"
  /\ In (Certificate.Described (Some Certificate.pending))
       [ Certificate.Described (Some Certificate.requested); Certificate.Fulfilled;
         Certificate.Described (Some Certificate.pending) ]
  /\ exists n,
       [ Certificate.DescribeCertificate (VStr "arn:new"); Certificate.Pause 1000;
         Certificate.DescribeCertificate (VStr "arn:new") ]
       = Certificate.DescribeCertificate (VStr "arn:new")
         :: Certificate.rounds (VStr "arn:new") n
       /\ 3 = 2 * n + 1 + 0.
Proof.
  apply (describeCertificateByArn_returns_usable (VStr "arn:new") "example.com"
           [ Certificate.Described (Some Certificate.requested); Certificate.Fulfilled;
             Certificate.Described (Some Certificate.pending) ]
           [ Certificate.DescribeCertificate (VStr "arn:new"); Certificate.Pause 1000;
             Certificate.DescribeCertificate (VStr "arn:new") ]
           Certificate.pending []).
  reflexivity.
Defined.

Lemma describeCertificateByArn_keeps_polling_witness :
  Certificate.describeCertificateByArn (VStr "arn:new") "example.com"
    (Certificate.still_pending Certificate.requested 3)
  = (Certificate.DescribeCertificate (VStr "arn:new")
     :: Certificate.rounds (VStr "arn:new") 3, Certificate.Waiting).
Proof.
  apply (describeCertificateByArn_keeps_polling (VStr "arn:new") "example.com"
           Certificate.requested 3); reflexivity.
Defined.

Lemma certificate_is_requested_only_when_missing_witness :
  "example.com" = Certificate.naked (get Certificate.example_params "domain")
  /\ ["example.com"; "*.example.com"]
     = [ Certificate.naked (get Certificate.example_params "domain");
         ("*." ++ Certificate.naked (get Certificate.example_params "domain"))%string ]
  /\ "DNS" = "DNS"
  /\ exists zoneRes l rest,
       Certificate.first_deployment = zoneRes :: Certificate.Summaries l :: rest
       /\ truthy (Certificate.arn_of l
                    (Certificate.naked (get Certificate.example_params "domain")))
          = false.
Proof.
  apply (certificate_is_requested_only_when_missing Certificate.naked
           Certificate.example_params Certificate.first_deployment
           "example.com" ["example.com"; "*.example.com"] "DNS").
  vm_compute. right. right. left. reflexivity.
Defined.

Lemma only_the_validation_record_is_upserted_witness :
  "UPSERT" = "UPSERT" /\ 300%Z = 300%Z /\ truthy (VStr "Z1") = true
  /\ (exists rest, Certificate.first_deployment = Certificate.HostedZone (VStr "Z1") :: rest)
  /\ exists c record,
       In (Certificate.Described (Some c)) Certificate.first_deployment
       /\ Certificate.same (Certificate.Status c) "PENDING_VALIDATION" = true
       /\ Certificate.getCertificateValidationRecord c
            (Certificate.naked (get Certificate.example_params "domain"))
          = Ok (Some record)
       /\ VStr "_x.example.com." = Certificate.rr_Name record
       /\ VStr "CNAME" = Certificate.rr_Type record
       /\ VStr "_y.acm-validations.aws." = Certificate.rr_Value record.
Proof.
  apply (only_the_validation_record_is_upserted Certificate.naked
           Certificate.example_params Certificate.first_deployment).
  vm_compute. do 6 right. left. reflexivity.
Defined.

Lemma deployCertificate_returns_witness :
  exists zoneRes rest' c,
    Certificate.first_deployment = zoneRes :: rest'
    /\ VStr "Z1"
       = match zoneRes with Certificate.HostedZone id => id | _ => VUndef end
    /\ In (Certificate.Described (Some c)) Certificate.first_deployment
    /\ Certificate.usable c
         (Certificate.naked (get Certificate.example_params "domain"))
    /\ VStr "PENDING_VALIDATION" = Certificate.Status c
    /\ In (Certificate.DescribeCertificate (VStr "arn:new"))
         (fst (Certificate.deployCertificate Certificate.naked
                 Certificate.example_params Certificate.first_deployment))
    /\ (Certificate.same (Certificate.Status c) "PENDING_VALIDATION" = true ->
        truthy (VStr "Z1") = true ->
        exists record ops',
          Certificate.getCertificateValidationRecord c
            (Certificate.naked (get Certificate.example_params "domain"))
          = Ok (Some record)
          /\ fst (Certificate.deployCertificate Certificate.naked
                    Certificate.example_params Certificate.first_deployment)
             = ops' ++ [Certificate.ChangeResourceRecordSets (VStr "Z1") "UPSERT"
                          (Certificate.rr_Name record) (Certificate.rr_Type record)
                          300 (Certificate.rr_Value record)]).
Proof.
  apply (deployCertificate_returns Certificate.naked Certificate.example_params
           Certificate.first_deployment
           (fst (Certificate.deployCertificate Certificate.naked
                   Certificate.example_params Certificate.first_deployment))
           {| Certificate.domainHostedZoneId := VStr "Z1";
              Certificate.certificateArn := VStr "arn:new";
              Certificate.certificateStatus := VStr "PENDING_VALIDATION" |}
           []).
  vm_compute. reflexivity.
Defined.

(** X26. A pending certificate whose validation options are there but
    hold none for the domain (an empty list, for one) makes
    [describeCertificateByArn] throw a [TypeError] at once: it neither
    pauses nor describes the certificate again. *)
Theorem describeCertificateByArn_throws_without_option (arn : value)
    (domain : string) (c : Certificate.certificate)
    (options : list Certificate.validationOption) (rest : list Certificate.answer) :
  Certificate.same (Certificate.Status c) "PENDING_VALIDATION" = true ->
  Certificate.DomainValidationOptions c = Some options ->
  (forall o, In o options ->
     Certificate.same (Certificate.vo_DomainName o) domain = false) ->
  exists message,
    Certificate.describeCertificateByArn arn domain
      (Certificate.Described (Some c) :: rest)
    = ([Certificate.DescribeCertificate arn],
       Certificate.Thrown (JsTypeError message)).
Proof.
  intros Hp Ho Hnone. simpl. rewrite Hp.
  unfold Certificate.getCertificateValidationRecord. rewrite Ho.
  rewrite (find_none
             (fun option => Certificate.same (Certificate.vo_DomainName option) domain)
             options Hnone).
  eexists. reflexivity.
Qed.

Lemma describeCertificateByArn_throws_without_option_witness :
  exists message,
    Certificate.describeCertificateByArn (VStr "arn:new") "example.com"
      [ Certificate.Described
          (Some {| Certificate.Status := VStr "PENDING_VALIDATION";
                   Certificate.DomainValidationOptions := Some [] |});
        Certificate.Fulfilled ]
    = ([Certificate.DescribeCertificate (VStr "arn:new")],
       Certificate.Thrown (JsTypeError message)).
Proof.
  apply (describeCertificateByArn_throws_without_option (VStr "arn:new")
           "example.com"
           {| Certificate.Status := VStr "PENDING_VALIDATION";
              Certificate.DomainValidationOptions := Some [] |}
           [] [Certificate.Fulfilled]).
  - reflexivity.
  - reflexivity.
  - intros o [].
Defined.
